(** * flow-cli: the transaction role resolution of [transactions send] and the
      two network gateways (gRPC access API and embedded emulator)

    A shallow embedding of
    - [pkg/flowcli/gateway/grpc.go]        (module [Grpc]),
    - the emulator gateway of [pkg/flowkit/gateway] (module [Emu]),
    - [internal/transactions/send.go]      (module [Send]),
    with the Go values they exchange (module [Go], module [Flow]).

    Conventions.  A Go function of these files returning [(T, error)]
    returns a [result T]; a run-time panic (nil dereference, index out of
    range) is the third constructor.  A function of another package hands
    back a [reply T], a value or an error.  Recursion and loops that Go does not bound carry a [fuel]
    argument and return [None] when it runs out.  Pointers that may be nil
    are [option]s, slices are lists. *)

From Stdlib Require Import ZArith List Lia Bool Ascii String.
From stdpp Require Import gmap strings list.

Import ListNotations.
Local Open Scope string_scope.
Local Open Scope list_scope.

(* ------------------------------------------------------------------ *)
(** ** Go values: errors and results *)
(* ------------------------------------------------------------------ *)
Module Go.

(** gRPC status codes (google.golang.org/grpc/codes), the ones the access
    API and the emulator backend answer with. *)
Inductive Code : Type :=
| Canceled | Unknown | InvalidArgument | DeadlineExceeded
| NotFound | Internal | Unavailable.

Definition Code_String (c : Code) : string :=
  match c with
  | Canceled => "Canceled"
  | Unknown => "Unknown"
  | InvalidArgument => "InvalidArgument"
  | DeadlineExceeded => "DeadlineExceeded"
  | NotFound => "NotFound"
  | Internal => "Internal"
  | Unavailable => "Unavailable"
  end.

(** A Go [error] value, by the concrete type behind the interface:
    - [StatusError c m]: a gRPC status error, the backend-native error of
      both the access client and the emulator backend;
    - [ErrorString m]:   what [errors.New] and [fmt.Errorf] without [%w]
      build, a message and nothing else;
    - [WrapError m e]:   what [fmt.Errorf] with [%w] builds, the formatted
      message [m] and, intact behind [Unwrap], the operand [e]. *)
Inductive error : Type :=
| StatusError (c : Code) (msg : string)
| ErrorString (msg : string)
| WrapError (msg : string) (cause : error).

(** The [Error()] method. *)
Definition Error (e : error) : string :=
  match e with
  | StatusError c m => "rpc error: code = " +:+ Code_String c +:+ " desc = " +:+ m
  | ErrorString m => m
  | WrapError m _ => m
  end.


(** An error is flat when it is a bare message: no status object and no
    wrapped cause can be recovered from it. *)
Definition flat (e : error) : bool :=
  match e with
  | ErrorString _ => true
  | _ => false
  end.


(** [status.Convert(err).Message()]: the description of a status error; for
    any other error the status is built from [err.Error()]. *)
Definition status_Convert_Message (e : error) : string :=
  match e with
  | StatusError _ m => m
  | _ => Error e
  end.

(** Outcome of a Go call. *)
Inductive result (A : Type) : Type :=
| Ok (a : A)
| Err (e : error)
| Panic.

Arguments Ok {A} a.
Arguments Err {A} e.
Arguments Panic {A}.

(** Sequencing of calls: the first error or panic ends the function. *)
#[export] Instance result_ret : MRet result := fun A a => Ok a.
#[export] Instance result_bind : MBind result := fun A B f m =>
  match m with
  | Ok a => f a
  | Err e => Err e
  | Panic => Panic
  end.

(** What a call into another package hands back: a value or an error. *)
Definition reply (A : Type) : Type := (A + error)%type.

Definition replied {A} (r : reply A) : bool :=
  match r with inl _ => true | inr _ => false end.

(** [return callee(...)]: the reply is the function's own outcome. *)
Definition call {A} (r : reply A) : result A :=
  match r with
  | inl a => Ok a
  | inr e => Err e
  end.

(** Slice indexing [s[i]] with an [int] index: out of range panics. *)
Definition index {A} (s : list A) (i : Z) : result A :=
  if (i <? 0)%Z then Panic
  else match s !! Z.to_nat i with
       | Some a => Ok a
       | None => Panic
       end.

(** The largest [uint64] and the wrap-around of [uint64] arithmetic. *)
Definition MaxUint64 : Z := 2 ^ 64 - 1.
Definition wrap64 (z : Z) : Z := z mod 2 ^ 64.

End Go.

(* ------------------------------------------------------------------ *)
(** ** flow-go-sdk values *)
(* ------------------------------------------------------------------ *)
Module Flow.
Import Go.

(** A 32-byte identifier and an 8-byte address, by their big-endian value. *)
Definition Identifier := N.
Definition Address := N.
Bind Scope N_scope with Identifier Address.

Definition hexdigit (n : N) : ascii :=
  nth (N.to_nat n) (list_ascii_of_string "0123456789abcdef") "0"%char.

Fixpoint hex_fixed (digits : nat) (n : N) : string :=
  match digits with
  | O => ""
  | S d => hex_fixed d (n / 16) +:+ String (hexdigit (n mod 16)) ""
  end.

(** [Address.String()]: the eight bytes in hexadecimal. *)
Definition Address_String (a : Address) : string := hex_fixed 16 a.

(** A Cadence value, opaque to this code, by its JSON-Cadence text. *)
Definition Value := string.

Inductive TransactionStatus : Type :=
| TransactionStatusUnknown
| TransactionStatusPending
| TransactionStatusFinalized
| TransactionStatusExecuted
| TransactionStatusSealed
| TransactionStatusExpired.

Definition TransactionStatus_eqb (a b : TransactionStatus) : bool :=
  match a, b with
  | TransactionStatusUnknown, TransactionStatusUnknown
  | TransactionStatusPending, TransactionStatusPending
  | TransactionStatusFinalized, TransactionStatusFinalized
  | TransactionStatusExecuted, TransactionStatusExecuted
  | TransactionStatusSealed, TransactionStatusSealed
  | TransactionStatusExpired, TransactionStatusExpired => true
  | _, _ => false
  end.

Record Event := { EventType : string; EventPayload : string }.

Record TransactionResult := {
  Status : TransactionStatus;
  ResultError : option error;
  ResultEvents : list Event;
}.

Record AccountKey := {
  KeyIndex : Z;            (* int *)
  SequenceNumber : Z;      (* uint64 *)
}.

Record Account := {
  AccAddress : Address;
  Keys : list AccountKey;
}.

Record BlockHeader := {
  ID : Identifier;
  ParentID : Identifier;
  Height : Z;              (* uint64 *)
  Timestamp : Z;
}.

Record Block := {
  Header : BlockHeader;
  CollectionGuarantees : list Identifier;
  Seals : list Identifier;
}.

Definition Collection := list Identifier.

(** [flow.BlockEvents].  The spec tells an empty event list from an absent
    one, so this slice keeps Go's nil: [None] is the nil slice. *)
Record BlockEvents := {
  BlockID : Identifier;
  BEHeight : Z;
  BlockTimestamp : Z;
  Events : option (list Event);
}.

Record EventRangeQuery := {
  QType : string;
  StartHeight : Z;
  EndHeight : Z;
}.

Record ProposalKey := {
  PKAddress : Address;
  PKKeyIndex : Z;
  PKSequenceNumber : Z;
}.

Record Transaction := {
  Script : string;
  ReferenceBlockID : Identifier;
  GasLimit : Z;            (* uint64 *)
  TxProposalKey : ProposalKey;
  TxPayer : Address;
  Authorizers : list Address;
}.

(** The setters of [flow.Transaction]; Go mutates in place and returns the
    receiver, so the calls chain. *)
Definition SetReferenceBlockID (id : Identifier) (t : Transaction) : Transaction :=
  {| Script := Script t; ReferenceBlockID := id; GasLimit := GasLimit t;
     TxProposalKey := TxProposalKey t; TxPayer := TxPayer t;
     Authorizers := Authorizers t |}.

Definition SetGasLimit (limit : Z) (t : Transaction) : Transaction :=
  {| Script := Script t; ReferenceBlockID := ReferenceBlockID t; GasLimit := limit;
     TxProposalKey := TxProposalKey t; TxPayer := TxPayer t;
     Authorizers := Authorizers t |}.

Definition SetProposalKey (a : Address) (keyIndex sequenceNum : Z) (t : Transaction)
  : Transaction :=
  {| Script := Script t; ReferenceBlockID := ReferenceBlockID t; GasLimit := GasLimit t;
     TxProposalKey := {| PKAddress := a; PKKeyIndex := keyIndex;
                         PKSequenceNumber := sequenceNum |};
     TxPayer := TxPayer t; Authorizers := Authorizers t |}.

End Flow.

(* ------------------------------------------------------------------ *)
(** ** [pkg/flowcli/project]: the transaction handed to a gateway *)
(* ------------------------------------------------------------------ *)
Module Project.
Import Go.

(** Modelled from the spec: [project.AccountKey], [project.Account] and
    [project.Transaction] are declared outside the files at hand; section 3
    of the spec gives an account a name, an address and keys with an index,
    and the gateway reads a transaction's signer, optional proposer and the
    SDK transaction it stages. *)
Record AccountKey := { Index : Z (* int *) }.

Record Account := {
  name : string;
  address : Flow.Address;
  DefaultKey : AccountKey;
}.

Record Transaction := {
  signer : option Account;       (* *Account, may be nil *)
  proposer : option Account;     (* *Account, nil when not set *)
  tx : Flow.Transaction;
}.

Definition Signer (t : Transaction) := signer t.
Definition Proposer (t : Transaction) := proposer t.
Definition FlowTransaction (t : Transaction) := tx t.

(** [*tx.FlowTransaction() = ft]: the staged SDK transaction is updated in
    place, signer and proposer stay. *)
Definition with_FlowTransaction (ft : Flow.Transaction) (t : Transaction) : Transaction :=
  {| signer := signer t; proposer := proposer t; tx := ft |}.

End Project.

(* ------------------------------------------------------------------ *)
(** ** [pkg/flowcli/gateway/grpc.go] *)
(* ------------------------------------------------------------------ *)
Module Grpc.
Import Go Flow.

Definition defaultGasLimit : Z := 1000.

(** [context.Context].  [NewGrpcGateway] stores [context.Background()] and
    nothing in the file replaces it: the only context a gateway ever holds
    has no deadline and is never cancelled. *)
Inductive Context : Type := Background.

(** The access API behind [client.Client]: what the network answers.  The
    answer to a transaction-result query changes while the transaction
    moves towards its seal, so that call also takes the number of result
    queries already made. *)
Record Client := {
  GetAccountAtLatestBlock : Context -> Address -> reply Account;
  GetLatestBlockHeader : Context -> bool -> reply BlockHeader;
  client_SendTransaction : Context -> Transaction -> option error;
  client_GetTransaction : Context -> Identifier -> reply Transaction;
  client_GetTransactionResult : Context -> nat -> Identifier -> reply TransactionResult;
  ExecuteScriptAtLatestBlock : Context -> string -> list Value -> reply Value;
  client_GetLatestBlock : Context -> bool -> reply Block;
  client_GetBlockByID : Context -> Identifier -> reply Block;
  client_GetBlockByHeight : Context -> Z -> reply Block;
  GetEventsForHeightRange : Context -> EventRangeQuery -> reply (list BlockEvents);
  client_GetCollection : Context -> Identifier -> reply Collection;
}.

Record GrpcGateway := {
  client : Client;
  ctx : Context;
}.

(** [NewGrpcGateway], once [client.New] has connected. *)
Definition NewGrpcGateway (gClient : Client) : GrpcGateway :=
  {| client := gClient; ctx := Background |}.

(** What one call has cost so far: result queries sent, seconds slept. *)
Record World := {
  polls : nat;
  slept : nat;
}.

Definition GetAccount (g : GrpcGateway) (address : Address) : result Account :=
  match GetAccountAtLatestBlock (client g) (ctx g) address with
  | inr err =>
      Err (WrapError ("failed to get account with address "
                        +:+ Address_String address +:+ ": " +:+ Error err) err)
  | inl account => Ok account
  end.

Definition PrepareTransactionPayload (g : GrpcGateway) (tx : Project.Transaction)
  : result Project.Transaction :=
  match Project.Signer tx with
  | None => Panic                                   (* tx.Signer().Address() on nil *)
  | Some signer =>
      let proposalAddress :=
        match Project.Proposer tx with
        | Some p => Project.address p               (* default proposer is signer *)
        | None => Project.address signer
        end in
      proposer ← GetAccount g proposalAddress;
      proposerKey ← index (Keys proposer) (Project.Index (Project.DefaultKey signer));
      match GetLatestBlockHeader (client g) (ctx g) true with
      | inr err => Err (WrapError ("failed to get latest sealed block: " +:+ Error err) err)
      | inl sealed =>
          Ok (Project.with_FlowTransaction
                (SetProposalKey proposalAddress (KeyIndex proposerKey)
                                (SequenceNumber proposerKey)
                   (SetGasLimit defaultGasLimit
                      (SetReferenceBlockID (ID sealed) (Project.FlowTransaction tx))))
                tx)
      end
  end.

Definition SendSignedTransaction (g : GrpcGateway) (transaction : Project.Transaction)
  : result Transaction :=
  let tx := Project.FlowTransaction transaction in
  match client_SendTransaction (client g) (ctx g) tx with
  | Some err => Err (WrapError ("failed to submit transaction: " +:+ Error err) err)
  | None => Ok tx
  end.

Definition GetTransaction (g : GrpcGateway) (id : Identifier) : result Transaction :=
  call (client_GetTransaction (client g) (ctx g) id).

Definition ExecuteScript (g : GrpcGateway) (script : string) (arguments : list Value)
  : result Value :=
  match ExecuteScriptAtLatestBlock (client g) (ctx g) script arguments with
  | inr err => Err (WrapError ("failed to submit executable script: " +:+ Error err) err)
  | inl value => Ok value
  end.

Definition GetLatestBlock (g : GrpcGateway) : result Block :=
  call (client_GetLatestBlock (client g) (ctx g) true).

Definition GetBlockByID (g : GrpcGateway) (id : Identifier) : result Block :=
  call (client_GetBlockByID (client g) (ctx g) id).

Definition GetBlockByHeight (g : GrpcGateway) (height : Z) : result Block :=
  call (client_GetBlockByHeight (client g) (ctx g) height).

Definition GetEvents (g : GrpcGateway) (eventType : string) (startHeight endHeight : Z)
  : result (list BlockEvents) :=
  call (GetEventsForHeightRange (client g) (ctx g)
          {| QType := eventType; StartHeight := startHeight; EndHeight := endHeight |}).

Definition GetCollection (g : GrpcGateway) (id : Identifier) : result Collection :=
  call (client_GetCollection (client g) (ctx g) id).

Section WithCollaborators.
(** [tx.ID()], the hash of the encoded transaction, and [tx.Sign()] of the
    project package. *)
Variable Transaction_ID : Transaction -> Identifier.
Variable Sign : Project.Transaction -> reply Project.Transaction.

Definition SendTransaction (g : GrpcGateway) (transaction : Project.Transaction)
  : result Transaction :=
  tx ← PrepareTransactionPayload g transaction;
  match Sign tx with
  | inr err => Err (WrapError ("failed to sign transaction: " +:+ Error err) err)
  | inl tx => SendSignedTransaction g tx
  end.

(** [GetTransactionResult]: one query; when the status is not sealed and
    [waitSeal] is set, sleep a second and call itself again.  The Go
    recursion has no bound; [fuel] counts the calls allowed here. *)
Fixpoint GetTransactionResult (fuel : nat) (g : GrpcGateway) (tx : Transaction)
         (waitSeal : bool) (w : World) : option (result TransactionResult * World) :=
  match fuel with
  | O => None
  | S fuel' =>
      let w1 := {| polls := S (polls w); slept := slept w |} in
      match client_GetTransactionResult (client g) (ctx g) (polls w) (Transaction_ID tx) with
      | inr err => Some (Err err, w1)
      | inl result =>
          if negb (TransactionStatus_eqb (Status result) TransactionStatusSealed)
             && waitSeal
          then GetTransactionResult fuel' g tx waitSeal
                 {| polls := polls w1; slept := S (slept w1) |}   (* time.Sleep(time.Second) *)
          else Some (Ok result, w1)
      end
  end.

End WithCollaborators.

End Grpc.

(* ------------------------------------------------------------------ *)
(** ** The emulator gateway ([EmulatorGateway], package [gateway]) *)
(* ------------------------------------------------------------------ *)
Module Emu.
Import Go Flow.

(** Blocks and events as the emulator backend hands them out (flow-go's
    model); [GoID] is what [block.ID()] computes. *)
Record GoBlock := {
  GoID : Identifier;
  GoParentID : Identifier;
  GoHeight : Z;
  GoTimestamp : Z;
}.

Record GoEvent := { GoEventType : string; GoEventPayload : string }.

Record GoBlockEvents := {
  GoBlockID : Identifier;
  GoBlockHeight : Z;
  GoEvents : list GoEvent;
}.

Section Gateway.
(** [backend.Emulator]: an interface value holding a pointer to an
    in-process blockchain.  A value of this type is the handle, not a copy
    of the ledger behind it. *)
Context {Emulator : Type}.

(** What [backend.Backend] answers, given the engine it currently drives.
    The context every call passes along plays no part in the answers. *)
Record BackendOps := {
  be_GetAccount : Emulator -> Address -> reply Account;
  be_SendTransaction : Emulator -> Transaction -> option error;
  be_GetTransactionResult : Emulator -> Identifier -> reply TransactionResult;
  be_GetTransaction : Emulator -> Identifier -> reply Transaction;
  be_Ping : Emulator -> option error;
  be_ExecuteScriptAtLatestBlock : Emulator -> string -> list string -> reply string;
  be_GetLatestBlock : Emulator -> bool -> reply GoBlock;
  be_GetBlockByID : Emulator -> Identifier -> reply GoBlock;
  be_GetBlockByHeight : Emulator -> Z -> reply GoBlock;
  be_GetEventsForBlockIDs :
    Emulator -> string -> list Identifier -> reply (list GoBlockEvents);
  be_GetCollectionByID : Emulator -> Identifier -> reply Collection;
  be_GetLatestProtocolStateSnapshot : Emulator -> reply string;
}.

Variable ops : BackendOps.
(** [fmt.Sprintf] of a format without operands; [jsoncdc.Encode] and
    [jsoncdc.Decode]; [sdk.FlowEventsToSDK]. *)
Variable Sprintf : string -> string.
Variable jsoncdc_Encode : Value -> reply string.
Variable jsoncdc_Decode : string -> reply Value.
Variable FlowEventsToSDK : list GoEvent -> reply (list Event).

Record Backend := {
  backend_emulator : Emulator;
  automine : bool;
}.

Definition backend_New (e : Emulator) : Backend :=
  {| backend_emulator := e; automine := false |}.
Definition EnableAutoMine (b : Backend) : Backend :=
  {| backend_emulator := backend_emulator b; automine := true |}.
Definition GetEmulator (b : Backend) : Emulator := backend_emulator b.
Definition SetEmulator (e : Emulator) (b : Backend) : Backend :=
  {| backend_emulator := e; automine := automine b |}.

Record EmulatorGateway := {
  emulator : Emulator;
  backend : Backend;
  snapshots : gmap string Emulator;
}.

Definition UnwrapStatusError (err : error) : error :=
  ErrorString (Sprintf (status_Convert_Message err)).

(** [NewEmulatorGatewayWithOpts], given the blockchain [newEmulator] built. *)
Definition NewEmulatorGateway (b : Emulator) : EmulatorGateway :=
  {| emulator := b;
     backend := EnableAutoMine (backend_New b);
     snapshots := ∅ |}.

(** The pattern of every query: hand the answer on, unwrap the error. *)
Definition unwrapped {A} (r : reply A) : result A :=
  match r with
  | inr err => Err (UnwrapStatusError err)
  | inl a => Ok a
  end.

Definition GetAccount (g : EmulatorGateway) (address : Address) : result Account :=
  unwrapped (be_GetAccount ops (backend_emulator (backend g)) address).

Definition SendSignedTransaction (g : EmulatorGateway) (tx : Project.Transaction)
  : result Transaction :=
  match be_SendTransaction ops (backend_emulator (backend g)) (Project.FlowTransaction tx) with
  | Some err => Err (UnwrapStatusError err)
  | None => Ok (Project.FlowTransaction tx)
  end.

(** [waitSeal] is accepted and not read. *)
Definition GetTransactionResult (g : EmulatorGateway) (ID : Identifier) (waitSeal : bool)
  : result TransactionResult :=
  unwrapped (be_GetTransactionResult ops (backend_emulator (backend g)) ID).

Definition GetTransaction (g : EmulatorGateway) (id : Identifier) : result Transaction :=
  unwrapped (be_GetTransaction ops (backend_emulator (backend g)) id).


Fixpoint cadenceValuesToMessages (values : list Value) : reply (list string) :=
  match values with
  | [] => inl []
  | val :: rest =>
      match jsoncdc_Encode val with
      | inr err => inr (WrapError ("convert: " +:+ Error err) err)
      | inl msg =>
          match cadenceValuesToMessages rest with
          | inr err => inr err
          | inl msgs => inl (msg :: msgs)
          end
      end
  end.

Definition messageToCadenceValue (m : string) : reply Value :=
  match jsoncdc_Decode m with
  | inr err => inr (WrapError ("convert: " +:+ Error err) err)
  | inl v => inl v
  end.

Definition ExecuteScript (g : EmulatorGateway) (script : string) (arguments : list Value)
  : result Value :=
  args ← unwrapped (cadenceValuesToMessages arguments);
  result ← unwrapped (be_ExecuteScriptAtLatestBlock ops (backend_emulator (backend g))
                        script args);
  unwrapped (messageToCadenceValue result).

Definition convertBlock (block : GoBlock) : Block :=
  {| Header := {| ID := GoID block; ParentID := GoParentID block;
                  Height := GoHeight block; Timestamp := GoTimestamp block |};
     CollectionGuarantees := [];
     Seals := [] |}.

Definition GetLatestBlock (g : EmulatorGateway) : result Block :=
  block ← unwrapped (be_GetLatestBlock ops (backend_emulator (backend g)) true);
  Ok (convertBlock block).

(** The loop of [getBlockEvent]: the first batch whose block identifier is
    the block's decides the event list; a failed conversion leaves nil. *)
Fixpoint firstBatch (blockID : Identifier) (events : list GoBlockEvents)
  : option (option (list Event)) :=
  match events with
  | [] => None
  | e :: rest =>
      if N.eqb (GoBlockID e) blockID
      then Some (match FlowEventsToSDK (GoEvents e) with
                 | inl evs => Some evs
                 | inr _ => None
                 end)
      else firstBatch blockID rest
  end.

(** [getBlockEvent] drops both errors.  Without a block at [height] the
    backend hands back nil and [block.ID()] panics; a failed event query
    leaves the nil slice, over which the loop does not run. *)
Definition getBlockEvent (g : EmulatorGateway) (height : Z) (eventType : string)
  : result BlockEvents :=
  match be_GetBlockByHeight ops (backend_emulator (backend g)) height with
  | inl block =>
      let events :=
        match be_GetEventsForBlockIDs ops (backend_emulator (backend g))
                eventType [GoID block] with
        | inl events => events
        | inr _ => []
        end in
      Ok {| BlockID := GoID block;
            BEHeight := GoHeight block;
            BlockTimestamp := GoTimestamp block;
            Events := match firstBatch (GoID block) events with
                      | Some evs => evs
                      | None => Some []
                      end |}
  | inr _ => Panic
  end.

(** The loop of [GetEvents], entered at its condition with the counter at
    [height]; [height++] is [uint64] arithmetic.  [fuel] bounds the number
    of times the condition is evaluated. *)
Fixpoint GetEvents_loop (fuel : nat) (g : EmulatorGateway) (eventType : string)
         (height endHeight : Z) (events : list BlockEvents)
  : option (result (list BlockEvents)) :=
  match fuel with
  | O => None
  | S fuel' =>
      if (height <=? endHeight)%Z then
        match getBlockEvent g height eventType with
        | Ok be => GetEvents_loop fuel' g eventType (wrap64 (height + 1)) endHeight
                     (events ++ [be])
        | Err e => Some (Err e)
        | Panic => Some Panic
        end
      else Some (Ok events)
  end.

Definition GetEvents (fuel : nat) (g : EmulatorGateway) (eventType : string)
           (startHeight endHeight : Z) : option (result (list BlockEvents)) :=
  GetEvents_loop fuel g eventType startHeight endHeight [].

Definition GetCollection (g : EmulatorGateway) (id : Identifier) : result Collection :=
  unwrapped (be_GetCollectionByID ops (backend_emulator (backend g)) id).

Definition GetBlockByID (g : EmulatorGateway) (id : Identifier) : result Block :=
  block ← unwrapped (be_GetBlockByID ops (backend_emulator (backend g)) id);
  Ok (convertBlock block).

Definition GetBlockByHeight (g : EmulatorGateway) (height : Z) : result Block :=
  block ← unwrapped (be_GetBlockByHeight ops (backend_emulator (backend g)) height);
  Ok (convertBlock block).


Definition SecureConnection (g : EmulatorGateway) : bool := false.

Definition CreateSnapshot (name : string) (g : EmulatorGateway) : EmulatorGateway :=
  {| emulator := emulator g;
     backend := backend g;
     snapshots := <[name := GetEmulator (backend g)]> (snapshots g) |}.

(** [LoadSnapshot]: the gateway afterwards and the error returned. *)
Definition LoadSnapshot (name : string) (g : EmulatorGateway)
  : EmulatorGateway * option error :=
  match snapshots g !! name with
  | None => (g, Some (ErrorString ("Could not find snapshot with name " +:+ name)))
  | Some emulator' =>
      ({| emulator := emulator g;
          backend := SetEmulator emulator' (backend g);
          snapshots := snapshots g |}, None)
  end.

(** [maps.Keys]: the names, in an order Go leaves open. *)
Definition ListSnapshots (g : EmulatorGateway) : list string :=
  (map_to_list (snapshots g)).*1.

End Gateway.

Arguments BackendOps Emulator : clear implicits.
Arguments Backend Emulator : clear implicits.
Arguments EmulatorGateway Emulator : clear implicits.

End Emu.

(* ------------------------------------------------------------------ *)
(** ** [internal/transactions/send.go] *)
(* ------------------------------------------------------------------ *)
Module Send.
Import Go.

Record flagsSend := {
  ArgsJSON : string;
  Arg : list string;
  Signer : string;
  Proposer : string;
  Payer : string;
  Autorizer : list string;
  Include : list string;
  Exclude : list string;
}.

(** The flags of the sibling [build] command, a package variable that
    [send] reads; of its fields only the payer name is read here. *)
Record flagsBuild := { build_Payer : string }.

Definition Account := Project.Account.

(** Modelled from the spec: [state.Accounts().ByName] is declared outside
    the files at hand; section 6 of the spec gives the configuration state
    provider as [ByName(name)] answering an account or not-found, over
    accounts whose names are unique within a configuration. *)
Definition Accounts_ByName (accounts : list Account) (name : string) : option Account :=
  find (fun a => String.eqb (Project.name a) name) accounts.

Record Script (Value : Type) := {
  Code : string;
  Filename : string;
  Args : list Value;
}.
Arguments Code {Value} _.
Arguments Filename {Value} _.
Arguments Args {Value} _.

(** What the command does to the world outside, in order. *)
Inductive effect (Roles : Type) : Type :=
| ReadFile (filename : string)
| Println (line : string)
| NewRoles (proposer payer : option Account) (authorizers : list Account)
| TransactionsSend (roles : Roles) (code filename : string) (gasLimit : Z) (network : string).
Arguments ReadFile {Roles} filename.
Arguments Println {Roles} line.
Arguments NewRoles {Roles} proposer payer authorizers.
Arguments TransactionsSend {Roles} roles code filename gasLimit network.

Definition built_or_submitted {Roles} (e : effect Roles) : bool :=
  match e with
  | NewRoles _ _ _ | TransactionsSend _ _ _ _ _ => true
  | _ => false
  end.

Section Command.
(** The collaborators: the configuration state and its lookup, the file
    reader, the two argument parsers, the role constructor and the
    transaction service.  [send] reads of a lookup's error only whether it
    is nil, so [ByName] answers the account or [None] for an error. *)
Context {State Roles Value Tx TxResult : Type}.
Variable ByName : State -> string -> option Account.
Variable readFile : string -> reply string.
Variable ParseArgumentsJSON : string -> reply (list Value).
Variable ParseArgumentsWithoutType : string -> string -> list string -> reply (list Value).
Variable NewTransactionAccountRoles :
  option Account -> option Account -> list Account -> reply Roles.
Variable Transactions_Send :
  Roles -> Script Value -> Z -> string -> reply (Tx * TxResult).
Variable DefaultTransactionGasLimit : Z.

(** A step of the command: a result and the effects so far. *)
Definition M (A : Type) : Type := list (effect Roles) -> result A * list (effect Roles).

Definition lift {A} (r : result A) : M A := fun log => (r, log).
Definition fail {A} (e : error) : M A := lift (Err e).
Definition emit (e : effect Roles) : M unit := fun log => (Ok tt, log ++ [e]).

#[local] Instance M_ret : MRet M := fun A a => lift (Ok a).
#[local] Instance M_bind : MBind M := fun A B f m log =>
  match m log with
  | (Ok a, log') => f a log'
  | (Err e, log') => (Err e, log')
  | (Panic, log') => (Panic, log')
  end.

Record TransactionResult := {
  TR_result : TxResult;
  TR_tx : Tx;
  TR_include : list string;
  TR_exclude : list string;
}.

(** [p != nil]. *)
Definition notNil {A} (p : option A) : bool :=
  match p with Some _ => true | None => false end.

Definition notFound (role name : string) : error :=
  ErrorString (role +:+ " account: [" +:+ name +:+ "] doesn't exists in configuration").

Definition roleConflict : error :=
  ErrorString "signer flag cannot be combined with payer/proposer/authorizer flags".

(** An optional role: looked up when its name is not empty. *)
Definition lookupOptional (state : State) (role name : string) : M (option Account) :=
  if negb (String.eqb name "") then
    match ByName state name with
    | Some a => mret (Some a)
    | None => fail (notFound role name)
    end
  else mret None.

(** The loop over the authorizer names. *)
Fixpoint lookupAuthorizers (state : State) (names : list string)
         (authorizers : list Account) : M (list Account) :=
  match names with
  | [] => mret authorizers
  | authorizerName :: rest =>
      match ByName state authorizerName with
      | Some authorizer => lookupAuthorizers state rest (authorizers ++ [authorizer])
      | None => fail (notFound "authorizer" authorizerName)
      end
  end.

(** Lines 66 to 108 of [send]: from the flags to the three role
    variables [proposer], [payer], [authorizers]. *)
Definition resolveRoles (sendFlags : flagsSend) (buildFlags : flagsBuild) (state : State)
  : M (option Account * option Account * list Account) :=
  let proposerName := Proposer sendFlags in
  proposer ← lookupOptional state "proposer" proposerName;
  let payerName := build_Payer buildFlags in
  payer ← lookupOptional state "payer" payerName;
  authorizers ← lookupAuthorizers state (Autorizer sendFlags) [];
  let signerName := Signer sendFlags in
  if negb (String.eqb signerName "") then
    if notNil proposer || notNil payer || (0 <? length authorizers)%nat
    then fail roleConflict
    else
      match ByName state signerName with
      | Some signer => mret (Some signer, Some signer, authorizers ++ [signer])
      | None => fail (notFound "signer" signerName)
      end
  else mret (proposer, payer, authorizers).

Definition deprecationWarning : string :=
  "⚠️  DEPRECATION WARNING: use transaction arguments as command arguments: send <code filename> [<argument> <argument> ...]".

Definition wrapf {A} (prefix : string) (r : reply A) : result A :=
  match r with
  | inr err => Err (WrapError (prefix +:+ Error err) err)
  | inl a => Ok a
  end.

Definition send (args : list string) (sendFlags : flagsSend) (buildFlags : flagsBuild)
           (network : string) (state : State) : M TransactionResult :=
  codeFilename ← lift (index args 0);
  '(proposer, payer, authorizers) ← resolveRoles sendFlags buildFlags state;
  _ ← emit (ReadFile codeFilename);
  code ← lift (wrapf "error loading transaction file: " (readFile codeFilename));
  _ ← (if negb (length (Arg sendFlags) =? 0)%nat then emit (Println deprecationWarning)
       else mret tt);
  transactionArgs ←
    lift (wrapf "error parsing transaction arguments: "
            (if negb (String.eqb (ArgsJSON sendFlags) "")
             then ParseArgumentsJSON (ArgsJSON sendFlags)
             else ParseArgumentsWithoutType codeFilename code (tail args)));
  _ ← emit (NewRoles proposer payer authorizers);
  roles ← lift (wrapf "error parsing transaction roles: "
                  (NewTransactionAccountRoles proposer payer authorizers));
  _ ← emit (TransactionsSend roles code codeFilename DefaultTransactionGasLimit network);
  '(tx, result) ←
    lift (call (Transactions_Send roles
                  {| Code := code; Filename := codeFilename; Args := transactionArgs |}
                  DefaultTransactionGasLimit network));
  mret {| TR_result := result; TR_tx := tx;
          TR_include := Include sendFlags; TR_exclude := Exclude sendFlags |}.

End Command.

Arguments M Roles A : clear implicits.
Arguments TransactionResult Tx TxResult : clear implicits.

End Send.

(* ------------------------------------------------------------------ *)
(** ** Properties the gateways are held to, and sample networks *)
(* ------------------------------------------------------------------ *)
Module Props.
Import Go Flow.

(** A poll that asks for another one: an answer without error whose status
    is not sealed. *)
Definition unsealed (r : reply TransactionResult) : bool :=
  match r with
  | inl res => negb (TransactionStatus_eqb (Status res) TransactionStatusSealed)
  | inr _ => false
  end.

(** The answer to the [k]-th result query of a call (counting from 0). *)
Definition answer (Transaction_ID : Transaction -> Identifier) (g : Grpc.GrpcGateway)
           (tx : Transaction) (k : nat) : reply TransactionResult :=
  Grpc.client_GetTransactionResult (Grpc.client g) (Grpc.ctx g) k (Transaction_ID tx).

(** The address whose account [PrepareTransactionPayload] fetches: the
    proposer's when one is set, the signer's otherwise. *)
Definition proposalAddress (tx : Project.Transaction) (s : Project.Account) : Address :=
  match Project.Proposer tx with
  | Some p => Project.address p
  | None => Project.address s
  end.

(** An error that reports a cancelled call: gRPC's [Canceled] status or
    [context.Canceled], possibly wrapped. *)
Fixpoint cancellation (e : error) : bool :=
  match e with
  | StatusError Canceled _ => true
  | StatusError _ _ => false
  | ErrorString m => String.eqb m "context canceled"
  | WrapError _ cause => cancellation cause
  end.

(** A call that honours a cancellation signalled after [n] polls: it has
    returned a cancellation error and sent no poll beyond the [n]-th. *)
Definition stops_when_cancelled (n : nat)
           (out : option (result TransactionResult * Grpc.World)) : Prop :=
  exists e w, out = Some (Err e, w) /\ cancellation e = true /\ Grpc.polls w <= n.

Definition world0 : Grpc.World := {| Grpc.polls := 0; Grpc.slept := 0 |}.





(** The heights [start], [start+1], ... ([n] of them). *)
Definition heights (start : Z) (n : nat) : list Z :=
  map (fun i => (start + Z.of_nat i)%Z) (seq 0 n).

Section Events.
Context {Emulator : Type}.
Variable ops : Emu.BackendOps Emulator.
Variable FlowEventsToSDK : list Emu.GoEvent -> reply (list Event).

(** The event batches the backend reports for a block; none when the
    query fails. *)
Definition reported (e : Emulator) (eventType : string) (block : Emu.GoBlock)
  : list Emu.GoBlockEvents :=
  match Emu.be_GetEventsForBlockIDs ops e eventType [Emu.GoID block] with
  | inl events => events
  | inr _ => []
  end.

Definition noBatchFor (id : Identifier) (batches : list Emu.GoBlockEvents) : bool :=
  forallb (fun b => negb (N.eqb (Emu.GoBlockID b) id)) batches.

(** [be] is the entry for height [h]: the identifier, height and timestamp
    of the block the backend holds at [h]; an empty, non-nil event list
    when no batch is reported under the block's identifier, and otherwise
    the converted events of the first batch reported under it. *)
Definition entry_for (e : Emulator) (eventType : string) (h : Z) (be : BlockEvents)
  : Prop :=
  exists block,
    Emu.be_GetBlockByHeight ops e h = inl block
    /\ BlockID be = Emu.GoID block
    /\ BEHeight be = Emu.GoHeight block
    /\ BlockTimestamp be = Emu.GoTimestamp block
    /\ (noBatchFor (Emu.GoID block) (reported e eventType block) = true ->
        Events be = Some [])
    /\ (forall pre b post,
           reported e eventType block = pre ++ b :: post ->
           noBatchFor (Emu.GoID block) pre = true ->
           Emu.GoBlockID b = Emu.GoID block ->
           Events be = match FlowEventsToSDK (Emu.GoEvents b) with
                       | inl evs => Some evs
                       | inr _ => None
                       end).
End Events.

(** The flags with another payer name. *)
Definition withPayer (payer : string) (f : Send.flagsSend) : Send.flagsSend :=
  {| Send.ArgsJSON := Send.ArgsJSON f; Send.Arg := Send.Arg f;
     Send.Signer := Send.Signer f; Send.Proposer := Send.Proposer f;
     Send.Payer := payer; Send.Autorizer := Send.Autorizer f;
     Send.Include := Send.Include f; Send.Exclude := Send.Exclude f |}.

Section Roles.
Context {State : Type}.
Variable ByName : State -> string -> option Send.Account.

Definition resolvable (state : State) (name : string) : bool :=
  match ByName state name with Some _ => true | None => false end.

(** Every role name the command looks up before it reads the signer
    resolves: the proposer's and the payer's unless empty, and each
    authorizer's. *)
Definition namesResolve (sendFlags : Send.flagsSend) (buildFlags : Send.flagsBuild)
           (state : State) : bool :=
  (String.eqb (Send.Proposer sendFlags) "" || resolvable state (Send.Proposer sendFlags))
  && (String.eqb (Send.build_Payer buildFlags) ""
      || resolvable state (Send.build_Payer buildFlags))
  && forallb (resolvable state) (Send.Autorizer sendFlags).

(** [e] is the not-found error of one of those names, one that does not
    resolve, and it names the role and the name. *)
Definition namesUnresolved (sendFlags : Send.flagsSend) (buildFlags : Send.flagsBuild)
           (state : State) (e : error) : Prop :=
  exists role name,
    e = Send.notFound role name
    /\ ByName state name = None
    /\ ((role = "proposer" /\ name = Send.Proposer sendFlags)
        \/ (role = "payer" /\ name = Send.build_Payer buildFlags)
        \/ (role = "authorizer" /\ In name (Send.Autorizer sendFlags))).
End Roles.

End Props.

(** Concrete networks, accounts and transactions. *)
Module Sample.
Import Go Flow.

Definition res (s : TransactionStatus) : TransactionResult :=
  {| Status := s; ResultError := None; ResultEvents := [] |}.

Definition key (i seq : Z) : AccountKey := {| KeyIndex := i; SequenceNumber := seq |}.

(** Account 1 holds three keys, account 2 one. *)
Definition account1 : Account :=
  {| AccAddress := 1; Keys := [key 0 40; key 1 41; key 2 42] |}.
Definition account2 : Account :=
  {| AccAddress := 2; Keys := [key 0 7] |}.

Definition sealedHeader : BlockHeader :=
  {| ID := 777; ParentID := 776; Height := 12; Timestamp := 1000 |}.

Definition noBlock {A} : reply A := inr (StatusError NotFound "not found").

(** A network on which a transaction is pending for two polls and sealed at
    the third. *)
Definition sealsAtThird : Grpc.Client :=
  {| Grpc.GetAccountAtLatestBlock := fun _ a =>
       if N.eqb a 1 then inl account1
       else if N.eqb a 2 then inl account2
       else inr (StatusError NotFound "account not found");
     Grpc.GetLatestBlockHeader := fun _ _ => inl sealedHeader;
     Grpc.client_SendTransaction := fun _ _ => None;
     Grpc.client_GetTransaction := fun _ _ => inr (StatusError NotFound "unknown transaction");
     Grpc.client_GetTransactionResult := fun _ k _ =>
       if (k <? 2)%nat then inl (res TransactionStatusPending)
       else inl (res TransactionStatusSealed);
     Grpc.ExecuteScriptAtLatestBlock := fun _ _ _ => inl "null";
     Grpc.client_GetLatestBlock := fun _ _ => noBlock;
     Grpc.client_GetBlockByID := fun _ _ => noBlock;
     Grpc.client_GetBlockByHeight := fun _ _ => noBlock;
     Grpc.GetEventsForHeightRange := fun _ _ => inl [];
     Grpc.client_GetCollection := fun _ _ => inl [] |}.

(** A network on which the transaction never leaves the pending status. *)
Definition neverSeals : Grpc.Client :=
  {| Grpc.GetAccountAtLatestBlock := Grpc.GetAccountAtLatestBlock sealsAtThird;
     Grpc.GetLatestBlockHeader := Grpc.GetLatestBlockHeader sealsAtThird;
     Grpc.client_SendTransaction := Grpc.client_SendTransaction sealsAtThird;
     Grpc.client_GetTransaction := Grpc.client_GetTransaction sealsAtThird;
     Grpc.client_GetTransactionResult := fun _ _ _ => inl (res TransactionStatusPending);
     Grpc.ExecuteScriptAtLatestBlock := Grpc.ExecuteScriptAtLatestBlock sealsAtThird;
     Grpc.client_GetLatestBlock := Grpc.client_GetLatestBlock sealsAtThird;
     Grpc.client_GetBlockByID := Grpc.client_GetBlockByID sealsAtThird;
     Grpc.client_GetBlockByHeight := Grpc.client_GetBlockByHeight sealsAtThird;
     Grpc.GetEventsForHeightRange := Grpc.GetEventsForHeightRange sealsAtThird;
     Grpc.client_GetCollection := Grpc.client_GetCollection sealsAtThird |}.

Definition gateway : Grpc.GrpcGateway := Grpc.NewGrpcGateway sealsAtThird.

Definition alice : Project.Account :=
  {| Project.name := "alice"; Project.address := 1;
     Project.DefaultKey := {| Project.Index := 0 |} |}.
Definition bob : Project.Account :=
  {| Project.name := "bob"; Project.address := 2;
     Project.DefaultKey := {| Project.Index := 0 |} |}.
(** carol signs with the key at index 2 of her own account. *)
Definition carol : Project.Account :=
  {| Project.name := "carol"; Project.address := 1;
     Project.DefaultKey := {| Project.Index := 2 |} |}.

Definition staged (gas : Z) : Transaction :=
  {| Script := "transaction {}"; ReferenceBlockID := 0; GasLimit := gas;
     TxProposalKey := {| PKAddress := 0; PKKeyIndex := 0; PKSequenceNumber := 0 |};
     TxPayer := 1; Authorizers := [1%N] |}.

Definition txOf (s : Project.Account) (p : option Project.Account) (gas : Z)
  : Project.Transaction :=
  {| Project.signer := Some s; Project.proposer := p; Project.tx := staged gas |}.

(** [tx.ID()] stands for a hash; any function will do here. *)
Definition txID (t : Transaction) : Identifier := ReferenceBlockID t.

(** A configuration with alice and bob, and collaborators that accept
    everything. *)
Definition config : list Project.Account := [alice; bob].

Definition Roles : Type := option Project.Account * option Project.Account * list Project.Account.

Definition flags (signer proposer payer : string) (authorizers : list string)
  : Send.flagsSend :=
  {| Send.ArgsJSON := ""; Send.Arg := []; Send.Signer := signer;
     Send.Proposer := proposer; Send.Payer := payer; Send.Autorizer := authorizers;
     Send.Include := []; Send.Exclude := [] |}.

Definition buildPayer (payer : string) : Send.flagsBuild := {| Send.build_Payer := payer |}.

Definition resolveRoles (sendFlags : Send.flagsSend) (buildFlags : Send.flagsBuild)
  : result Roles * list (Send.effect Roles) :=
  Send.resolveRoles Send.Accounts_ByName sendFlags buildFlags config [].

Definition send (args : list string) (sendFlags : Send.flagsSend)
           (buildFlags : Send.flagsBuild)
  : result (Send.TransactionResult Transaction TransactionResult) * list (Send.effect Roles) :=
  Send.send Send.Accounts_ByName
    (fun _ => inl "transaction {}")
    (fun _ => inl ([] : list Value))
    (fun _ _ _ => inl [])
    (fun proposer payer authorizers => inl (proposer, payer, authorizers))
    (fun _ _ _ _ => inl (staged 1000, res TransactionStatusSealed))
    1000 args sendFlags buildFlags "emulator" config [].

(** An emulator engine: its blocks, the event batches it reports and the
    transactions it still holds as pending. *)
Record Chain := {
  blocks : list Emu.GoBlock;
  batches : list Emu.GoBlockEvents;
  pending : list Identifier;
}.

Definition blockAt (h : Z) : Emu.GoBlock :=
  {| Emu.GoID := Z.to_N (100 + h); Emu.GoParentID := Z.to_N (99 + h);
     Emu.GoHeight := h; Emu.GoTimestamp := 1000 + h |}.

Definition unimplemented {A} : reply A := inr (StatusError Internal "unimplemented").

Definition chainOps : Emu.BackendOps Chain :=
  {| Emu.be_GetAccount := fun _ a =>
       if N.eqb a 1 then inl account1
       else inr (StatusError NotFound "account not found");
     Emu.be_SendTransaction := fun _ _ => None;
     Emu.be_GetTransactionResult := fun c id =>
       if existsb (N.eqb id) (pending c) then inl (res TransactionStatusPending)
       else inr (StatusError NotFound "unknown transaction");
     Emu.be_GetTransaction := fun _ _ => inr (StatusError NotFound "unknown transaction");
     Emu.be_Ping := fun _ => None;
     Emu.be_ExecuteScriptAtLatestBlock := fun _ _ _ => inl "null";
     Emu.be_GetLatestBlock := fun c _ =>
       match last (blocks c) with Some b => inl b | None => unimplemented end;
     Emu.be_GetBlockByID := fun c id =>
       match find (fun b => N.eqb (Emu.GoID b) id) (blocks c) with
       | Some b => inl b
       | None => inr (StatusError NotFound "block not found")
       end;
     Emu.be_GetBlockByHeight := fun c h =>
       match find (fun b => Z.eqb (Emu.GoHeight b) h) (blocks c) with
       | Some b => inl b
       | None => inr (StatusError NotFound "block not found")
       end;
     Emu.be_GetEventsForBlockIDs := fun c eventType ids =>
       inl (filter (fun e => existsb (N.eqb (Emu.GoBlockID e)) ids) (batches c));
     Emu.be_GetCollectionByID := fun _ _ => unimplemented;
     Emu.be_GetLatestProtocolStateSnapshot := fun _ => unimplemented |}.

(** Blocks at heights 0 to 3; one event at height 2; transaction 55 pending. *)
Definition chain : Chain :=
  {| blocks := [blockAt 0; blockAt 1; blockAt 2; blockAt 3];
     batches := [ {| Emu.GoBlockID := 102; Emu.GoBlockHeight := 2;
                     Emu.GoEvents := [ {| Emu.GoEventType := "A.Deposit";
                                          Emu.GoEventPayload := "5" |} ] |} ];
     pending := [55%N] |}.

(** The same chain one block earlier. *)
Definition earlier : Chain :=
  {| blocks := [blockAt 0; blockAt 1; blockAt 2]; batches := batches chain; pending := [] |}.

Definition toSDK (evs : list Emu.GoEvent) : reply (list Event) :=
  inl (map (fun e => {| EventType := Emu.GoEventType e;
                       EventPayload := Emu.GoEventPayload e |}) evs).

(** No [%] in the messages at hand: formatting leaves them as they are. *)
Definition plain (format : string) : string := format.

Definition embedded : Emu.EmulatorGateway Chain := Emu.NewEmulatorGateway chain.

(** An engine with a block at every height. *)
Definition endlessOps : Emu.BackendOps unit :=
  {| Emu.be_GetAccount := fun _ _ => unimplemented;
     Emu.be_SendTransaction := fun _ _ => None;
     Emu.be_GetTransactionResult := fun _ _ => unimplemented;
     Emu.be_GetTransaction := fun _ _ => unimplemented;
     Emu.be_Ping := fun _ => None;
     Emu.be_ExecuteScriptAtLatestBlock := fun _ _ _ => unimplemented;
     Emu.be_GetLatestBlock := fun _ _ => unimplemented;
     Emu.be_GetBlockByID := fun _ _ => unimplemented;
     Emu.be_GetBlockByHeight := fun _ h => inl (blockAt h);
     Emu.be_GetEventsForBlockIDs := fun _ _ _ => inl [];
     Emu.be_GetCollectionByID := fun _ _ => unimplemented;
     Emu.be_GetLatestProtocolStateSnapshot := fun _ => unimplemented |}.

End Sample.

(* ------------------------------------------------------------------ *)
(** ** The project state ([State], package [flowkit]) *)
(* ------------------------------------------------------------------ *)
Module State.
Import Go.

Abbreviation Account := Project.Account.

(** The configuration entries the state reads (package [config]). *)
Record ContractDeployment := {
  CD_Name : string;
  CD_Args : list Flow.Value;
}.

Record Deploy := {
  D_Network : string;
  D_Account : string;
  D_Contracts : list ContractDeployment;
}.

Record ConfigContract := {
  CC_Name : string;
  CC_Source : string;
  CC_Network : string;
  CC_Alias : string;
}.

(** [Contract]: a Cadence contract definition for a project. *)
Record Contract := {
  Name : string;
  Source : string;
  Target : Flow.Address;
  Args : list Flow.Value;
}.

(** [funk.Uniq]: the elements in the order of their first occurrence. *)
Fixpoint Uniq (l : list string) : list string :=
  match l with
  | [] => []
  | x :: rest => x :: List.filter (fun y => negb (String.eqb y x)) (Uniq rest)
  end.

Section Project.
(** The configuration and what package [config] answers about it;
    [path.Clean]; [util.ContainsString]. *)
Context {Config : Type}.
Variable Deployments_GetByNetwork : Config -> string -> list Deploy.
Variable Deployments_GetByAccountAndNetwork : Config -> string -> string -> list Deploy.
Variable Contracts_GetByNameAndNetwork : Config -> string -> string -> option ConfigContract.
Variable Contracts_GetByNetwork : Config -> string -> list ConfigContract.
Variable IsAlias : ConfigContract -> bool.
Variable path_Clean : string -> string.
Variable ContainsString : list string -> string -> bool.

(** [State], without the loader. *)
Record State := {
  conf : Config;
  accounts : list Account;
}.

Definition with_accounts (l : list Account) (p : State) : State :=
  {| conf := conf p; accounts := l |}.

(** [AccountByName]: the loop runs to the end, a later match replaces an
    earlier one. *)
Fixpoint AccountByName_loop (name : string) (rest : list Account) (account : option Account)
  : option Account :=
  match rest with
  | [] => account
  | acc :: rest' =>
      if String.eqb (Project.name acc) name
      then AccountByName_loop name rest' (Some acc)
      else AccountByName_loop name rest' account
  end.

Definition AccountByName (p : State) (name : string) : option Account :=
  AccountByName_loop name (accounts p) None.

(** [AccountByAddress]: the first account whose printed address is the
    printed form of the address [flow.HexToAddress] reads. *)
Variable HexToAddress : string -> Flow.Address.

Fixpoint AccountByAddress_loop (address : string) (rest : list Account) : option Account :=
  match rest with
  | [] => None
  | account :: rest' =>
      if String.eqb (Flow.Address_String (Project.address account))
                    (Flow.Address_String (HexToAddress address))
      then Some account
      else AccountByAddress_loop address rest'
  end.

Definition AccountByAddress (p : State) (address : string) : option Account :=
  AccountByAddress_loop address (accounts p).

(** [AddOrUpdateAccount]: the loop at index [i], [rest] being the accounts
    from [i] on; [Some] is the early return after [p.accounts[i] = account]. *)
Fixpoint AddOrUpdateAccount_loop (account : Account) (all : list Account)
         (i : nat) (rest : list Account) : option (list Account) :=
  match rest with
  | [] => None
  | existingAccount :: rest' =>
      if String.eqb (Project.name existingAccount) (Project.name account)
      then Some (<[i := account]> all)
      else AddOrUpdateAccount_loop account all (S i) rest'
  end.

Definition AddOrUpdateAccount (account : Account) (p : State) : State :=
  match AddOrUpdateAccount_loop account (accounts p) 0 (accounts p) with
  | Some updated => with_accounts updated p
  | None => with_accounts (accounts p ++ [account]) p
  end.

(** The loop of [RemoveAccount].  [range] fixes the number of rounds and
    reads the element of round [i] from the backing array when the round
    starts; [append(p.accounts[0:i], p.accounts[i+1:]...)] writes into that
    same array.  So the loop runs over the array [array] of the original
    length, while [len] is the current length of [p.accounts], a prefix of
    it.  Slicing [p.accounts[i+1:]] beyond [len] panics. *)
Fixpoint RemoveAccount_loop (name : string) (rounds i : nat)
         (array : list Account) (len : nat) : result (list Account * nat) :=
  match rounds with
  | O => Ok (array, len)
  | S rounds' =>
      match array !! i with
      | None => Panic
      | Some account =>
          if String.eqb (Project.name account) name then
            if (i + 1 <=? len)%nat then
              RemoveAccount_loop name rounds' (S i)
                (take i array ++ drop (i + 1) (take len array) ++ drop (len - 1) array)
                (len - 1)
            else Panic
          else RemoveAccount_loop name rounds' (S i) array len
      end
  end.

(** [RemoveAccount]: [Err] is the error returned, the state untouched. *)
Definition RemoveAccount (name : string) (p : State) : result State :=
  match AccountByName p name with
  | None =>
      Err (ErrorString ("account named " +:+ name +:+ " does not exist in configuration"))
  | Some _ =>
      '(array, len) ← RemoveAccount_loop name (length (accounts p)) 0
                         (accounts p) (length (accounts p));
      Ok (with_accounts (take len array) p)
  end.

(** [DeploymentContractsByNetwork]: the loop over the contracts of one
    deployment. *)
Fixpoint deploymentContracts (p : State) (network : string) (account : Account)
         (rest : list ContractDeployment) (contracts : list Contract)
  : result (list Contract) :=
  match rest with
  | [] => Ok contracts
  | deploymentContract :: rest' =>
      match Contracts_GetByNameAndNetwork (conf p) (CD_Name deploymentContract) network with
      | None =>
          Err (ErrorString ("could not find contract with name name "
                              +:+ CD_Name deploymentContract +:+ " in the configuration"))
      | Some c =>
          deploymentContracts p network account rest'
            (contracts ++ [ {| Name := CC_Name c;
                               Source := path_Clean (CC_Source c);
                               Target := Project.address account;
                               Args := CD_Args deploymentContract |} ])
      end
  end.

(** The loop over the deployments. *)
Fixpoint deployments (p : State) (network : string) (rest : list Deploy)
         (contracts : list Contract) : result (list Contract) :=
  match rest with
  | [] => Ok contracts
  | deploy :: rest' =>
      match AccountByName p (D_Account deploy) with
      | None =>
          Err (ErrorString ("could not find account with name "
                              +:+ D_Account deploy +:+ " in the configuration"))
      | Some account =>
          contracts' ← deploymentContracts p network account (D_Contracts deploy) contracts;
          deployments p network rest' contracts'
      end
  end.

Definition DeploymentContractsByNetwork (p : State) (network : string)
  : result (list Contract) :=
  deployments p network (Deployments_GetByNetwork (conf p) network) [].

Definition ContractConflictExists (p : State) (network : string) : bool :=
  match DeploymentContractsByNetwork p network with
  | Ok contracts =>
      let uniq := Uniq (map Name contracts) in
      let all := map Name contracts in
      negb (length all =? length uniq)%nat
  | _ => false
  end.

(** [AccountNamesForNetwork]: the loop over the accounts. *)
Fixpoint AccountNamesForNetwork_loop (p : State) (network : string)
         (rest : list Account) (names : list string) : list string :=
  match rest with
  | [] => names
  | account :: rest' =>
      if (0 <? length (Deployments_GetByAccountAndNetwork (conf p)
                         (Project.name account) network))%nat
      then if negb (ContainsString names (Project.name account))
           then AccountNamesForNetwork_loop p network rest' (names ++ [Project.name account])
           else AccountNamesForNetwork_loop p network rest' names
      else AccountNamesForNetwork_loop p network rest' names
  end.

Definition AccountNamesForNetwork (p : State) (network : string) : list string :=
  AccountNamesForNetwork_loop p network (accounts p) [].

(** [AliasesForNetwork]: the loop over the contracts of the network. *)
Fixpoint AliasesForNetwork_loop (rest : list ConfigContract) (aliases : gmap string string)
  : gmap string string :=
  match rest with
  | [] => aliases
  | contract :: rest' =>
      if IsAlias contract
      then AliasesForNetwork_loop rest'
             (<[path_Clean (CC_Source contract) := CC_Alias contract]> aliases)
      else AliasesForNetwork_loop rest' aliases
  end.

Definition AliasesForNetwork (p : State) (network : string) : gmap string string :=
  AliasesForNetwork_loop (Contracts_GetByNetwork (conf p) network) ∅.

End Project.

Arguments State Config : clear implicits.

End State.

(** What the project state is held to. *)
Module StateProps.

Section Deployments.
Context {Config : Type}.
Variable Contracts_GetByNameAndNetwork : Config -> string -> string -> option State.ConfigContract.
Variable path_Clean : string -> string.

(** The contract built for a deployment contract of an account. *)
Definition contractFor (account : State.Account) (dc : State.ContractDeployment)
           (c : State.ConfigContract) : State.Contract :=
  {| State.Name := State.CC_Name c;
     State.Source := path_Clean (State.CC_Source c);
     State.Target := Project.address account;
     State.Args := State.CD_Args dc |}.

(** The deployment contracts of the deployments, each with its deployment,
    in order. *)
Definition pairs (deploys : list State.Deploy)
  : list (State.Deploy * State.ContractDeployment) :=
  flat_map (fun d => map (pair d) (State.D_Contracts d)) deploys.

(** [k] is the contract of the deployment contract [dc] of deployment [d]:
    named and sourced by the configured contract of that name, targeted at
    the address of the deployment's account. *)
Definition deployedAs (p : State.State Config) (network : string)
           (d_dc : State.Deploy * State.ContractDeployment) (k : State.Contract) : Prop :=
  exists account c,
    State.AccountByName p (State.D_Account (fst d_dc)) = Some account
    /\ Contracts_GetByNameAndNetwork (State.conf p) (State.CD_Name (snd d_dc)) network
       = Some c
    /\ k = contractFor account (snd d_dc) c.

(** Every deployment names an account of the state and every deployment
    contract a configured contract. *)
Definition allFound (p : State.State Config) (network : string)
           (deploys : list State.Deploy) : Prop :=
  Forall (fun d =>
            State.AccountByName p (State.D_Account d) <> None
            /\ Forall (fun dc =>
                         Contracts_GetByNameAndNetwork (State.conf p) (State.CD_Name dc) network
                         <> None)
                      (State.D_Contracts d))
         deploys.
End Deployments.

End StateProps.

(** A project with alice and bob, and one with a second account named bob. *)
Module SampleState.

Definition bob2 : Project.Account :=
  {| Project.name := "bob"; Project.address := 9%N;
     Project.DefaultKey := {| Project.Index := 1 |} |}.

Definition project : State.State unit :=
  {| State.conf := tt; State.accounts := [Sample.alice; Sample.bob] |}.

Definition twoBobs : State.State unit :=
  {| State.conf := tt; State.accounts := [Sample.alice; Sample.bob; bob2] |}.


(** A configuration: its deployments and its contracts. *)
Definition Config : Type := list State.Deploy * list State.ConfigContract.

Definition GetByNetwork (c : Config) (network : string) : list State.Deploy :=
  List.filter (fun d => String.eqb (State.D_Network d) network) (fst c).

Definition GetByAccountAndNetwork (c : Config) (account network : string)
  : list State.Deploy :=
  List.filter (fun d => String.eqb (State.D_Account d) account
                        && String.eqb (State.D_Network d) network) (fst c).

Definition GetByNameAndNetwork (c : Config) (name network : string)
  : option State.ConfigContract :=
  find (fun k => String.eqb (State.CC_Name k) name
                 && String.eqb (State.CC_Network k) network) (snd c).

Definition ContractsByNetwork (c : Config) (network : string) : list State.ConfigContract :=
  List.filter (fun k => String.eqb (State.CC_Network k) network) (snd c).

Definition IsAlias (k : State.ConfigContract) : bool :=
  negb (String.eqb (State.CC_Alias k) "").

Definition ContainsString (l : list string) (s : string) : bool :=
  existsb (String.eqb s) l.

(** Paths that are clean already. *)
Definition Clean (path : string) : string := path.

Definition deploy (network account : string) (names : list string) : State.Deploy :=
  {| State.D_Network := network; State.D_Account := account;
     State.D_Contracts := map (fun n => {| State.CD_Name := n; State.CD_Args := [] |}) names |}.

Definition contract (name source network alias : string) : State.ConfigContract :=
  {| State.CC_Name := name; State.CC_Source := source;
     State.CC_Network := network; State.CC_Alias := alias |}.

(** On the emulator alice deploys Kitty and bob deploys Token and Kitty; on
    testnet Token is an alias. *)
Definition configured : State.State Config :=
  {| State.conf :=
       ([ deploy "emulator" "alice" ["Kitty"];
          deploy "emulator" "bob" ["Token"; "Kitty"];
          deploy "testnet" "alice" ["Kitty"] ],
        [ contract "Kitty" "cadence/Kitty.cdc" "emulator" "";
          contract "Token" "cadence/Token.cdc" "emulator" "";
          contract "Kitty" "cadence/Kitty.cdc" "testnet" "";
          contract "Token" "cadence/Token.cdc" "testnet" "0x01" ]);
     State.accounts := [Sample.alice; Sample.bob] |}.

End SampleState.

(* ------------------------------------------------------------------ *)
(** ** Sequences of snapshot calls on the emulator gateway *)
(* ------------------------------------------------------------------ *)
Module Snapshots.
Import Go.

Inductive call : Type :=
| Create (name : string)
| Load (name : string).

Section Calls.
Context {Emulator : Type}.

(** One call; the error of a failed [LoadSnapshot] is dropped here. *)
Definition step (g : Emu.EmulatorGateway Emulator) (c : call) : Emu.EmulatorGateway Emulator :=
  match c with
  | Create name => Emu.CreateSnapshot name g
  | Load name => fst (Emu.LoadSnapshot name g)
  end.

Definition run (calls : list call) (g : Emu.EmulatorGateway Emulator)
  : Emu.EmulatorGateway Emulator :=
  fold_left step calls g.
End Calls.

End Snapshots.

(* ------------------------------------------------------------------ *)
(** ** The [send] command before roles ([transactions send <filename>]) *)
(* ------------------------------------------------------------------ *)
Module SendV1.
Import Go.

Record flagsSend := {
  ArgsJSON : string;
  Arg : list string;
  Signer : string;
  Code : string;
  Results : bool;
  Args : string;
  Payload : string;
}.

(** [sendFlags.ArgsJSON = sendFlags.Args]: the package variable is written. *)
Definition with_ArgsJSON (argsJSON : string) (f : flagsSend) : flagsSend :=
  {| ArgsJSON := argsJSON; Arg := Arg f; Signer := Signer f; Code := Code f;
     Results := Results f; Args := Args f; Payload := Payload f |}.

(** What the command does to the world outside, in order. *)
Inductive effect : Type :=
| Println (line : string)
| TransactionsSend (filename payload signer : string) (args : list string) (argsJSON : string).

Definition warnResults : string :=
  "⚠️  DEPRECATION WARNING: all transactions will provide results".
Definition warnArgs : string :=
  "⚠️  DEPRECATION WARNING: use arg flag in Type:Value format or arg-json for JSON format".
Definition warnCode : string :=
  "⚠️  DEPRECATION WARNING: use filename as a command argument <filename>".

Section Command.
Context {Tx TxResult : Type}.
(** [services.Transactions.Send]. *)
Variable Transactions_Send :
  string -> string -> string -> list string -> string -> reply (Tx * TxResult).

Record TransactionResult := {
  TR_result : TxResult;
  TR_tx : Tx;
}.

(** [Run] of [SendCommand]: the result, the flags it leaves in the package
    variable and the effects in order. *)
Definition Run (args : list string) (sendFlags : flagsSend)
  : result TransactionResult * flagsSend * list effect :=
  let log1 := if Results sendFlags then [Println warnResults] else [] in
  let '(sendFlags, log2) :=
    if negb (String.eqb (Args sendFlags) "") then
      (if (length (Arg sendFlags) =? 0)%nat && String.eqb (ArgsJSON sendFlags) ""
       then with_ArgsJSON (Args sendFlags) sendFlags   (* backward compatible *)
       else sendFlags,
       log1 ++ [Println warnArgs])
    else (sendFlags, log1) in
  let chosen : option (string * list effect) :=
    if (length args =? 1)%nat then
      match args with
      | filename :: _ => Some (filename, log2)
      | [] => None
      end
    else if negb (String.eqb (Code sendFlags) "") then
      Some (Code sendFlags, log2 ++ [Println warnCode])
    else None in
  match chosen with
  | None => (Err (ErrorString "provide a valide filename command argument"), sendFlags, log2)
  | Some (filename, log3) =>
      let log4 := log3 ++ [TransactionsSend filename (Payload sendFlags) (Signer sendFlags)
                             (Arg sendFlags) (ArgsJSON sendFlags)] in
      match Transactions_Send filename (Payload sendFlags) (Signer sendFlags)
              (Arg sendFlags) (ArgsJSON sendFlags) with
      | inr err => (Err err, sendFlags, log4)
      | inl (tx, result) => (Ok {| TR_result := result; TR_tx := tx |}, sendFlags, log4)
      end
  end.

End Command.

Arguments TransactionResult Tx TxResult : clear implicits.

(** The file name the command sends, if it sends one. *)
Definition sentFilename (log : list effect) : option string :=
  match List.filter (fun e => match e with TransactionsSend _ _ _ _ _ => true | _ => false end)
          log with
  | TransactionsSend filename _ _ _ _ :: _ => Some filename
  | _ => None
  end.

(** The JSON arguments it sends. *)
Definition sentArgsJSON (log : list effect) : option string :=
  match List.filter (fun e => match e with TransactionsSend _ _ _ _ _ => true | _ => false end)
          log with
  | TransactionsSend _ _ _ _ argsJSON :: _ => Some argsJSON
  | _ => None
  end.

End SendV1.

(* ------------------------------------------------------------------ *)
(** ** The construction of the emulator gateway *)
(* ------------------------------------------------------------------ *)
Module EmuNew.
Import Go.

Section Construction.
(** The emulator's options, loggers, contexts and the service account's
    key are opaque here; [==] on [config.KeyType] is decidable. *)
Context {Emulator Option Logger Ctx ServiceAccount KeyType PrivateKey PublicKey
         SigAlgo HashAlgo : Type}.
Context `{EqDecision KeyType}.
Variable KeyTypeHex : KeyType.
Variable Key_Type : ServiceAccount -> KeyType.
(** [Key().PrivateKey()]: the pointer, nil or not; its error is dropped. *)
Variable Key_PrivateKey : ServiceAccount -> option PrivateKey.
Variable PrivateKey_PublicKey : PrivateKey -> PublicKey.
Variable Key_SigAlgo : ServiceAccount -> SigAlgo.
Variable Key_HashAlgo : ServiceAccount -> HashAlgo.
Variable WithServicePublicKey : PublicKey -> SigAlgo -> HashAlgo -> Option.
Variable emulator_WithLogger : Logger -> Option.
Variable NewBlockchain : list Option -> reply Emulator.
Variable context_Background : Ctx.
Variable emptyLogger : Logger.                       (* &zerolog.Logger{} *)

(** [EmulatorGateway] with all its fields; [emulator] and [backend] are nil
    until the constructor has set them. *)
Record EmulatorGateway := {
  emulator : option Emulator;
  backend : option (Emu.Backend Emulator);
  ctx : Ctx;
  logger : Logger;
  emulatorOptions : list Option;
  snapshots : gmap string Emulator;
}.

Definition WithLogger (l : Logger) (g : EmulatorGateway) : EmulatorGateway :=
  {| emulator := emulator g; backend := backend g; ctx := ctx g; logger := l;
     emulatorOptions := emulatorOptions g; snapshots := snapshots g |}.

Definition WithEmulatorOptions (options : list Option) (g : EmulatorGateway)
  : EmulatorGateway :=
  {| emulator := emulator g; backend := backend g; ctx := ctx g; logger := logger g;
     emulatorOptions := emulatorOptions g ++ options; snapshots := snapshots g |}.

Definition WithEmulatorLogger (l : Logger) (g : EmulatorGateway) : EmulatorGateway :=
  {| emulator := emulator g; backend := backend g; ctx := ctx g; logger := logger g;
     emulatorOptions := emulatorOptions g ++ [emulator_WithLogger l];
     snapshots := snapshots g |}.

Definition WithContext (c : Ctx) (g : EmulatorGateway) : EmulatorGateway :=
  {| emulator := emulator g; backend := backend g; ctx := c; logger := logger g;
     emulatorOptions := emulatorOptions g; snapshots := snapshots g |}.

Definition SetContext (c : Ctx) (g : EmulatorGateway) : EmulatorGateway := WithContext c g.

(** [newEmulator]: the options are handed to the blockchain only behind the
    service key of a service account with a hex key. *)
Definition newEmulator (serviceAccount : option ServiceAccount)
           (emulatorOptions : list Option) : result Emulator :=
  opts ← match serviceAccount with
         | Some account =>
             if bool_decide (Key_Type account = KeyTypeHex) then
               match Key_PrivateKey account with
               | None => Panic                                   (* *privKey on nil *)
               | Some privKey =>
                   Ok ([WithServicePublicKey (PrivateKey_PublicKey privKey)
                          (Key_SigAlgo account) (Key_HashAlgo account)]
                         ++ emulatorOptions)
               end
             else Ok []
         | None => Ok []
         end;
  match NewBlockchain opts with
  | inr err => Panic                                             (* panic(err) *)
  | inl b => Ok b
  end.

Definition NewEmulatorGatewayWithOpts (serviceAccount : option ServiceAccount)
           (opts : list (EmulatorGateway -> EmulatorGateway)) : result EmulatorGateway :=
  let gateway :=
    {| emulator := None; backend := None; ctx := context_Background;
       logger := emptyLogger; emulatorOptions := []; snapshots := ∅ |} in
  let gateway := fold_left (fun g opt => opt g) opts gateway in
  b ← newEmulator serviceAccount (emulatorOptions gateway);
  Ok {| emulator := Some b;
        backend := Some (Emu.EnableAutoMine (Emu.backend_New b));
        ctx := ctx gateway; logger := logger gateway;
        emulatorOptions := emulatorOptions gateway; snapshots := snapshots gateway |}.

Definition NewEmulatorGateway (serviceAccount : option ServiceAccount)
  : result EmulatorGateway :=
  NewEmulatorGatewayWithOpts serviceAccount [].

(** The options this package offers. *)
Inductive offered : Type :=
| OWithLogger (l : Logger)
| OWithEmulatorOptions (options : list Option)
| OWithEmulatorLogger (l : Logger)
| OWithContext (c : Ctx).

Definition option_of (o : offered) : EmulatorGateway -> EmulatorGateway :=
  match o with
  | OWithLogger l => WithLogger l
  | OWithEmulatorOptions options => WithEmulatorOptions options
  | OWithEmulatorLogger l => WithEmulatorLogger l
  | OWithContext c => WithContext c
  end.

(** The emulator options an offered option adds. *)
Definition added (o : offered) : list Option :=
  match o with
  | OWithEmulatorOptions options => options
  | OWithEmulatorLogger l => [emulator_WithLogger l]
  | _ => []
  end.

(** The service account holds a hex key. *)
Definition hexKey (serviceAccount : option ServiceAccount) : bool :=
  match serviceAccount with
  | Some account => bool_decide (Key_Type account = KeyTypeHex)
  | None => false
  end.

End Construction.

Arguments EmulatorGateway Emulator Option Logger Ctx : clear implicits.
Arguments offered Option Logger Ctx : clear implicits.

End EmuNew.

(* ------------------------------------------------------------------ *)
(** ** Properties of the two [send] commands, and samples *)
(* ------------------------------------------------------------------ *)
Module SendProps.
Import Go.

(** The role variable [r] of a role whose flag holds [name]: nil for the
    empty name, and otherwise the account the configuration holds under
    that name. *)
Definition optionalRole {State} (ByName : State -> string -> option Send.Account)
           (state : State) (name : string) (r : option Send.Account) : Prop :=
  if String.eqb name "" then r = None
  else exists a, ByName state name = Some a /\ r = Some a.

(** The flags with other values of the deprecated [--arg] flag. *)
Definition withArg (values : list string) (f : Send.flagsSend) : Send.flagsSend :=
  {| Send.ArgsJSON := Send.ArgsJSON f; Send.Arg := values; Send.Signer := Send.Signer f;
     Send.Proposer := Send.Proposer f; Send.Payer := Send.Payer f;
     Send.Autorizer := Send.Autorizer f;
     Send.Include := Send.Include f; Send.Exclude := Send.Exclude f |}.

(** The JSON arguments the earlier command forwards: [--args-json] when it
    is set; failing that the deprecated [--args] when no [--arg] value is
    given, and nothing when one is. *)
Definition forwardedJSON (f : SendV1.flagsSend) : string :=
  if negb (String.eqb (SendV1.ArgsJSON f) "") then SendV1.ArgsJSON f
  else if (length (SendV1.Arg f) =? 0)%nat then SendV1.Args f
  else "".

(** A log of warnings: printed lines and nothing handed over. *)
Definition warnings (log : list SendV1.effect) : Prop :=
  Forall (fun e => match e with SendV1.Println _ => True | _ => False end) log.

End SendProps.

Module SampleEmuNew.
Import Go.

(** A blockchain that remembers the options it was built with, named by
    strings; a service account is its key type and, when it holds one, its
    private key. *)
Definition NewBlockchain (opts : list string) : reply (list string) := inl opts.

Definition serviceKey (publicKey sigAlgo hashAlgo : string) : string :=
  "service-key:" +:+ publicKey.

Definition gateway (serviceAccount : option (string * option string))
           (opts : list (EmuNew.offered string string string))
  : result (EmuNew.EmulatorGateway (list string) string string string) :=
  EmuNew.NewEmulatorGatewayWithOpts "hex" fst snd (fun k => "pub-" +:+ k)
    (fun _ => "ECDSA_P256") (fun _ => "SHA3_256") serviceKey
    NewBlockchain "background" "quiet"
    serviceAccount
    (map (EmuNew.option_of (fun l => "logger:" +:+ l)) opts).

Definition offeredOptions : list (EmuNew.offered string string string) :=
  [EmuNew.OWithEmulatorOptions ["storage-limit"]; EmuNew.OWithLogger "loud";
   EmuNew.OWithEmulatorLogger "loud"; EmuNew.OWithEmulatorOptions ["fees"; "simple-addresses"]].

End SampleEmuNew.

Module SampleGrpc.
Import Go Flow.

(** The sample network with the sealed header out of reach. *)
Definition noHeader : Grpc.Client :=
  {| Grpc.GetAccountAtLatestBlock := Grpc.GetAccountAtLatestBlock Sample.sealsAtThird;
     Grpc.GetLatestBlockHeader := fun _ _ => inr (StatusError Unavailable "no header");
     Grpc.client_SendTransaction := Grpc.client_SendTransaction Sample.sealsAtThird;
     Grpc.client_GetTransaction := Grpc.client_GetTransaction Sample.sealsAtThird;
     Grpc.client_GetTransactionResult := Grpc.client_GetTransactionResult Sample.sealsAtThird;
     Grpc.ExecuteScriptAtLatestBlock := Grpc.ExecuteScriptAtLatestBlock Sample.sealsAtThird;
     Grpc.client_GetLatestBlock := Grpc.client_GetLatestBlock Sample.sealsAtThird;
     Grpc.client_GetBlockByID := Grpc.client_GetBlockByID Sample.sealsAtThird;
     Grpc.client_GetBlockByHeight := Grpc.client_GetBlockByHeight Sample.sealsAtThird;
     Grpc.GetEventsForHeightRange := Grpc.GetEventsForHeightRange Sample.sealsAtThird;
     Grpc.client_GetCollection := Grpc.client_GetCollection Sample.sealsAtThird |}.

(** A signing step that stamps the payer 9 on the staged transaction. *)
Definition stamp (t : Project.Transaction) : reply Project.Transaction :=
  inl (Project.with_FlowTransaction
         {| Script := Script (Project.FlowTransaction t);
            ReferenceBlockID := ReferenceBlockID (Project.FlowTransaction t);
            GasLimit := GasLimit (Project.FlowTransaction t);
            TxProposalKey := TxProposalKey (Project.FlowTransaction t);
            TxPayer := 9;
            Authorizers := Authorizers (Project.FlowTransaction t) |} t).

End SampleGrpc.

(* ------------------------------------------------------------------ *)
(** ** The gRPC gateway *)
(* ------------------------------------------------------------------ *)
Module GrpcFacts.
Import Go Flow Props.

Lemma TransactionStatus_eqb_eq a b :
  TransactionStatus_eqb a b = true <-> a = b.
Proof. destruct a, b; simpl; split; intros H; congruence. Qed.

Section Polling.
Variable Transaction_ID : Transaction -> Identifier.
Variable g : Grpc.GrpcGateway.
Variable tx : Transaction.

#[local] Abbreviation answer k := (Props.answer Transaction_ID g tx k).

#[local] Abbreviation run fuel w := (Grpc.GetTransactionResult Transaction_ID fuel g tx true w).

(** One unsealed answer costs one poll and one second. *)
Lemma poll_again fuel w :
  unsealed (answer (Grpc.polls w)) = true ->
  run (S fuel) w = run fuel {| Grpc.polls := S (Grpc.polls w); Grpc.slept := S (Grpc.slept w) |}.
Proof.
  unfold unsealed, Props.answer. intros H. simpl.
  destruct (Grpc.client_GetTransactionResult _ _ _ _) as [r | e]; [| discriminate].
  rewrite H. reflexivity.
Qed.

(** Any other answer ends the call with that answer. *)
Lemma poll_last fuel w :
  unsealed (answer (Grpc.polls w)) = false ->
  run (S fuel) w
  = Some (call (answer (Grpc.polls w)),
          {| Grpc.polls := S (Grpc.polls w); Grpc.slept := Grpc.slept w |}).
Proof.
  unfold unsealed, Props.answer. intros H. simpl.
  destruct (Grpc.client_GetTransactionResult _ _ _ _) as [r | e]; [| reflexivity].
  rewrite H. reflexivity.
Qed.

Lemma poll_n n : forall fuel w,
  (forall k, k < n -> unsealed (answer (Grpc.polls w + k)) = true) ->
  run (n + fuel) w
  = run fuel {| Grpc.polls := Grpc.polls w + n; Grpc.slept := Grpc.slept w + n |}.
Proof.
  induction n as [|n IH]; intros fuel w H.
  - simpl. destruct w as [p s]. simpl. f_equal; f_equal; lia.
  - change (S n + fuel) with (S (n + fuel)).
    rewrite poll_again.
    + rewrite IH.
      * simpl. f_equal; f_equal; lia.
      * intros k Hk. simpl. replace (S (Grpc.polls w + k)) with (Grpc.polls w + S k) by lia.
        apply H. lia.
    + replace (Grpc.polls w) with (Grpc.polls w + 0) by lia. apply H. lia.
Qed.

Lemma run_first_stop n fuel :
  (forall k, k < n -> unsealed (answer k) = true) ->
  unsealed (answer n) = false ->
  n < fuel ->
  run fuel world0 = Some (call (answer n), {| Grpc.polls := S n; Grpc.slept := n |}).
Proof.
  intros Hbefore Hn Hfuel.
  replace fuel with (n + S (fuel - S n)) by lia.
  rewrite poll_n by (intros k Hk; simpl; apply Hbefore; exact Hk).
  simpl Grpc.polls. simpl Grpc.slept.
  rewrite poll_last by exact Hn. reflexivity.
Qed.

Lemma run_never_stops :
  (forall k, unsealed (answer k) = true) ->
  forall fuel w, run fuel w = None.
Proof.
  intros H fuel. induction fuel as [|fuel IH]; intros w.
  - reflexivity.
  - rewrite poll_again by apply H. apply IH.
Qed.

(** Whatever a waiting call returns without error is sealed, and it slept
    one second between any two consecutive polls. *)
Lemma run_Ok_sealed fuel : forall w r w',
  run fuel w = Some (Ok r, w') ->
  Status r = TransactionStatusSealed
  /\ Grpc.polls w' - Grpc.polls w = S (Grpc.slept w' - Grpc.slept w)
  /\ Grpc.slept w <= Grpc.slept w'.
Proof.
  induction fuel as [|fuel IH]; intros w r w' H.
  - discriminate.
  - destruct (unsealed (answer (Grpc.polls w))) eqn:E.
    + rewrite poll_again in H by exact E.
      apply IH in H. simpl in H. destruct H as (Hs & Hp & Hl).
      repeat split; [exact Hs | lia | lia].
    + rewrite poll_last in H by exact E.
      unfold unsealed in E.
      destruct (answer (Grpc.polls w)) as [res | e]; [| discriminate].
      injection H as -> <-. simpl.
      apply negb_false_iff, TransactionStatus_eqb_eq in E.
      split; [exact E | lia].
Qed.

End Polling.

(** C1, as the spec words it, fails: on a network that reports the
    transaction pending twice and sealed at the third poll, a caller who
    gives up after the first poll still gets the sealed result, after three
    polls and two seconds of sleep. *)
Lemma GetTransactionResult_ignores_cancellation :
  Grpc.GetTransactionResult Sample.txID 5 Sample.gateway (Sample.staged 1000) true world0
  = Some (Ok (Sample.res TransactionStatusSealed), {| Grpc.polls := 3; Grpc.slept := 2 |})
  /\ ~ stops_when_cancelled 1
        (Grpc.GetTransactionResult Sample.txID 5 Sample.gateway (Sample.staged 1000) true world0).
Proof.
  split; [reflexivity |].
  intros (e & w & H & _). vm_compute in H. discriminate H.
Qed.

(** C1 (amended): [GetTransactionResult] with [waitSeal] set takes no
    cancellation signal.  It polls, sleeping one second after every answer
    that is neither an error nor sealed, and returns the first answer that
    is an error or sealed, after exactly that many polls; an error is
    returned only when a poll itself failed.  When every answer is an
    unsealed status the call returns for no amount of fuel. *)
Theorem GetTransactionResult_waits_for_seal_or_error
    (Transaction_ID : Transaction -> Identifier) (g : Grpc.GrpcGateway) (tx : Transaction) :
  (forall n fuel,
      (forall k, k < n -> unsealed (answer Transaction_ID g tx k) = true) ->
      unsealed (answer Transaction_ID g tx n) = false ->
      n < fuel ->
      Grpc.GetTransactionResult Transaction_ID fuel g tx true world0
      = Some (call (answer Transaction_ID g tx n), {| Grpc.polls := S n; Grpc.slept := n |}))
  /\ ((forall k, unsealed (answer Transaction_ID g tx k) = true) ->
      forall fuel, Grpc.GetTransactionResult Transaction_ID fuel g tx true world0 = None).
Proof.
  split.
  - intros n fuel. apply run_first_stop.
  - intros H fuel. apply run_never_stops. exact H.
Qed.

Lemma GetTransactionResult_waits_for_seal_or_error_witness :
  Grpc.GetTransactionResult Sample.txID 3 Sample.gateway (Sample.staged 1000) true world0
  = Some (Ok (Sample.res TransactionStatusSealed), {| Grpc.polls := 3; Grpc.slept := 2 |})
  /\ (forall fuel,
        Grpc.GetTransactionResult Sample.txID fuel (Grpc.NewGrpcGateway Sample.neverSeals)
          (Sample.staged 1000) true world0 = None).
Proof.
  split.
  - apply (proj1 (GetTransactionResult_waits_for_seal_or_error
                    Sample.txID Sample.gateway (Sample.staged 1000)) 2 3).
    + intros k Hk. destruct k as [|[|k]]; [reflexivity | reflexivity | lia].
    + reflexivity.
    + lia.
  - apply (proj2 (GetTransactionResult_waits_for_seal_or_error
                    Sample.txID (Grpc.NewGrpcGateway Sample.neverSeals) (Sample.staged 1000))).
    intros k. reflexivity.
Defined.

Section Prepare.
Variable g : Grpc.GrpcGateway.
Variable tx : Project.Transaction.

#[local] Abbreviation proposalAddress s := (Props.proposalAddress tx s).

(** A successful preparation, taken apart. *)
Lemma Prepare_Ok_inv tx' :
  Grpc.PrepareTransactionPayload g tx = Ok tx' ->
  exists s proposer proposerKey sealed,
    Project.Signer tx = Some s
    /\ Grpc.GetAccount g (proposalAddress s) = Ok proposer
    /\ index (Keys proposer) (Project.Index (Project.DefaultKey s)) = Ok proposerKey
    /\ Grpc.GetLatestBlockHeader (Grpc.client g) (Grpc.ctx g) true = inl sealed
    /\ tx' = Project.with_FlowTransaction
               (SetProposalKey (proposalAddress s) (KeyIndex proposerKey)
                  (SequenceNumber proposerKey)
                  (SetGasLimit Grpc.defaultGasLimit
                     (SetReferenceBlockID (ID sealed) (Project.FlowTransaction tx))))
               tx.
Proof.
  unfold Grpc.PrepareTransactionPayload, Props.proposalAddress.
  destruct (Project.Signer tx) as [s|]; [| discriminate].
  destruct (Grpc.GetAccount g _) as [proposer | e |] eqn:Ea; simpl; try discriminate.
  destruct (index _ _) as [proposerKey | e |] eqn:Ek; simpl; try discriminate.
  destruct (Grpc.GetLatestBlockHeader _ _ _) as [sealed | e] eqn:Eh; try discriminate.
  intros H. injection H as <-.
  exists s, proposer, proposerKey, sealed. rewrite Ea. auto.
Qed.

Lemma index_in_range {A} (l : list A) (i : Z) :
  (0 <= i < Z.of_nat (length l))%Z ->
  exists a, l !! Z.to_nat i = Some a /\ index l i = Ok a.
Proof.
  intros Hi. unfold index.
  destruct (Z.ltb_spec i 0); [lia |].
  destruct (l !! Z.to_nat i) as [a|] eqn:E.
  - exists a. auto.
  - apply lookup_ge_None in E. lia.
Qed.

Lemma index_never_Err {A} (l : list A) (i : Z) e : index l i <> Err e.
Proof.
  unfold index. destruct (i <? 0)%Z; [discriminate |].
  destruct (l !! Z.to_nat i); discriminate.
Qed.

Lemma index_out_of_range {A} (l : list A) (i : Z) :
  ~ (0 <= i < Z.of_nat (length l))%Z -> index l i = Panic.
Proof.
  intros Hi. unfold index.
  destruct (Z.ltb_spec i 0); [reflexivity |].
  destruct (l !! Z.to_nat i) as [a|] eqn:E; [| reflexivity].
  apply lookup_lt_Some in E. lia.
Qed.

End Prepare.

(** C2, as the spec words it, fails on its gas-limit half: a staged
    transaction whose gas limit is already 9999 leaves the preparation with
    the default 1000. *)
Lemma PrepareTransactionPayload_overwrites_gas_limit :
  GasLimit (Project.FlowTransaction (Sample.txOf Sample.alice None 9999)) = 9999%Z
  /\ Grpc.PrepareTransactionPayload Sample.gateway (Sample.txOf Sample.alice None 9999)
     = Ok (Project.with_FlowTransaction
             {| Script := "transaction {}"; ReferenceBlockID := 777; GasLimit := 1000;
                TxProposalKey := {| PKAddress := 1; PKKeyIndex := 0; PKSequenceNumber := 40 |};
                TxPayer := 1; Authorizers := [1%N] |}
             (Sample.txOf Sample.alice None 9999))
  /\ (1000 <> 9999)%Z.
Proof. split; [reflexivity |]. split; [reflexivity | lia]. Qed.

(** C2 (amended): a preparation that succeeds has fetched the latest sealed
    block header, has set the staged transaction's reference block to that
    header's identifier, and has set its gas limit to the fixed default
    1000, whatever the gas limit was before. *)
Theorem PrepareTransactionPayload_reference_block_and_gas
    (g : Grpc.GrpcGateway) (tx tx' : Project.Transaction) :
  Grpc.PrepareTransactionPayload g tx = Ok tx' ->
  exists sealed,
    Grpc.GetLatestBlockHeader (Grpc.client g) (Grpc.ctx g) true = inl sealed
    /\ ReferenceBlockID (Project.FlowTransaction tx') = ID sealed
    /\ GasLimit (Project.FlowTransaction tx') = Grpc.defaultGasLimit
    /\ Grpc.defaultGasLimit = 1000%Z.
Proof.
  intros H. apply Prepare_Ok_inv in H.
  destruct H as (s & proposer & proposerKey & sealed & _ & _ & _ & Hh & ->).
  exists sealed. split; [exact Hh |]. split; [reflexivity |]. split; reflexivity.
Qed.

Lemma PrepareTransactionPayload_reference_block_and_gas_witness :
  exists sealed,
    Grpc.GetLatestBlockHeader (Grpc.client Sample.gateway) (Grpc.ctx Sample.gateway) true
    = inl sealed
    /\ ReferenceBlockID
         (Project.FlowTransaction
            (Project.with_FlowTransaction
               {| Script := "transaction {}"; ReferenceBlockID := 777; GasLimit := 1000;
                  TxProposalKey := {| PKAddress := 1; PKKeyIndex := 0; PKSequenceNumber := 40 |};
                  TxPayer := 1; Authorizers := [1%N] |}
               (Sample.txOf Sample.alice None 9999))) = ID sealed
    /\ GasLimit
         (Project.FlowTransaction
            (Project.with_FlowTransaction
               {| Script := "transaction {}"; ReferenceBlockID := 777; GasLimit := 1000;
                  TxProposalKey := {| PKAddress := 1; PKKeyIndex := 0; PKSequenceNumber := 40 |};
                  TxPayer := 1; Authorizers := [1%N] |}
               (Sample.txOf Sample.alice None 9999))) = Grpc.defaultGasLimit
    /\ Grpc.defaultGasLimit = 1000%Z.
Proof.
  apply (PrepareTransactionPayload_reference_block_and_gas
           Sample.gateway (Sample.txOf Sample.alice None 9999)).
  reflexivity.
Defined.

(** C10: the proposal key is read from the fetched proposer account at the
    signer's default key index.  With the signer present and the account
    fetched, the preparation panics exactly when that index is not a
    position of the account's key list; when it is one and the sealed
    header is fetched, the proposal key carries the fetched address and the
    index and sequence number of the key at that position. *)
Theorem PrepareTransactionPayload_proposal_key
    (g : Grpc.GrpcGateway) (tx : Project.Transaction)
    (s : Project.Account) (proposer : Account) :
  Project.Signer tx = Some s ->
  Grpc.GetAccount g (proposalAddress tx s) = Ok proposer ->
  let i := Project.Index (Project.DefaultKey s) in
  ((0 <= i < Z.of_nat (length (Keys proposer)))%Z ->
   forall sealed,
     Grpc.GetLatestBlockHeader (Grpc.client g) (Grpc.ctx g) true = inl sealed ->
     exists proposerKey tx',
       Keys proposer !! Z.to_nat i = Some proposerKey
       /\ Grpc.PrepareTransactionPayload g tx = Ok tx'
       /\ TxProposalKey (Project.FlowTransaction tx')
          = {| PKAddress := proposalAddress tx s;
               PKKeyIndex := KeyIndex proposerKey;
               PKSequenceNumber := SequenceNumber proposerKey |})
  /\ (~ (0 <= i < Z.of_nat (length (Keys proposer)))%Z ->
      Grpc.PrepareTransactionPayload g tx = Panic).
Proof.
  intros Hs Ha i. unfold Grpc.PrepareTransactionPayload.
  rewrite Hs. fold (proposalAddress tx s). rewrite Ha. simpl. fold i.
  split.
  - intros Hi sealed Hh.
    destruct (index_in_range (Keys proposer) i Hi) as (proposerKey & Hk & Hidx).
    rewrite Hidx, Hh. simpl.
    eexists proposerKey, _. split; [exact Hk |]. split; reflexivity.
  - intros Hi. rewrite (index_out_of_range _ _ Hi). reflexivity.
Qed.

(** alice signs with key 0 for proposer carol, whose own default key index
    is 2: the proposal key is carol's key 0.  carol signs with key 2 for
    proposer bob, whose account has one key: the preparation panics. *)
Lemma PrepareTransactionPayload_proposal_key_witness :
  (exists proposerKey tx',
      Keys Sample.account1 !! Z.to_nat 0 = Some proposerKey
      /\ Grpc.PrepareTransactionPayload Sample.gateway
           (Sample.txOf Sample.alice (Some Sample.carol) 0) = Ok tx'
      /\ TxProposalKey (Project.FlowTransaction tx')
         = {| PKAddress := 1; PKKeyIndex := KeyIndex proposerKey;
              PKSequenceNumber := SequenceNumber proposerKey |})
  /\ Grpc.PrepareTransactionPayload Sample.gateway
       (Sample.txOf Sample.carol (Some Sample.bob) 0) = Panic.
Proof.
  split.
  - refine (proj1 (PrepareTransactionPayload_proposal_key
                     Sample.gateway (Sample.txOf Sample.alice (Some Sample.carol) 0)
                     Sample.alice Sample.account1 eq_refl eq_refl)
                  _ Sample.sealedHeader eq_refl).
    simpl. lia.
  - apply (proj2 (PrepareTransactionPayload_proposal_key
                    Sample.gateway (Sample.txOf Sample.carol (Some Sample.bob) 0)
                    Sample.carol Sample.account2 eq_refl eq_refl)).
    simpl. lia.
Defined.

End GrpcFacts.

(* ------------------------------------------------------------------ *)
(** ** The emulator gateway *)
(* ------------------------------------------------------------------ *)
Module EmuFacts.
Import Go Flow Props.

(** C7: loading a name the snapshot store does not hold returns an error
    and the gateway, its backend's emulator included, is as before; loading
    a name the store holds returns no error and the backend drives the
    stored emulator from then on. *)
Theorem LoadSnapshot_absent_present
    {Emulator : Type} (g : Emu.EmulatorGateway Emulator) (name : string) :
  (Emu.snapshots g !! name = None ->
   Emu.LoadSnapshot name g
   = (g, Some (ErrorString ("Could not find snapshot with name " +:+ name))))
  /\ (forall stored,
        Emu.snapshots g !! name = Some stored ->
        snd (Emu.LoadSnapshot name g) = None
        /\ Emu.GetEmulator (Emu.backend (fst (Emu.LoadSnapshot name g))) = stored
        /\ Emu.snapshots (fst (Emu.LoadSnapshot name g)) = Emu.snapshots g).
Proof.
  unfold Emu.LoadSnapshot. split.
  - intros ->. reflexivity.
  - intros stored ->. simpl. auto.
Qed.

(** A fresh gateway has no snapshot called missing; once the engine has
    moved on, the snapshot taken earlier under the name genesis loads. *)
Lemma LoadSnapshot_absent_present_witness :
  Emu.LoadSnapshot "missing" Sample.embedded
  = (Sample.embedded, Some (ErrorString "Could not find snapshot with name missing"))
  /\ (snd (Emu.LoadSnapshot "genesis"
             (Emu.CreateSnapshot "genesis" (Emu.NewEmulatorGateway Sample.earlier))) = None
      /\ Emu.GetEmulator
           (Emu.backend
              (fst (Emu.LoadSnapshot "genesis"
                      (Emu.CreateSnapshot "genesis" (Emu.NewEmulatorGateway Sample.earlier)))))
         = Sample.earlier
      /\ Emu.snapshots
           (fst (Emu.LoadSnapshot "genesis"
                   (Emu.CreateSnapshot "genesis" (Emu.NewEmulatorGateway Sample.earlier))))
         = Emu.snapshots (Emu.CreateSnapshot "genesis" (Emu.NewEmulatorGateway Sample.earlier))).
Proof.
  split.
  - apply (proj1 (LoadSnapshot_absent_present Sample.embedded "missing")).
    reflexivity.
  - apply (proj2 (LoadSnapshot_absent_present
                    (Emu.CreateSnapshot "genesis" (Emu.NewEmulatorGateway Sample.earlier))
                    "genesis") Sample.earlier).
    apply lookup_insert_eq.
Defined.

Section Events.
Context {Emulator : Type}.
Variable ops : Emu.BackendOps Emulator.
Variable FlowEventsToSDK : list Emu.GoEvent -> reply (list Event).
Variable g : Emu.EmulatorGateway Emulator.
Variable eventType : string.

#[local] Abbreviation engine := (Emu.backend_emulator (Emu.backend g)).

Lemma firstBatch_none id batches :
  noBatchFor id batches = true -> Emu.firstBatch FlowEventsToSDK id batches = None.
Proof.
  induction batches as [|b rest IH]; simpl; [reflexivity |].
  intros H. apply andb_true_iff in H as [Hb Hrest].
  apply negb_true_iff in Hb. rewrite Hb. apply IH, Hrest.
Qed.

Lemma firstBatch_first id pre b post :
  noBatchFor id pre = true ->
  Emu.GoBlockID b = id ->
  Emu.firstBatch FlowEventsToSDK id (pre ++ b :: post)
  = Some (match FlowEventsToSDK (Emu.GoEvents b) with
          | inl evs => Some evs
          | inr _ => None
          end).
Proof.
  intros Hpre Hb. induction pre as [|p pre IH]; simpl.
  - rewrite Hb, N.eqb_refl. reflexivity.
  - simpl in Hpre. apply andb_true_iff in Hpre as [Hp Hpre].
    apply negb_true_iff in Hp. rewrite Hp. apply IH, Hpre.
Qed.

(** With a block at the height, [getBlockEvent] returns its entry. *)
Lemma getBlockEvent_entry h :
  replied (Emu.be_GetBlockByHeight ops engine h) = true ->
  exists be, Emu.getBlockEvent ops FlowEventsToSDK g h eventType = Ok be
             /\ entry_for ops FlowEventsToSDK engine eventType h be.
Proof.
  unfold Emu.getBlockEvent, entry_for.
  destruct (Emu.be_GetBlockByHeight ops engine h) as [block | e] eqn:Eb;
    try discriminate.
  intros _. eexists. split; [reflexivity |].
  exists block. simpl. fold (reported ops engine eventType block).
  repeat split.
  - intros Hno. rewrite (firstBatch_none _ _ Hno). reflexivity.
  - intros pre b post -> Hpre Hb.
    rewrite (firstBatch_first _ _ _ _ Hpre Hb). reflexivity.
Qed.

(** Without one it panics. *)
Lemma getBlockEvent_no_block h :
  replied (Emu.be_GetBlockByHeight ops engine h) = false ->
  Emu.getBlockEvent ops FlowEventsToSDK g h eventType = Panic.
Proof.
  unfold Emu.getBlockEvent.
  destruct (Emu.be_GetBlockByHeight ops engine h); [discriminate | reflexivity].
Qed.

Lemma heights_S start n : heights start (S n) = start :: heights (start + 1) n.
Proof.
  unfold heights. simpl. rewrite Z.add_0_r. f_equal.
  rewrite <- seq_shift, map_map. apply map_ext. intros i. lia.
Qed.

Lemma wrap64_succ h : (0 <= h < MaxUint64)%Z -> wrap64 (h + 1) = (h + 1)%Z.
Proof. unfold wrap64, MaxUint64. intros H. apply Z.mod_small. lia. Qed.

(** The loop over [n] remaining heights that all hold a block. *)
Lemma GetEvents_loop_collects endHeight n : forall height acc,
  (0 <= height)%Z ->
  (height + Z.of_nat n = endHeight + 1)%Z ->
  (endHeight < MaxUint64)%Z ->
  (forall h, (height <= h <= endHeight)%Z ->
             replied (Emu.be_GetBlockByHeight ops engine h) = true) ->
  exists l,
    Emu.GetEvents_loop ops FlowEventsToSDK (S n) g eventType height endHeight acc
    = Some (Ok (acc ++ l))
    /\ Forall2 (entry_for ops FlowEventsToSDK engine eventType) (heights height n) l.
Proof.
  induction n as [|n IH]; intros height acc H0 Hn Hmax Hblocks.
  - exists []. simpl. destruct (Z.leb_spec height endHeight); [lia |].
    rewrite app_nil_r. split; [reflexivity | constructor].
  - destruct (getBlockEvent_entry height) as (be & Hbe & Hentry);
      [apply Hblocks; lia |].
    destruct (IH (height + 1)%Z (acc ++ [be])) as (l & Hl & Hall);
      [lia | lia | exact Hmax | intros h Hh; apply Hblocks; lia |].
    exists (be :: l). split.
    + change (Emu.GetEvents_loop ops FlowEventsToSDK (S (S n)) g eventType height endHeight acc)
        with (if (height <=? endHeight)%Z
              then match Emu.getBlockEvent ops FlowEventsToSDK g height eventType with
                   | Ok be => Emu.GetEvents_loop ops FlowEventsToSDK (S n) g eventType
                                (wrap64 (height + 1)) endHeight (acc ++ [be])
                   | Err e => Some (Err e)
                   | Panic => Some Panic
                   end
              else Some (Ok acc)).
      destruct (Z.leb_spec height endHeight); [| lia].
      rewrite Hbe, wrap64_succ by lia. rewrite Hl, <- app_assoc. reflexivity.
    + rewrite heights_S. constructor; assumption.
Qed.

Lemma GetEvents_loop_more_fuel fuel : forall extra height endHeight acc out,
  Emu.GetEvents_loop ops FlowEventsToSDK fuel g eventType height endHeight acc = Some out ->
  Emu.GetEvents_loop ops FlowEventsToSDK (fuel + extra) g eventType height endHeight acc
  = Some out.
Proof.
  induction fuel as [|fuel IH]; intros extra height endHeight acc out; simpl.
  - discriminate.
  - destruct (height <=? endHeight)%Z; [| auto].
    destruct (Emu.getBlockEvent _ _ _ _ _); auto.
Qed.

(** At the largest [uint64] the counter wraps to 0 and the condition
    holds again: with a block at every height the loop does not end. *)
Lemma GetEvents_loop_wraps fuel : forall height acc,
  (forall h, (0 <= h <= MaxUint64)%Z ->
             replied (Emu.be_GetBlockByHeight ops engine h) = true) ->
  (0 <= height <= MaxUint64)%Z ->
  Emu.GetEvents_loop ops FlowEventsToSDK fuel g eventType height MaxUint64 acc = None.
Proof.
  induction fuel as [|fuel IH]; intros height acc Hblocks Hh; simpl.
  - reflexivity.
  - destruct (Z.leb_spec height MaxUint64); [| lia].
    destruct (getBlockEvent_entry height (Hblocks height Hh)) as (be & -> & _).
    apply IH; [exact Hblocks |].
    unfold wrap64, MaxUint64.
    pose proof (Z.mod_pos_bound (height + 1) (2 ^ 64)). lia.
Qed.

End Events.

(** C6, as the spec words it, fails: the chain has blocks at heights 0 to
    3, and asking for the events of height 5 returns no entry at all, the
    call panics on the block that is not there. *)
Lemma GetEvents_panics_without_block :
  (5 <= 5)%Z
  /\ Emu.be_GetBlockByHeight Sample.chainOps
       (Emu.backend_emulator (Emu.backend Sample.embedded)) 5
     = inr (StatusError NotFound "block not found")
  /\ Emu.GetEvents Sample.chainOps Sample.toSDK 10 Sample.embedded "A.Deposit" 5 5
     = Some Panic.
Proof. split; [lia |]. split; reflexivity. Qed.

(** The loop counter is a [uint64]: up to the largest height the call
    returns for no amount of fuel, even with a block at every height. *)
Lemma GetEvents_to_MaxUint64_never_returns fuel :
  Emu.GetEvents Sample.endlessOps Sample.toSDK fuel (Emu.NewEmulatorGateway tt)
    "A.Deposit" (MaxUint64 - 1) MaxUint64 = None.
Proof.
  apply GetEvents_loop_wraps.
  - intros h _. reflexivity.
  - unfold MaxUint64. lia.
Qed.

(** C6 (amended): for a range [startHeight <= endHeight] that ends below
    the largest [uint64] and all of whose heights hold a block, [GetEvents]
    returns, once the fuel covers one step more than the range has heights,
    one entry per height, in ascending order of height.  Each entry carries the
    identifier, height and timestamp of the block at its height; its event
    list is empty and not nil when the backend reports no batch under the
    block's identifier, and is otherwise the conversion of the first batch
    reported under it. *)
Theorem GetEvents_one_entry_per_height
    {Emulator : Type} (ops : Emu.BackendOps Emulator)
    (FlowEventsToSDK : list Emu.GoEvent -> reply (list Event))
    (g : Emu.EmulatorGateway Emulator) (eventType : string)
    (startHeight endHeight : Z) (extra : nat) :
  (0 <= startHeight <= endHeight)%Z ->
  (endHeight < MaxUint64)%Z ->
  (forall h, (startHeight <= h <= endHeight)%Z ->
             replied (Emu.be_GetBlockByHeight ops (Emu.backend_emulator (Emu.backend g)) h)
             = true) ->
  let n := S (Z.to_nat (endHeight - startHeight)) in
  exists l,
    Emu.GetEvents ops FlowEventsToSDK (S n + extra) g eventType startHeight endHeight
    = Some (Ok l)
    /\ length l = n
    /\ Forall2 (entry_for ops FlowEventsToSDK (Emu.backend_emulator (Emu.backend g)) eventType)
               (heights startHeight n) l.
Proof.
  intros Hrange Hmax Hblocks n.
  destruct (GetEvents_loop_collects ops FlowEventsToSDK g eventType endHeight n
              startHeight []) as (l & Hl & Hall);
    [lia | subst n; lia | exact Hmax | exact Hblocks |].
  exists l. split; [| split].
  - unfold Emu.GetEvents. apply GetEvents_loop_more_fuel. exact Hl.
  - apply Forall2_length in Hall. rewrite <- Hall. unfold heights.
    rewrite length_map, length_seq. reflexivity.
  - exact Hall.
Qed.

(** Heights 1 to 3 of the sample chain: three entries. *)
Lemma GetEvents_one_entry_per_height_witness :
  exists l,
    Emu.GetEvents Sample.chainOps Sample.toSDK
      (S (S (Z.to_nat (3 - 1))) + 0) Sample.embedded "A.Deposit" 1 3
    = Some (Ok l)
    /\ length l = S (Z.to_nat (3 - 1))
    /\ Forall2 (entry_for Sample.chainOps Sample.toSDK
                  (Emu.backend_emulator (Emu.backend Sample.embedded)) "A.Deposit")
               (heights 1 (S (Z.to_nat (3 - 1)))) l.
Proof.
  apply (GetEvents_one_entry_per_height Sample.chainOps Sample.toSDK Sample.embedded
           "A.Deposit" 1 3 0).
  - lia.
  - unfold MaxUint64. lia.
  - intros h Hh.
    assert (h = 1 \/ h = 2 \/ h = 3)%Z as [-> | [-> | ->]] by lia; reflexivity.
Defined.

(** What the call of the witness returns: the height without a reported
    batch gets the empty list. *)
Example GetEvents_sample :
  Emu.GetEvents Sample.chainOps Sample.toSDK 4 Sample.embedded "A.Deposit" 1 3
  = Some (Ok [ {| BlockID := 101; BEHeight := 1; BlockTimestamp := 1001; Events := Some [] |};
               {| BlockID := 102; BEHeight := 2; BlockTimestamp := 1002;
                  Events := Some [ {| EventType := "A.Deposit"; EventPayload := "5" |} ] |};
               {| BlockID := 103; BEHeight := 3; BlockTimestamp := 1003; Events := Some [] |} ]).
Proof. reflexivity. Qed.

End EmuFacts.

(* ------------------------------------------------------------------ *)
(** ** Both gateways: errors and waiting for the seal *)
(* ------------------------------------------------------------------ *)
Module GatewayFacts.
Import Go Flow Props.

Section Unwrapping.
Variable Sprintf : string -> string.

Lemma UnwrapStatusError_flat err : flat (Emu.UnwrapStatusError Sprintf err) = true.
Proof. reflexivity. Qed.




End Unwrapping.




(** C5, as the spec words it, fails on the emulator gateway: asked to wait
    for the seal of a transaction its engine holds as pending, it answers
    at once, without error, with the pending status. *)
Lemma Emu_GetTransactionResult_returns_unsealed :
  Emu.GetTransactionResult Sample.chainOps Sample.plain Sample.embedded 55 true
  = Ok (Sample.res TransactionStatusPending)
  /\ Status (Sample.res TransactionStatusPending) <> TransactionStatusSealed.
Proof. split; [reflexivity | discriminate]. Qed.

(** C5 (amended): on the gRPC gateway a waiting result query that returns
    without error returns a sealed result, having slept one second between
    any two consecutive polls, and it does return, with enough fuel, once a
    poll answers sealed after unsealed answers only.  The emulator gateway
    does not poll: it asks its backend once and returns that answer,
    whatever its status and whatever [waitSeal] is. *)
Theorem GetTransactionResult_sealed_on_grpc_single_query_on_emulator
    (Transaction_ID : Transaction -> Identifier) (g : Grpc.GrpcGateway) (tx : Transaction)
    {Emulator : Type} (ops : Emu.BackendOps Emulator) (Sprintf : string -> string)
    (eg : Emu.EmulatorGateway Emulator) (id : Identifier) :
  (forall fuel w r w',
      Grpc.GetTransactionResult Transaction_ID fuel g tx true w = Some (Ok r, w') ->
      Status r = TransactionStatusSealed
      /\ Grpc.polls w' - Grpc.polls w = S (Grpc.slept w' - Grpc.slept w))
  /\ (forall n r fuel,
        (forall k, k < n -> unsealed (answer Transaction_ID g tx k) = true) ->
        answer Transaction_ID g tx n = inl r ->
        Status r = TransactionStatusSealed ->
        n < fuel ->
        Grpc.GetTransactionResult Transaction_ID fuel g tx true world0
        = Some (Ok r, {| Grpc.polls := S n; Grpc.slept := n |}))
  /\ (forall waitSeal r,
        Emu.be_GetTransactionResult ops (Emu.backend_emulator (Emu.backend eg)) id = inl r ->
        Emu.GetTransactionResult ops Sprintf eg id waitSeal = Ok r).
Proof.
  split; [| split].
  - intros fuel w r w' H.
    destruct (GrpcFacts.run_Ok_sealed Transaction_ID g tx fuel w r w' H) as (Hs & Hp & _).
    split; assumption.
  - intros n r fuel Hbefore Hn Hs Hfuel.
    change (Ok r) with (call (inl r : reply TransactionResult)). rewrite <- Hn.
    apply GrpcFacts.run_first_stop; [exact Hbefore | | exact Hfuel].
    rewrite Hn. simpl. rewrite Hs. reflexivity.
  - intros waitSeal r H. unfold Emu.GetTransactionResult. rewrite H. reflexivity.
Qed.

Lemma GetTransactionResult_sealed_on_grpc_single_query_on_emulator_witness :
  (Status (Sample.res TransactionStatusSealed) = TransactionStatusSealed
   /\ 3 - 0 = S (2 - 0))
  /\ Grpc.GetTransactionResult Sample.txID 3 Sample.gateway (Sample.staged 1000) true world0
     = Some (Ok (Sample.res TransactionStatusSealed), {| Grpc.polls := 3; Grpc.slept := 2 |})
  /\ Emu.GetTransactionResult Sample.chainOps Sample.plain Sample.embedded 55 false
     = Ok (Sample.res TransactionStatusPending).
Proof.
  pose proof (GetTransactionResult_sealed_on_grpc_single_query_on_emulator
                Sample.txID Sample.gateway (Sample.staged 1000)
                Sample.chainOps Sample.plain Sample.embedded 55) as (Hsealed & Hreturns & Hemu).
  split; [| split].
  - apply (Hsealed 3 world0 (Sample.res TransactionStatusSealed)
             {| Grpc.polls := 3; Grpc.slept := 2 |}).
    reflexivity.
  - apply (Hreturns 2 (Sample.res TransactionStatusSealed) 3).
    + intros k Hk. destruct k as [|[|k]]; [reflexivity | reflexivity | lia].
    + reflexivity.
    + reflexivity.
    + lia.
  - apply (Hemu false). reflexivity.
Defined.

End GatewayFacts.

(* ------------------------------------------------------------------ *)
(** ** [transactions send]: the roles *)
(* ------------------------------------------------------------------ *)
Module SendFacts.
Import Go Props.

Example resolve_signer_only :
  Sample.resolveRoles (Sample.flags "alice" "" "" []) (Sample.buildPayer "")
  = (Ok (Some Sample.alice, Some Sample.alice, [Sample.alice]), []).
Proof. reflexivity. Qed.

Example resolve_signer_and_proposer :
  Sample.resolveRoles (Sample.flags "alice" "bob" "" []) (Sample.buildPayer "")
  = (Err Send.roleConflict, []).
Proof. reflexivity. Qed.

Example send_signer_only_effects :
  snd (Sample.send ["tx.cdc"] (Sample.flags "alice" "" "" []) (Sample.buildPayer ""))
  = [ Send.ReadFile "tx.cdc";
      Send.NewRoles (Some Sample.alice) (Some Sample.alice) [Sample.alice];
      Send.TransactionsSend (Some Sample.alice, Some Sample.alice, [Sample.alice])
        "transaction {}" "tx.cdc" 1000 "emulator" ].
Proof. reflexivity. Qed.

Section Resolution.
Context {State Roles : Type}.
Variable ByName : State -> string -> option Send.Account.
Variable state : State.

#[local] Abbreviation M := (Send.M Roles).

Lemma lookupOptional_eq role name (log : list (Send.effect Roles)) :
  Send.lookupOptional ByName state role name log
  = if String.eqb name "" then (Ok None, log)
    else match ByName state name with
         | Some a => (Ok (Some a), log)
         | None => (Err (Send.notFound role name), log)
         end.
Proof.
  unfold Send.lookupOptional.
  destruct (String.eqb name ""); simpl; [reflexivity |].
  destruct (ByName state name); reflexivity.
Qed.

Lemma lookupAuthorizers_resolved names : forall acc (log : list (Send.effect Roles)),
  forallb (resolvable ByName state) names = true ->
  exists l, Send.lookupAuthorizers ByName state names acc log = (Ok (acc ++ l), log)
            /\ length l = length names.
Proof.
  induction names as [|n names IH]; intros acc log H; simpl.
  - exists []. rewrite app_nil_r. split; reflexivity.
  - simpl in H. apply andb_true_iff in H as [Hn Hrest].
    unfold resolvable in Hn. destruct (ByName state n) as [a|]; [| discriminate].
    destruct (IH (acc ++ [a]) log Hrest) as (l & Hl & Hlen).
    exists (a :: l). rewrite Hl, <- app_assoc. simpl. split; [reflexivity | lia].
Qed.

Lemma lookupAuthorizers_unresolved names : forall acc (log : list (Send.effect Roles)),
  forallb (resolvable ByName state) names = false ->
  exists n, In n names /\ ByName state n = None
            /\ Send.lookupAuthorizers ByName state names acc log
               = (Err (Send.notFound "authorizer" n), log).
Proof.
  induction names as [|n names IH]; intros acc log H; simpl in *.
  - discriminate.
  - unfold resolvable in H at 1. destruct (ByName state n) as [a|] eqn:En.
    + simpl in H. destruct (IH (acc ++ [a]) log H) as (m & Hin & Hm & Hrun).
      exists m. auto.
    + exists n. auto.
Qed.

Lemma resolvable_eq name found :
  ByName state name = found ->
  resolvable ByName state name = match found with Some _ => true | None => false end.
Proof. intros <-. reflexivity. Qed.

(** The signer together with a proposer name or an authorizer name: the
    resolution ends in an error and has done nothing to the world. *)
Lemma resolveRoles_signer_and_more sendFlags buildFlags (log : list (Send.effect Roles)) :
  Send.Signer sendFlags <> "" ->
  Send.Proposer sendFlags <> "" \/ Send.Autorizer sendFlags <> [] ->
  exists e,
    Send.resolveRoles ByName sendFlags buildFlags state log = (Err e, log)
    /\ (namesResolve ByName sendFlags buildFlags state = true -> e = Send.roleConflict)
    /\ (namesResolve ByName sendFlags buildFlags state = false ->
        namesUnresolved ByName sendFlags buildFlags state e).
Proof.
  intros Hsigner Hmore.
  unfold Send.resolveRoles, namesResolve, namesUnresolved, mbind, Send.M_bind.
  apply String.eqb_neq in Hsigner. rewrite Hsigner.
  rewrite lookupOptional_eq.
  destruct (String.eqb (Send.Proposer sendFlags) "") eqn:Ep;
    [| destruct (ByName state (Send.Proposer sendFlags)) as [p|] eqn:Hp;
       rewrite (resolvable_eq _ _ Hp)];
    cbv beta iota; simpl orb; simpl andb.
  3: { eexists. split; [reflexivity |]. split; [discriminate |].
       intros _. exists "proposer", (Send.Proposer sendFlags). auto 8. }
  all: rewrite lookupOptional_eq.
  all: (destruct (String.eqb (Send.build_Payer buildFlags) "") eqn:Epa;
        [| destruct (ByName state (Send.build_Payer buildFlags)) as [pa|] eqn:Hpa;
           rewrite (resolvable_eq _ _ Hpa)];
        cbv beta iota; simpl orb; simpl andb).
  3, 6: (eexists; split; [reflexivity |]; split; [discriminate |];
         intros _; exists "payer", (Send.build_Payer buildFlags); auto 8).
  all: destruct (forallb (resolvable ByName state) (Send.Autorizer sendFlags)) eqn:Ea.
  all: simpl andb.
  all: try (destruct (lookupAuthorizers_unresolved _ [] log Ea) as (n & Hin & Hn & ->);
            eexists; split; [reflexivity |]; split; [discriminate |];
            intros _; exists "authorizer", n; auto 8).
  all: destruct (lookupAuthorizers_resolved _ [] log Ea) as (l & -> & Hlen).
  all: simpl; try (eexists; split; [reflexivity |]; split; [reflexivity | discriminate]).
  (* neither a proposer nor a payer: the authorizer list is not empty *)
  apply String.eqb_eq in Ep. destruct Hmore as [Hp | Ha]; [contradiction |].
  destruct l as [|a l];
    [destruct (Send.Autorizer sendFlags); [contradiction | discriminate] |].
  simpl. eexists. split; [reflexivity |]. split; [reflexivity | discriminate].
Qed.



(** The payer flag of [send] is not read. *)
Lemma resolveRoles_ignores_Payer payer sendFlags buildFlags (log : list (Send.effect Roles)) :
  Send.resolveRoles ByName (withPayer payer sendFlags) buildFlags state log
  = Send.resolveRoles ByName sendFlags buildFlags state log.
Proof. reflexivity. Qed.

End Resolution.

Section Command.
Context {State Roles Value Tx TxResult : Type}.
Variable ByName : State -> string -> option Send.Account.
Variable readFile : string -> reply string.
Variable ParseArgumentsJSON : string -> reply (list Value).
Variable ParseArgumentsWithoutType : string -> string -> list string -> reply (list Value).
Variable NewTransactionAccountRoles :
  option Send.Account -> option Send.Account -> list Send.Account -> reply Roles.
Variable Transactions_Send :
  Roles -> Send.Script Value -> Z -> string -> reply (Tx * TxResult).
Variable DefaultTransactionGasLimit : Z.

#[local] Abbreviation send :=
  (Send.send ByName readFile ParseArgumentsJSON ParseArgumentsWithoutType
     NewTransactionAccountRoles Transactions_Send DefaultTransactionGasLimit).

(** An error of the role resolution is the error of the command, and the
    command has done nothing else. *)
Lemma send_resolution_error codeFilename rest sendFlags buildFlags network state log e :
  Send.resolveRoles ByName sendFlags buildFlags state log = (Err e, log) ->
  send (codeFilename :: rest) sendFlags buildFlags network state log = (Err e, log).
Proof.
  intros H. unfold Send.send, mbind, Send.M_bind. simpl. rewrite H. reflexivity.
Qed.


End Command.

(** C3, as the spec words it, fails: with the signer alice and a proposer
    name the configuration does not hold, the command fails, but with the
    proposer's not-found error and not with the role conflict. *)
Lemma send_signer_and_unknown_proposer :
  Sample.send ["tx.cdc"] (Sample.flags "alice" "ghost" "" []) (Sample.buildPayer "")
  = (Err (ErrorString "proposer account: [ghost] doesn't exists in configuration"), [])
  /\ ErrorString "proposer account: [ghost] doesn't exists in configuration"
     <> Send.roleConflict.
Proof. split; [reflexivity | discriminate]. Qed.

(** C3 (amended): when the signer name is set together with the proposer
    name or a non-empty authorizer list, the command ends in an error
    before it reads the transaction file: nothing is built or submitted.
    The error is the role conflict when every role name looked up resolves
    (the proposer's, the payer name the command reads, each authorizer's);
    otherwise it is the not-found error naming the role and the name of one
    that does not resolve. *)
Theorem send_signer_with_proposer_or_authorizers
    {State Roles Value Tx TxResult : Type}
    (ByName : State -> string -> option Send.Account)
    (readFile : string -> reply string)
    (ParseArgumentsJSON : string -> reply (list Value))
    (ParseArgumentsWithoutType : string -> string -> list string -> reply (list Value))
    (NewTransactionAccountRoles :
       option Send.Account -> option Send.Account -> list Send.Account -> reply Roles)
    (Transactions_Send : Roles -> Send.Script Value -> Z -> string -> reply (Tx * TxResult))
    (DefaultTransactionGasLimit : Z)
    (codeFilename : string) (rest : list string)
    (sendFlags : Send.flagsSend) (buildFlags : Send.flagsBuild)
    (network : string) (state : State) (log : list (Send.effect Roles)) :
  Send.Signer sendFlags <> "" ->
  Send.Proposer sendFlags <> "" \/ Send.Autorizer sendFlags <> [] ->
  exists e,
    Send.send ByName readFile ParseArgumentsJSON ParseArgumentsWithoutType
      NewTransactionAccountRoles Transactions_Send DefaultTransactionGasLimit
      (codeFilename :: rest) sendFlags buildFlags network state log
    = (Err e, log)
    /\ (namesResolve ByName sendFlags buildFlags state = true -> e = Send.roleConflict)
    /\ (namesResolve ByName sendFlags buildFlags state = false ->
        namesUnresolved ByName sendFlags buildFlags state e).
Proof.
  intros Hsigner Hmore.
  destruct (resolveRoles_signer_and_more ByName state sendFlags buildFlags log Hsigner Hmore)
    as (e & Hrun & Hconflict & Hunresolved).
  exists e. split; [| split; assumption].
  apply send_resolution_error. exact Hrun.
Qed.

(** alice as signer with bob as proposer, and alice as signer with the
    authorizers bob and a name nobody has. *)
Lemma send_signer_with_proposer_or_authorizers_witness :
  Sample.send ["tx.cdc"] (Sample.flags "alice" "bob" "" []) (Sample.buildPayer "")
  = (Err Send.roleConflict, [])
  /\ exists e,
      Sample.send ["tx.cdc"] (Sample.flags "alice" "" "" ["bob"; "ghost"]) (Sample.buildPayer "")
      = (Err e, [])
      /\ namesUnresolved Send.Accounts_ByName (Sample.flags "alice" "" "" ["bob"; "ghost"])
           (Sample.buildPayer "") Sample.config e.
Proof.
  split.
  - destruct (send_signer_with_proposer_or_authorizers
                Send.Accounts_ByName
                (fun _ => inl "transaction {}")
                (fun _ => inl ([] : list Flow.Value))
                (fun _ _ _ => inl [])
                (fun proposer payer authorizers => inl (proposer, payer, authorizers))
                (fun _ _ _ _ => inl (Sample.staged 1000, Sample.res Flow.TransactionStatusSealed))
                1000%Z "tx.cdc" [] (Sample.flags "alice" "bob" "" []) (Sample.buildPayer "")
                "emulator" Sample.config [])
      as (e & Hrun & Hconflict & _).
    + discriminate.
    + left. discriminate.
    + rewrite (Hconflict eq_refl) in Hrun. exact Hrun.
  - destruct (send_signer_with_proposer_or_authorizers
                Send.Accounts_ByName
                (fun _ => inl "transaction {}")
                (fun _ => inl ([] : list Flow.Value))
                (fun _ _ _ => inl [])
                (fun proposer payer authorizers => inl (proposer, payer, authorizers))
                (fun _ _ _ _ => inl (Sample.staged 1000, Sample.res Flow.TransactionStatusSealed))
                1000%Z "tx.cdc" [] (Sample.flags "alice" "" "" ["bob"; "ghost"])
                (Sample.buildPayer "") "emulator" Sample.config [])
      as (e & Hrun & _ & Hunresolved).
    + discriminate.
    + right. discriminate.
    + exists e. split; [exact Hrun | exact (Hunresolved eq_refl)].
Defined.



(** C9: the claim holds the command to looking up the payer name its caller
    gave it.  The command reads the payer name of the [build] command
    instead.  With the payer flag set to a name the configuration does not
    hold, no signer and an empty [build] payer, nothing is looked up for
    the payer, the resolution succeeds with no payer and the command goes
    on to build and submit; with the payer flag empty and that name as the
    [build] payer, the command fails over a payer its caller never named. *)
Theorem send_looks_up_the_build_payer :
  Send.Accounts_ByName Sample.config "ghost" = None
  /\ Sample.resolveRoles (Sample.flags "" "" "ghost" []) (Sample.buildPayer "")
     = (Ok (None, None, []), [])
  /\ snd (Sample.send ["tx.cdc"] (Sample.flags "" "" "ghost" []) (Sample.buildPayer ""))
     = [ Send.ReadFile "tx.cdc";
         Send.NewRoles None None [];
         Send.TransactionsSend (None, None, []) "transaction {}" "tx.cdc" 1000 "emulator" ]
  /\ Sample.send ["tx.cdc"] (Sample.flags "" "" "" []) (Sample.buildPayer "ghost")
     = (Err (ErrorString "payer account: [ghost] doesn't exists in configuration"), []).
Proof. repeat split; reflexivity. Qed.

End SendFacts.

(* ------------------------------------------------------------------ *)
(** ** The project state: accounts *)
(* ------------------------------------------------------------------ *)
Module StateFacts.
Import Go.

Section Accounts.
Context {Config : Type}.
Implicit Types (p : State.State Config) (account a : State.Account) (name : string).

#[local] Abbreviation named name := (fun a : State.Account => String.eqb (Project.name a) name).

Lemma AccountByName_loop_app name l1 l2 found :
  State.AccountByName_loop name (l1 ++ l2) found
  = State.AccountByName_loop name l2 (State.AccountByName_loop name l1 found).
Proof.
  revert found. induction l1 as [|a l1 IH]; intros found; simpl; [reflexivity |].
  destruct (String.eqb (Project.name a) name); apply IH.
Qed.

Lemma AccountByName_loop_no_match name l found :
  Forall (fun a => Project.name a <> name) l ->
  State.AccountByName_loop name l found = found.
Proof.
  revert found. induction l as [|a l IH]; intros found H; simpl; [reflexivity |].
  apply Forall_cons in H as [Ha Hl].
  apply String.eqb_neq in Ha. rewrite Ha. apply IH, Hl.
Qed.

Lemma AccountByName_loop_found name l found a :
  State.AccountByName_loop name l found = Some a ->
  found = Some a /\ Forall (fun b => Project.name b <> name) l
  \/ exists pre post, l = pre ++ a :: post /\ Project.name a = name
                      /\ Forall (fun b => Project.name b <> name) post.
Proof.
  revert found. induction l as [|b l IH]; intros found H; simpl in H.
  - left. split; [exact H | constructor].
  - destruct (String.eqb (Project.name b) name) eqn:Eb.
    + destruct (IH _ H) as [[Hf Hl] | (pre & post & -> & Ha & Hpost)].
      * right. injection Hf as <-. exists [], l.
        apply String.eqb_eq in Eb. auto.
      * right. exists (b :: pre), post. auto.
    + destruct (IH _ H) as [[Hf Hl] | (pre & post & -> & Ha & Hpost)].
      * left. split; [exact Hf |]. constructor; [| exact Hl].
        apply String.eqb_neq, Eb.
      * right. exists (b :: pre), post. auto.
Qed.

Lemma AccountByName_Some_iff p name a :
  State.AccountByName p name = Some a
  <-> exists pre post,
      State.accounts p = pre ++ a :: post
      /\ Project.name a = name
      /\ Forall (fun b => Project.name b <> name) post.
Proof.
  unfold State.AccountByName. split.
  - intros H. apply AccountByName_loop_found in H as [[Hf _] | H]; [discriminate | exact H].
  - intros (pre & post & -> & Ha & Hpost).
    rewrite AccountByName_loop_app. simpl.
    apply String.eqb_eq in Ha. rewrite Ha.
    apply AccountByName_loop_no_match, Hpost.
Qed.

Lemma AccountByName_None_iff p name :
  State.AccountByName p name = None
  <-> Forall (fun b => Project.name b <> name) (State.accounts p).
Proof.
  unfold State.AccountByName. split.
  - intros H. apply Forall_forall. intros b Hb Hname.
    apply list_elem_of_split in Hb as (l1 & l2 & Hsplit).
    rewrite Hsplit, AccountByName_loop_app in H. simpl in H.
    apply String.eqb_eq in Hname. rewrite Hname in H.
    clear -H. revert H. generalize b. induction l2 as [|d l2 IH]; intros b0; simpl.
    + intros H. discriminate H.
    + destruct (String.eqb (Project.name d) name); apply IH.
  - intros H. apply AccountByName_loop_no_match, H.
Qed.

(** X1: [AccountByName] answers nil exactly when no account bears the name,
    and otherwise the last account that bears it. *)
Theorem AccountByName_last_match p name :
  (State.AccountByName p name = None
   <-> Forall (fun b => Project.name b <> name) (State.accounts p))
  /\ (forall a,
        State.AccountByName p name = Some a
        <-> exists pre post,
            State.accounts p = pre ++ a :: post
            /\ Project.name a = name
            /\ Forall (fun b => Project.name b <> name) post).
Proof.
  split; [apply AccountByName_None_iff | intros a; apply AccountByName_Some_iff].
Qed.

(** Either no account bears the name or there is a first one that does. *)
Lemma first_named name (l : list State.Account) :
  Forall (fun b => Project.name b <> name) l
  \/ exists r1 e r2, l = r1 ++ e :: r2
                     /\ Forall (fun b => Project.name b <> name) r1
                     /\ Project.name e = name.
Proof.
  induction l as [|b l IH].
  - left. constructor.
  - destruct (String.eqb_spec (Project.name b) name) as [Hb | Hb].
    + right. exists [], b, l. repeat split; [constructor | exact Hb].
    + destruct IH as [Hl | (r1 & e & r2 & -> & Hr1 & He)].
      * left. constructor; assumption.
      * right. exists (b :: r1), e, r2. repeat split; [constructor; assumption | exact He].
Qed.

Lemma AddOrUpdateAccount_loop_absent account all i rest :
  Forall (fun b => Project.name b <> Project.name account) rest ->
  State.AddOrUpdateAccount_loop account all i rest = None.
Proof.
  revert i. induction rest as [|b rest IH]; intros i H; simpl; [reflexivity |].
  apply Forall_cons in H as [Hb Hrest].
  apply String.eqb_neq in Hb. rewrite Hb. apply IH, Hrest.
Qed.

Lemma AddOrUpdateAccount_loop_present account r1 : forall pre e r2,
  Forall (fun b => Project.name b <> Project.name account) r1 ->
  Project.name e = Project.name account ->
  State.AddOrUpdateAccount_loop account (pre ++ r1 ++ e :: r2) (length pre) (r1 ++ e :: r2)
  = Some (pre ++ r1 ++ account :: r2).
Proof.
  induction r1 as [|b r1 IH]; intros pre e r2 Hr1 He; simpl.
  - apply String.eqb_eq in He. rewrite He. f_equal.
    rewrite insert_app_r_alt by reflexivity. rewrite Nat.sub_diag. reflexivity.
  - apply Forall_cons in Hr1 as [Hb Hr1].
    apply String.eqb_neq in Hb. rewrite Hb.
    specialize (IH (pre ++ [b]) e r2 Hr1 He).
    rewrite length_app, Nat.add_1_r, <- !app_assoc in IH. exact IH.
Qed.

(** What [AddOrUpdateAccount] leaves: the first account of that name
    replaced, or the account appended. *)
Lemma AddOrUpdateAccount_accounts account p :
  (Forall (fun b => Project.name b <> Project.name account) (State.accounts p)
   /\ State.accounts (State.AddOrUpdateAccount account p) = State.accounts p ++ [account])
  \/ exists r1 e r2,
      State.accounts p = r1 ++ e :: r2
      /\ Forall (fun b => Project.name b <> Project.name account) r1
      /\ Project.name e = Project.name account
      /\ State.accounts (State.AddOrUpdateAccount account p) = r1 ++ account :: r2.
Proof.
  unfold State.AddOrUpdateAccount.
  destruct (first_named (Project.name account) (State.accounts p))
    as [Habsent | (r1 & e & r2 & Hsplit & Hr1 & He)].
  - left. rewrite (AddOrUpdateAccount_loop_absent _ _ _ _ Habsent). auto.
  - right. exists r1, e, r2. rewrite Hsplit.
    pose proof (AddOrUpdateAccount_loop_present account r1 [] e r2 Hr1 He) as Hrun.
    simpl in Hrun. rewrite Hrun. auto.
Qed.

(** X2: after [AddOrUpdateAccount] the account is among the accounts; the
    list is one longer when no account bore its name and as long as before
    otherwise; the lookup of every other name answers as before; the
    configuration is untouched. *)
Theorem AddOrUpdateAccount_frame account p :
  In account (State.accounts (State.AddOrUpdateAccount account p))
  /\ length (State.accounts (State.AddOrUpdateAccount account p))
     = match State.AccountByName p (Project.name account) with
       | Some _ => length (State.accounts p)
       | None => S (length (State.accounts p))
       end
  /\ (forall name, name <> Project.name account ->
        State.AccountByName (State.AddOrUpdateAccount account p) name
        = State.AccountByName p name)
  /\ State.conf (State.AddOrUpdateAccount account p) = State.conf p.
Proof.
  destruct (AddOrUpdateAccount_accounts account p)
    as [[Habsent Hacc] | (r1 & e & r2 & Hsplit & Hr1 & He & Hacc)].
  - split; [| split; [| split]].
    + rewrite Hacc. apply in_or_app. right. left. reflexivity.
    + rewrite (proj2 (AccountByName_None_iff p _) Habsent), Hacc, length_app. simpl. lia.
    + intros name Hname. unfold State.AccountByName. rewrite Hacc.
      rewrite AccountByName_loop_app. simpl.
      destruct (String.eqb_spec (Project.name account) name); [congruence | reflexivity].
    + unfold State.AddOrUpdateAccount.
      destruct (State.AddOrUpdateAccount_loop _ _ _ _); reflexivity.
  - split; [| split; [| split]].
    + rewrite Hacc. apply in_or_app. right. left. reflexivity.
    + destruct (State.AccountByName p (Project.name account)) as [found|] eqn:Ef.
      * rewrite Hacc, Hsplit, !length_app. reflexivity.
      * apply AccountByName_None_iff in Ef. rewrite Hsplit in Ef.
        apply Forall_app in Ef as [_ Ef]. apply Forall_cons in Ef as [Ef _].
        contradiction.
    + intros name Hname. unfold State.AccountByName. rewrite Hacc, Hsplit.
      rewrite !AccountByName_loop_app. simpl.
      destruct (String.eqb_spec (Project.name account) name); [congruence |].
      destruct (String.eqb_spec (Project.name e) name); [congruence | reflexivity].
    + unfold State.AddOrUpdateAccount.
      destruct (State.AddOrUpdateAccount_loop _ _ _ _); reflexivity.
Qed.

(** X3: on a state whose account names are pairwise different,
    [AddOrUpdateAccount] keeps them so, and the lookup of the account's
    name answers the account. *)
Theorem AddOrUpdateAccount_lookup account p :
  NoDup (map Project.name (State.accounts p)) ->
  NoDup (map Project.name (State.accounts (State.AddOrUpdateAccount account p)))
  /\ State.AccountByName (State.AddOrUpdateAccount account p) (Project.name account)
     = Some account.
Proof.
  intros Hnodup.
  destruct (AddOrUpdateAccount_accounts account p)
    as [[Habsent Hacc] | (r1 & e & r2 & Hsplit & Hr1 & He & Hacc)].
  - split.
    + rewrite Hacc, map_app. apply NoDup_app. split; [exact Hnodup |]. split.
      * intros n Hn Hn'. apply list_elem_of_In in Hn. apply in_map_iff in Hn as (b & <- & Hb).
        apply list_elem_of_In in Hn'. destruct Hn' as [Hn' | []].
        rewrite Forall_forall in Habsent. apply (Habsent b); [| congruence].
        apply list_elem_of_In, Hb.
      * simpl. apply NoDup_singleton.
    + apply AccountByName_Some_iff. exists (State.accounts p), [].
      rewrite Hacc. repeat split. constructor.
  - rewrite Hsplit, map_app in Hnodup. simpl in Hnodup.
    split.
    + rewrite Hacc, map_app. simpl. rewrite <- He. exact Hnodup.
    + apply AccountByName_Some_iff. exists r1, r2. rewrite Hacc.
      repeat split.
      apply NoDup_app in Hnodup as (_ & _ & Hnodup).
      apply NoDup_cons in Hnodup as [Hnotin _].
      apply Forall_forall. intros b Hb Hname. apply Hnotin.
      rewrite He, <- Hname. apply list_elem_of_In, in_map, list_elem_of_In, Hb.
Qed.

(** The array after one removal at index [i]: as long as before, and its
    last cell is not written. *)
Lemma shifted_length (array : list State.Account) i len :
  i + 1 <= len -> len <= length array ->
  length (take i array ++ drop (i + 1) (take len array) ++ drop (len - 1) array)
  = length array.
Proof.
  intros Hi Hlen. rewrite !length_app, length_take, !length_drop, length_take. lia.
Qed.

Lemma shifted_last (array : list State.Account) i len :
  i + 1 <= len -> len <= length array ->
  (take i array ++ drop (i + 1) (take len array) ++ drop (len - 1) array)
    !! (length array - 1)
  = array !! (length array - 1).
Proof.
  intros Hi Hlen.
  rewrite lookup_app_r by (rewrite length_take; lia).
  rewrite lookup_app_r by (rewrite length_take, length_drop, length_take; lia).
  rewrite lookup_drop, length_take, length_drop, length_take. f_equal. lia.
Qed.

Lemma RemoveAccount_loop_prefix name k : forall rounds i array len,
  (forall j a, i <= j < i + k -> array !! j = Some a -> Project.name a <> name) ->
  i + k <= length array ->
  State.RemoveAccount_loop name (k + rounds) i array len
  = State.RemoveAccount_loop name rounds (i + k) array len.
Proof.
  induction k as [|k IH]; intros rounds i array len Hno Hlen; simpl.
  - rewrite Nat.add_0_r. reflexivity.
  - destruct (array !! i) as [a|] eqn:Ea.
    + assert (Ha : Project.name a <> name) by (apply (Hno i); [lia | exact Ea]).
      apply String.eqb_neq in Ha. rewrite Ha.
      rewrite IH; [f_equal; lia | | lia].
      intros j b Hj. apply Hno. lia.
    + apply lookup_ge_None in Ea. lia.
Qed.

Lemma RemoveAccount_loop_never_Err name rounds : forall i array len e,
  State.RemoveAccount_loop name rounds i array len <> Err e.
Proof.
  induction rounds as [|rounds IH]; intros i array len e; simpl; [discriminate |].
  destruct (array !! i) as [a|]; [| discriminate].
  destruct (String.eqb (Project.name a) name); [| apply IH].
  destruct (i + 1 <=? len)%nat; [apply IH | discriminate].
Qed.

(** Once [p.accounts] is shorter than the array and the last cell of the
    array bears the name, the loop ends in a panic. *)
Lemma RemoveAccount_loop_doomed name rounds : forall i array len z,
  1 <= rounds ->
  i + rounds = length array ->
  len < length array ->
  array !! (length array - 1) = Some z ->
  Project.name z = name ->
  State.RemoveAccount_loop name rounds i array len = Panic.
Proof.
  induction rounds as [|rounds IH]; intros i array len z Hr Hi Hlen Hz Hname; [lia |].
  simpl. destruct (array !! i) as [a|] eqn:Ea.
  - destruct (String.eqb (Project.name a) name) eqn:Hmatch.
    + destruct (Nat.leb_spec (i + 1) len) as [Hle | Hgt]; [| reflexivity].
      apply (IH _ _ _ z).
      * lia.
      * rewrite shifted_length by lia. lia.
      * rewrite shifted_length by lia. lia.
      * rewrite shifted_length by lia. rewrite shifted_last by lia. exact Hz.
      * exact Hname.
    + apply (IH _ _ _ z); try assumption; try lia.
      destruct rounds; [| lia].
      replace (length array - 1) with i in Hz by lia.
      rewrite Hz in Ea. injection Ea as <-.
      apply String.eqb_eq in Hname. congruence.
  - apply lookup_ge_None in Ea. lia.
Qed.

(** The loop up to and including the first account that bears the name. *)
Lemma RemoveAccount_loop_first name pre x rest rounds :
  Forall (fun b => Project.name b <> name) pre ->
  Project.name x = name ->
  State.RemoveAccount_loop name (length pre + S rounds) 0
    (pre ++ x :: rest) (length (pre ++ x :: rest))
  = State.RemoveAccount_loop name rounds (S (length pre))
      (pre ++ rest ++ drop (length (pre ++ x :: rest) - 1) (pre ++ x :: rest))
      (length (pre ++ x :: rest) - 1).
Proof.
  intros Hpre Hx.
  rewrite RemoveAccount_loop_prefix.
  - simpl. rewrite list_lookup_middle by reflexivity.
    apply String.eqb_eq in Hx. rewrite Hx.
    destruct (Nat.leb_spec (length pre + 1) (length (pre ++ x :: rest))) as [_ | Hgt];
      [| rewrite length_app in Hgt; simpl in Hgt; lia].
    rewrite firstn_all, take_app_length.
    replace (length pre + 1) with (length (pre ++ [x])) by (rewrite length_app; reflexivity).
    replace (pre ++ x :: rest) with ((pre ++ [x]) ++ rest) at 1
      by (rewrite <- app_assoc; reflexivity).
    rewrite drop_app_length. reflexivity.
  - intros j a Hj Ha. simpl in Hj.
    rewrite lookup_app_l in Ha by lia.
    rewrite Forall_forall in Hpre. apply Hpre.
    apply list_elem_of_lookup. eauto.
  - rewrite length_app. lia.
Qed.

(** X4: [RemoveAccount] returns an error exactly when no account bears the
    name, and the error says so. *)
Theorem RemoveAccount_error_iff_absent p name :
  (Forall (fun b => Project.name b <> name) (State.accounts p) ->
   State.RemoveAccount name p
   = Err (ErrorString ("account named " +:+ name +:+ " does not exist in configuration")))
  /\ (forall e, State.RemoveAccount name p = Err e ->
                Forall (fun b => Project.name b <> name) (State.accounts p)).
Proof.
  unfold State.RemoveAccount. split.
  - intros H. apply AccountByName_None_iff in H. rewrite H. reflexivity.
  - intros e H.
    destruct (State.AccountByName p name) eqn:Ef; [| apply AccountByName_None_iff, Ef].
    exfalso.
    destruct (State.RemoveAccount_loop _ _ _ _ _) as [[array len] | e' |] eqn:El;
      simpl in H; try discriminate H.
    exact (RemoveAccount_loop_never_Err _ _ _ _ _ _ El).
Qed.

(** The one account of the name taken out. *)
Lemma RemoveAccount_one p name pre x post :
  State.accounts p = pre ++ x :: post ->
  Forall (fun b => Project.name b <> name) pre ->
  Project.name x = name ->
  Forall (fun b => Project.name b <> name) post ->
  State.RemoveAccount name p = Ok (State.with_accounts (pre ++ post) p).
Proof.
  intros Hsplit Hpre Hx Hpost. unfold State.RemoveAccount.
  assert (Hfound : State.AccountByName p name = Some x).
  { apply AccountByName_Some_iff. exists pre, post. auto. }
  rewrite Hfound, Hsplit.
  replace (length (pre ++ x :: post)) with (length pre + S (length post)) at 1
    by (rewrite length_app; reflexivity).
  rewrite (RemoveAccount_loop_first name pre x post (length post) Hpre Hx).
  set (D := drop (length (pre ++ x :: post) - 1) (pre ++ x :: post)).
  assert (Htake : take (length (pre ++ x :: post) - 1) (pre ++ post ++ D) = pre ++ post).
  { rewrite app_assoc. apply take_app_length'. rewrite !length_app. simpl. lia. }
  destruct post as [|y post].
  { change (length (@nil Project.Account)) with 0.
    cbn [State.RemoveAccount_loop]. unfold mbind, result_bind. cbv beta iota.
    rewrite Htake. reflexivity. }
  assert (HD : Forall (fun b => Project.name b <> name) ((y :: post) ++ D)).
  { apply Forall_app. split; [exact Hpost |]. subst D.
    replace (length (pre ++ x :: y :: post) - 1) with (length pre + S (length post))
      by (rewrite length_app; simpl; lia).
    rewrite drop_app, drop_ge by lia.
    replace (length pre + S (length post) - length pre) with (S (length post)) by lia.
    simpl. apply Forall_drop. exact Hpost. }
  replace (length (y :: post)) with (length (y :: post) + 0) at 1 by lia.
  rewrite RemoveAccount_loop_prefix.
  - cbn [State.RemoveAccount_loop]. unfold mbind, result_bind. cbv beta iota.
    rewrite Htake. reflexivity.
  - intros j a Hj Ha.
    rewrite lookup_app_r in Ha by lia.
    rewrite Forall_forall in HD. apply HD.
    apply list_elem_of_lookup. eauto.
  - subst D. rewrite !length_app, length_drop, length_app. simpl. lia.
Qed.

Lemma NoDup_app_middle (l1 l2 : list string) x :
  NoDup (l1 ++ x :: l2) -> NoDup (l1 ++ l2) /\ (x ∉ l1) /\ (x ∉ l2).
Proof.
  intros H. apply NoDup_app in H as (H1 & Hdisj & H2).
  apply NoDup_cons in H2 as [Hx H2].
  split; [| split; [| exact Hx]].
  - apply NoDup_app. split; [exact H1 |]. split; [| exact H2].
    intros y Hy Hy'. apply (Hdisj y Hy). right. exact Hy'.
  - intros Hin. apply (Hdisj x Hin). left.
Qed.

Lemma not_elem_names name (l : list State.Account) :
  name ∉ map Project.name l -> Forall (fun b => Project.name b <> name) l.
Proof.
  intros H. apply Forall_forall. intros b Hb Hname. apply H.
  rewrite <- Hname. apply list_elem_of_In, in_map, list_elem_of_In, Hb.
Qed.

(** X5: on a state whose account names are pairwise different,
    [RemoveAccount] of a name some account bears returns no error and
    leaves the other accounts in their order; the name is then looked up in
    vain, every other name is looked up as before, and the names are still
    pairwise different. *)
Theorem RemoveAccount_unique p name :
  NoDup (map Project.name (State.accounts p)) ->
  State.AccountByName p name <> None ->
  exists pre x post,
    State.accounts p = pre ++ x :: post
    /\ Project.name x = name
    /\ State.RemoveAccount name p = Ok (State.with_accounts (pre ++ post) p)
    /\ State.AccountByName (State.with_accounts (pre ++ post) p) name = None
    /\ (forall other, other <> name ->
          State.AccountByName (State.with_accounts (pre ++ post) p) other
          = State.AccountByName p other)
    /\ NoDup (map Project.name (pre ++ post)).
Proof.
  intros Hnodup Hfound.
  destruct (first_named name (State.accounts p))
    as [Habsent | (pre & x & post & Hsplit & Hpre & Hx)].
  { exfalso. apply Hfound, AccountByName_None_iff, Habsent. }
  rewrite Hsplit, map_app in Hnodup. simpl in Hnodup.
  apply NoDup_app_middle in Hnodup as (Hnodup & _ & Hpost).
  rewrite Hx in Hpost. apply not_elem_names in Hpost.
  exists pre, x, post.
  split; [exact Hsplit |]. split; [exact Hx |].
  split; [apply (RemoveAccount_one p name pre x post Hsplit Hpre Hx Hpost) |].
  split; [| split].
  - apply AccountByName_None_iff. simpl. apply Forall_app. auto.
  - intros other Hother. unfold State.AccountByName. simpl. rewrite Hsplit.
    rewrite !AccountByName_loop_app. simpl.
    destruct (String.eqb_spec (Project.name x) other); [congruence | reflexivity].
  - rewrite map_app. exact Hnodup.
Qed.

(** X6: when the last account bears the name and an earlier account bears
    it too, [RemoveAccount] panics: after the first removal the loop still
    reads the last cell of the array and slices [p.accounts] beyond its
    length. *)
Theorem RemoveAccount_panics_on_trailing_duplicate p name l z :
  State.accounts p = l ++ [z] ->
  Project.name z = name ->
  Exists (fun b => Project.name b = name) l ->
  State.RemoveAccount name p = Panic.
Proof.
  intros Hsplit Hz Hdup. unfold State.RemoveAccount.
  assert (Hfound : State.AccountByName p name = Some z).
  { apply AccountByName_Some_iff. exists l, []. repeat split; [exact Hsplit | exact Hz |].
    constructor. }
  rewrite Hfound.
  destruct (first_named name l) as [Habsent | (pre & x & mid & -> & Hpre & Hx)].
  { exfalso. apply Exists_exists in Hdup as (b & Hb & Hname).
    rewrite Forall_forall in Habsent. exact (Habsent b Hb Hname). }
  rewrite Hsplit, <- app_assoc. simpl.
  replace (length (pre ++ x :: mid ++ [z])) with (length pre + S (length (mid ++ [z]))) at 1
    by (rewrite !length_app; simpl; rewrite length_app; reflexivity).
  rewrite (RemoveAccount_loop_first name pre x (mid ++ [z]) (length (mid ++ [z])) Hpre Hx).
  assert (HD : drop (length (pre ++ x :: mid ++ [z]) - 1) (pre ++ x :: mid ++ [z]) = [z]).
  { replace (pre ++ x :: mid ++ [z]) with ((pre ++ x :: mid) ++ [z])
      by (rewrite <- app_assoc; reflexivity).
    replace (length ((pre ++ x :: mid) ++ [z]) - 1) with (length (pre ++ x :: mid))
      by (rewrite (length_app _ [z]); simpl; lia).
    apply drop_app_length. }
  rewrite HD.
  rewrite (RemoveAccount_loop_doomed name _ _ _ _ z); [reflexivity | | | | | exact Hz].
  - rewrite length_app. simpl. lia.
  - rewrite !length_app. simpl. lia.
  - rewrite !length_app. simpl. rewrite !length_app. simpl. lia.
  - replace (pre ++ (mid ++ [z]) ++ [z]) with ((pre ++ mid ++ [z]) ++ [z])
      by (rewrite <- !app_assoc; reflexivity).
    rewrite (length_app _ [z]). simpl.
    replace (length (pre ++ mid ++ [z]) + 1 - 1) with (length (pre ++ mid ++ [z])) by lia.
    apply list_lookup_middle. reflexivity.
Qed.

End Accounts.

Section Configuration.
Context {Config : Type}.
Variable Deployments_GetByNetwork : Config -> string -> list State.Deploy.
Variable Deployments_GetByAccountAndNetwork : Config -> string -> string -> list State.Deploy.
Variable Contracts_GetByNameAndNetwork : Config -> string -> string -> option State.ConfigContract.
Variable Contracts_GetByNetwork : Config -> string -> list State.ConfigContract.
Variable IsAlias : State.ConfigContract -> bool.
Variable path_Clean : string -> string.
Variable ContainsString : list string -> string -> bool.
Variable p : State.State Config.
Variable network : string.

#[local] Abbreviation hasDeployments a :=
  (Deployments_GetByAccountAndNetwork (State.conf p) (Project.name a) network <> []).

Lemma AccountNamesForNetwork_loop_spec rest : forall names,
  (forall l s, ContainsString l s = true <-> In s l) ->
  NoDup names ->
  NoDup (State.AccountNamesForNetwork_loop Deployments_GetByAccountAndNetwork ContainsString
           p network rest names)
  /\ forall n,
      In n (State.AccountNamesForNetwork_loop Deployments_GetByAccountAndNetwork ContainsString
              p network rest names)
      <-> In n names \/ exists a, In a rest /\ Project.name a = n /\ hasDeployments a.
Proof.
  induction rest as [|a rest IH]; intros names Hcontains Hnodup; simpl.
  - split; [exact Hnodup |]. intros n. split; [auto |].
    intros [H | (a & [] & _)]. exact H.
  - destruct (Deployments_GetByAccountAndNetwork (State.conf p) (Project.name a) network)
      as [|d ds] eqn:Ed; simpl.
    + destruct (IH names Hcontains Hnodup) as [Hn Hin]. split; [exact Hn |].
      intros n. rewrite Hin. split.
      * intros [H | (b & Hb & Hname & Hdep)]; [auto |]. right. exists b. auto.
      * intros [H | (b & [<- | Hb] & Hname & Hdep)]; [auto | | right; exists b; auto].
        rewrite Ed in Hdep. contradiction.
    + destruct (ContainsString names (Project.name a)) eqn:Ec; simpl.
      * apply Hcontains in Ec.
        destruct (IH names Hcontains Hnodup) as [Hn Hin]. split; [exact Hn |].
        intros n. rewrite Hin. split.
        -- intros [H | (b & Hb & Hname & Hdep)]; [auto |]. right. exists b. auto.
        -- intros [H | (b & [<- | Hb] & Hname & Hdep)];
             [auto | left; rewrite <- Hname; exact Ec | right; exists b; auto].
      * assert (Hnotin : ~ In (Project.name a) names).
        { intros H. apply Hcontains in H. congruence. }
        assert (Hnodup' : NoDup (names ++ [Project.name a])).
        { apply NoDup_app. split; [exact Hnodup |]. split; [| apply NoDup_singleton].
          intros x Hx Hx'. apply list_elem_of_In in Hx, Hx'.
          destruct Hx' as [<- | []]. contradiction. }
        destruct (IH _ Hcontains Hnodup') as [Hn Hin]. split; [exact Hn |].
        intros n. rewrite Hin, in_app_iff. simpl. split.
        -- intros [[H | [<- | []]] | (b & Hb & Hname & Hdep)]; [auto | | right; exists b; auto].
           right. exists a. rewrite Ed. repeat split; [auto | discriminate].
        -- intros [H | (b & [<- | Hb] & Hname & Hdep)];
             [auto | left; right; left; exact Hname | right; exists b; auto].
Qed.

(** X7: with [util.ContainsString] deciding membership, the names
    [AccountNamesForNetwork] returns are pairwise different, and a name is
    returned exactly when an account of that name has a deployment on the
    network. *)
Theorem AccountNamesForNetwork_names :
  (forall l s, ContainsString l s = true <-> In s l) ->
  NoDup (State.AccountNamesForNetwork Deployments_GetByAccountAndNetwork ContainsString
           p network)
  /\ forall n,
      In n (State.AccountNamesForNetwork Deployments_GetByAccountAndNetwork ContainsString
              p network)
      <-> exists a, In a (State.accounts p) /\ Project.name a = n
                    /\ Deployments_GetByAccountAndNetwork (State.conf p) (Project.name a) network
                       <> [].
Proof.
  intros Hcontains. unfold State.AccountNamesForNetwork.
  destruct (AccountNamesForNetwork_loop_spec (State.accounts p) [] Hcontains (NoDup_nil_2))
    as [Hn Hin].
  split; [exact Hn |]. intros n. rewrite Hin. split.
  - intros [[] | H]. exact H.
  - auto.
Qed.

#[local] Abbreviation lookupContract dc :=
  (Contracts_GetByNameAndNetwork (State.conf p) (State.CD_Name dc) network).
#[local] Abbreviation deploymentContracts :=
  (State.deploymentContracts Contracts_GetByNameAndNetwork path_Clean p network).
#[local] Abbreviation deployments :=
  (State.deployments Contracts_GetByNameAndNetwork path_Clean p network).
#[local] Abbreviation deployedAs :=
  (StateProps.deployedAs Contracts_GetByNameAndNetwork path_Clean p network).

Lemma deploymentContracts_Ok d account rest : forall contracts out,
  State.AccountByName p (State.D_Account d) = Some account ->
  deploymentContracts account rest contracts = Ok out ->
  Forall (fun dc => lookupContract dc <> None) rest
  /\ exists l, out = contracts ++ l /\ Forall2 deployedAs (map (pair d) rest) l.
Proof.
  induction rest as [|dc rest IH]; intros contracts out Hacc H; simpl in H.
  - injection H as <-. split; [constructor |]. exists []. rewrite app_nil_r.
    split; [reflexivity | constructor].
  - destruct (lookupContract dc) as [c|] eqn:Ec; [| discriminate H].
    destruct (IH _ _ Hacc H) as (Hfound & l & -> & Hl).
    split; [constructor; [congruence | exact Hfound] |].
    eexists (_ :: l). rewrite <- app_assoc. split; [reflexivity |].
    simpl. constructor; [| exact Hl].
    exists account, c. auto.
Qed.

Lemma deploymentContracts_total account rest : forall contracts,
  Forall (fun dc => lookupContract dc <> None) rest ->
  exists out, deploymentContracts account rest contracts = Ok out.
Proof.
  induction rest as [|dc rest IH]; intros contracts H; simpl.
  - eauto.
  - apply Forall_cons in H as [Hdc Hrest].
    destruct (lookupContract dc); [| contradiction]. apply IH, Hrest.
Qed.

Lemma deploymentContracts_no_panic account rest : forall contracts,
  deploymentContracts account rest contracts <> Panic.
Proof.
  induction rest as [|dc rest IH]; intros contracts; simpl; [discriminate |].
  destruct (lookupContract dc); [apply IH | discriminate].
Qed.

Lemma deployments_Ok rest : forall contracts out,
  deployments rest contracts = Ok out ->
  StateProps.allFound Contracts_GetByNameAndNetwork p network rest
  /\ exists l, out = contracts ++ l /\ Forall2 deployedAs (StateProps.pairs rest) l.
Proof.
  induction rest as [|d rest IH]; intros contracts out H; simpl in H.
  - injection H as <-. split; [constructor |]. exists []. rewrite app_nil_r.
    split; [reflexivity | constructor].
  - destruct (State.AccountByName p (State.D_Account d)) as [account|] eqn:Ea;
      [| discriminate H].
    destruct (deploymentContracts account (State.D_Contracts d) contracts)
      as [mid | e |] eqn:Ed; simpl in H; try discriminate H.
    destruct (deploymentContracts_Ok d account _ _ _ Ea Ed) as (Hfound & l1 & -> & Hl1).
    destruct (IH _ _ H) as (Hall & l2 & -> & Hl2).
    split.
    + constructor; [| exact Hall]. split; [congruence | exact Hfound].
    + exists (l1 ++ l2). rewrite app_assoc. split; [reflexivity |].
      unfold StateProps.pairs. simpl. apply Forall2_app; assumption.
Qed.

Lemma deployments_total rest : forall contracts,
  StateProps.allFound Contracts_GetByNameAndNetwork p network rest ->
  exists out, deployments rest contracts = Ok out.
Proof.
  induction rest as [|d rest IH]; intros contracts H; simpl.
  - eauto.
  - apply Forall_cons in H as [[Hacc Hd] Hrest].
    destruct (State.AccountByName p (State.D_Account d)) as [account|]; [| contradiction].
    destruct (deploymentContracts_total account _ contracts Hd) as (mid & ->). simpl.
    apply IH, Hrest.
Qed.

Lemma deployments_no_panic rest : forall contracts,
  deployments rest contracts <> Panic.
Proof.
  induction rest as [|d rest IH]; intros contracts; simpl; [discriminate |].
  destruct (State.AccountByName p (State.D_Account d)) as [account|]; [| discriminate].
  destruct (deploymentContracts account (State.D_Contracts d) contracts) eqn:Ed; simpl.
  - apply IH.
  - discriminate.
  - exfalso. exact (deploymentContracts_no_panic _ _ _ Ed).
Qed.

(** X8: [DeploymentContractsByNetwork] returns contracts exactly when every
    deployment of the network names an account of the state and every
    deployment contract a configured contract; it then returns one contract
    per deployment contract, in the order of the deployments, each named and
    sourced by its configured contract and targeted at the address of its
    deployment's account.  Otherwise it returns an error; it never panics. *)
Theorem DeploymentContractsByNetwork_complete :
  (forall contracts,
      State.DeploymentContractsByNetwork Deployments_GetByNetwork
        Contracts_GetByNameAndNetwork path_Clean p network = Ok contracts ->
      StateProps.allFound Contracts_GetByNameAndNetwork p network
        (Deployments_GetByNetwork (State.conf p) network)
      /\ Forall2 deployedAs
           (StateProps.pairs (Deployments_GetByNetwork (State.conf p) network)) contracts)
  /\ (StateProps.allFound Contracts_GetByNameAndNetwork p network
        (Deployments_GetByNetwork (State.conf p) network) ->
      exists contracts,
        State.DeploymentContractsByNetwork Deployments_GetByNetwork
          Contracts_GetByNameAndNetwork path_Clean p network = Ok contracts)
  /\ State.DeploymentContractsByNetwork Deployments_GetByNetwork
       Contracts_GetByNameAndNetwork path_Clean p network <> Panic.
Proof.
  unfold State.DeploymentContractsByNetwork. split; [| split].
  - intros contracts H.
    destruct (deployments_Ok _ _ _ H) as (Hall & l & -> & Hl). auto.
  - apply deployments_total.
  - apply deployments_no_panic.
Qed.

End Configuration.

(** [funk.Uniq] keeps every element once. *)
Lemma In_Uniq x l : In x (State.Uniq l) <-> In x l.
Proof.
  induction l as [|y l IH]; simpl; [reflexivity |].
  rewrite filter_In, IH. split.
  - intros [H | [H _]]; auto.
  - intros [H | H]; [auto |].
    destruct (String.eqb_spec x y) as [-> | Hne]; [auto |].
    right. split; [exact H | reflexivity].
Qed.

Lemma Uniq_length_le l : length (State.Uniq l) <= length l.
Proof.
  induction l as [|y l IH]; simpl; [lia |].
  pose proof (filter_length_le (fun z => negb (String.eqb z y)) (State.Uniq l)). lia.
Qed.

Lemma filter_all_length {A} (f : A -> bool) (l : list A) :
  length (List.filter f l) = length l -> forall x, In x l -> f x = true.
Proof.
  induction l as [|y l IH]; simpl; intros H x Hx; [contradiction |].
  pose proof (filter_length_le f l) as Hle.
  destruct (f y) eqn:Ey; simpl in H; [| lia].
  destruct Hx as [<- | Hx]; [exact Ey |]. apply IH; [lia | exact Hx].
Qed.

Lemma Uniq_length_iff l : length (State.Uniq l) = length l <-> NoDup l.
Proof.
  induction l as [|y l IH]; simpl.
  - split; [intros _; apply NoDup_nil_2 | reflexivity].
  - pose proof (filter_length_le (fun z => negb (String.eqb z y)) (State.Uniq l)) as Hf.
    pose proof (Uniq_length_le l) as Hu.
    split.
    + intros H. apply NoDup_cons. split.
      * intros Hin. apply list_elem_of_In in Hin. apply (proj2 (In_Uniq _ _)) in Hin.
        assert (Hy : (fun z => negb (String.eqb z y)) y = true).
        { apply (filter_all_length (fun z => negb (String.eqb z y)) (State.Uniq l));
            [lia | exact Hin]. }
        simpl in Hy.
        rewrite String.eqb_refl in Hy. discriminate Hy.
      * apply IH. lia.
    + intros H. apply NoDup_cons in H as [Hnotin Hl].
      apply IH in Hl.
      rewrite forallb_filter_id; [rewrite Hl; reflexivity |].
      apply forallb_forall. intros z Hz.
      apply (proj1 (In_Uniq _ _)) in Hz.
      apply negb_true_iff. apply String.eqb_neq. intros ->.
      apply Hnotin, list_elem_of_In, Hz.
Qed.

Section Contracts.
Context {Config : Type}.
Variable Deployments_GetByNetwork : Config -> string -> list State.Deploy.
Variable Contracts_GetByNameAndNetwork : Config -> string -> string -> option State.ConfigContract.
Variable Contracts_GetByNetwork : Config -> string -> list State.ConfigContract.
Variable IsAlias : State.ConfigContract -> bool.
Variable path_Clean : string -> string.
Variable p : State.State Config.
Variable network : string.

(** X9: [ContractConflictExists] answers true exactly when the contracts of
    the network's deployments are found and two of them have one name; when
    they are not found it answers false. *)
Theorem ContractConflictExists_iff_duplicate_name :
  State.ContractConflictExists Deployments_GetByNetwork Contracts_GetByNameAndNetwork
    path_Clean p network = true
  <-> exists contracts,
      State.DeploymentContractsByNetwork Deployments_GetByNetwork
        Contracts_GetByNameAndNetwork path_Clean p network = Ok contracts
      /\ ~ NoDup (map State.Name contracts).
Proof.
  unfold State.ContractConflictExists.
  destruct (State.DeploymentContractsByNetwork _ _ _ _ _) as [contracts | e |].
  - rewrite negb_true_iff, Nat.eqb_neq. split.
    + intros H. exists contracts. split; [reflexivity |].
      intros Hnodup. apply Uniq_length_iff in Hnodup. congruence.
    + intros (contracts' & Heq & Hdup) Hlen. injection Heq as <-.
      apply Hdup, Uniq_length_iff. congruence.
  - split; [discriminate |]. intros (contracts & Heq & _). discriminate Heq.
  - split; [discriminate |]. intros (contracts & Heq & _). discriminate Heq.
Qed.

#[local] Abbreviation aliased path :=
  (fun contract : State.ConfigContract =>
     IsAlias contract && String.eqb (path_Clean (State.CC_Source contract)) path).

Lemma AliasesForNetwork_loop_lookup path rest : forall aliases,
  State.AliasesForNetwork_loop IsAlias path_Clean rest aliases !! path
  = match last (List.filter (aliased path) rest) with
    | Some contract => Some (State.CC_Alias contract)
    | None => aliases !! path
    end.
Proof.
  induction rest as [|contract rest IH]; intros aliases; simpl; [reflexivity |].
  destruct (IsAlias contract) eqn:Ealias; simpl; [| apply IH].
  rewrite IH.
  destruct (String.eqb_spec (path_Clean (State.CC_Source contract)) path) as [Hpath | Hpath].
  - rewrite last_cons.
    destruct (last (List.filter (aliased path) rest)); [reflexivity |].
    rewrite Hpath. apply lookup_insert_eq.
  - destruct (last (List.filter (aliased path) rest)); [reflexivity |].
    apply lookup_insert_ne. exact Hpath.
Qed.

(** X10: in the aliases of a network a path is bound exactly when some
    contract of the network is an alias and has that path as its cleaned
    source, and it is bound to the alias of the last such contract. *)
Theorem AliasesForNetwork_lookup path :
  State.AliasesForNetwork Contracts_GetByNetwork IsAlias path_Clean p network !! path
  = State.CC_Alias
      <$> last (List.filter (aliased path) (Contracts_GetByNetwork (State.conf p) network)).
Proof.
  unfold State.AliasesForNetwork. rewrite AliasesForNetwork_loop_lookup.
  destruct (last _); [reflexivity | apply lookup_empty].
Qed.

End Contracts.

(** alice and bob; bob replaced by another account of his name. *)
Lemma AddOrUpdateAccount_lookup_witness :
  NoDup (map Project.name
           (State.accounts (State.AddOrUpdateAccount SampleState.bob2 SampleState.project)))
  /\ State.AccountByName (State.AddOrUpdateAccount SampleState.bob2 SampleState.project) "bob"
     = Some SampleState.bob2.
Proof.
  apply (AddOrUpdateAccount_lookup SampleState.bob2 SampleState.project).
  apply (bool_decide_unpack _). reflexivity.
Defined.

Lemma RemoveAccount_error_iff_absent_witness :
  State.RemoveAccount "carol" SampleState.project
  = Err (ErrorString "account named carol does not exist in configuration").
Proof.
  apply (proj1 (RemoveAccount_error_iff_absent SampleState.project "carol")).
  repeat constructor; discriminate.
Defined.

Lemma RemoveAccount_unique_witness :
  exists pre x post,
    State.accounts SampleState.project = pre ++ x :: post
    /\ Project.name x = "alice"
    /\ State.RemoveAccount "alice" SampleState.project
       = Ok (State.with_accounts (pre ++ post) SampleState.project)
    /\ State.AccountByName (State.with_accounts (pre ++ post) SampleState.project) "alice"
       = None
    /\ (forall other, other <> "alice" ->
          State.AccountByName (State.with_accounts (pre ++ post) SampleState.project) other
          = State.AccountByName SampleState.project other)
    /\ NoDup (map Project.name (pre ++ post)).
Proof.
  apply (RemoveAccount_unique SampleState.project "alice").
  - apply (bool_decide_unpack _). reflexivity.
  - discriminate.
Defined.

(** alice, bob and a second bob at the end. *)
Lemma RemoveAccount_panics_on_trailing_duplicate_witness :
  State.RemoveAccount "bob" SampleState.twoBobs = Panic.
Proof.
  apply (RemoveAccount_panics_on_trailing_duplicate SampleState.twoBobs "bob"
           [Sample.alice; Sample.bob] SampleState.bob2).
  - reflexivity.
  - reflexivity.
  - apply Exists_cons_tl, Exists_cons_hd. reflexivity.
Defined.

(** What the loop does there, round by round: the first bob is removed, the
    array keeps the second bob in its last cell, and the third round slices
    beyond the two accounts left. *)
Example RemoveAccount_twoBobs_rounds :
  State.RemoveAccount_loop "bob" 1 0 (State.accounts SampleState.twoBobs) 3
  = Ok ([Sample.alice; Sample.bob; SampleState.bob2], 3)
  /\ State.RemoveAccount_loop "bob" 2 0 (State.accounts SampleState.twoBobs) 3
     = Ok ([Sample.alice; SampleState.bob2; SampleState.bob2], 2)
  /\ State.RemoveAccount_loop "bob" 3 0 (State.accounts SampleState.twoBobs) 3
     = Panic.
Proof. repeat split; reflexivity. Qed.

(** On the emulator alice and bob have deployments; nobody else is named. *)
Lemma AccountNamesForNetwork_names_witness :
  NoDup (State.AccountNamesForNetwork SampleState.GetByAccountAndNetwork
           SampleState.ContainsString SampleState.configured "emulator")
  /\ forall n,
      In n (State.AccountNamesForNetwork SampleState.GetByAccountAndNetwork
              SampleState.ContainsString SampleState.configured "emulator")
      <-> exists a, In a (State.accounts SampleState.configured) /\ Project.name a = n
                    /\ SampleState.GetByAccountAndNetwork (State.conf SampleState.configured)
                         (Project.name a) "emulator" <> [].
Proof.
  apply (AccountNamesForNetwork_names SampleState.GetByAccountAndNetwork
           SampleState.ContainsString SampleState.configured "emulator").
  intros l s. unfold SampleState.ContainsString. rewrite existsb_exists. split.
  - intros (x & Hx & Heq). apply String.eqb_eq in Heq. subst x. exact Hx.
  - intros H. exists s. split; [exact H | apply String.eqb_refl].
Defined.

Example state_samples :
  State.AccountNamesForNetwork SampleState.GetByAccountAndNetwork
    SampleState.ContainsString SampleState.configured "emulator" = ["alice"; "bob"]
  /\ State.ContractConflictExists SampleState.GetByNetwork SampleState.GetByNameAndNetwork
       SampleState.Clean SampleState.configured "emulator" = true
  /\ State.ContractConflictExists SampleState.GetByNetwork SampleState.GetByNameAndNetwork
       SampleState.Clean SampleState.configured "testnet" = false
  /\ State.AliasesForNetwork SampleState.ContractsByNetwork SampleState.IsAlias
       SampleState.Clean SampleState.configured "testnet" !! "cadence/Token.cdc" = Some "0x01".
Proof. repeat split; reflexivity. Qed.

End StateFacts.

(* ------------------------------------------------------------------ *)
(** ** The emulator gateway: snapshots, scripts, blocks, events *)
(* ------------------------------------------------------------------ *)
Module EmuMore.
Import Go Flow.

Section Snapshot.
Context {Emulator : Type}.
Implicit Types (g : Emu.EmulatorGateway Emulator) (name : string).

(** X11: [CreateSnapshot] stores the backend's emulator under the name,
    whatever was stored under it before, and touches neither the backend
    nor the snapshots under other names; [LoadSnapshot] of that name then
    returns no error and leaves the backend driving the emulator it drove
    when the snapshot was taken. *)
Theorem CreateSnapshot_then_LoadSnapshot g name :
  Emu.snapshots (Emu.CreateSnapshot name g) !! name = Some (Emu.GetEmulator (Emu.backend g))
  /\ Emu.backend (Emu.CreateSnapshot name g) = Emu.backend g
  /\ (forall other, other <> name ->
        Emu.snapshots (Emu.CreateSnapshot name g) !! other = Emu.snapshots g !! other)
  /\ snd (Emu.LoadSnapshot name (Emu.CreateSnapshot name g)) = None
  /\ Emu.GetEmulator (Emu.backend (fst (Emu.LoadSnapshot name (Emu.CreateSnapshot name g))))
     = Emu.GetEmulator (Emu.backend g).
Proof.
  unfold Emu.LoadSnapshot, Emu.CreateSnapshot. simpl.
  rewrite lookup_insert_eq. simpl.
  split; [reflexivity |]. split; [reflexivity |]. split; [| split; reflexivity].
  intros other Hother. apply lookup_insert_ne. congruence.
Qed.

Lemma ListSnapshots_elem g name :
  In name (Emu.ListSnapshots g) <-> is_Some (Emu.snapshots g !! name).
Proof.
  unfold Emu.ListSnapshots. rewrite <- list_elem_of_In, list_elem_of_fmap. split.
  - intros ([n e] & -> & H). apply elem_of_map_to_list in H. simpl. eauto.
  - intros [e H]. exists (name, e). split; [reflexivity |].
    apply elem_of_map_to_list. exact H.
Qed.

(** X12: [ListSnapshots] lists each name once, and lists exactly the names
    that [LoadSnapshot] loads without error; a fresh gateway lists none, and
    [CreateSnapshot] adds its name. *)
Theorem ListSnapshots_names g :
  NoDup (Emu.ListSnapshots g)
  /\ (forall name, In name (Emu.ListSnapshots g) <-> snd (Emu.LoadSnapshot name g) = None)
  /\ (forall b : Emulator, Emu.ListSnapshots (Emu.NewEmulatorGateway b) = [])
  /\ (forall name, In name (Emu.ListSnapshots (Emu.CreateSnapshot name g))).
Proof.
  split; [| split; [| split]].
  - unfold Emu.ListSnapshots. apply NoDup_fst_map_to_list.
  - intros name. rewrite ListSnapshots_elem. unfold Emu.LoadSnapshot.
    destruct (Emu.snapshots g !! name) as [e|]; simpl.
    + split; [reflexivity | eauto].
    + split; [intros [e He]; discriminate He | discriminate].
  - intros b. unfold Emu.ListSnapshots, Emu.NewEmulatorGateway. simpl.
    rewrite map_to_list_empty. reflexivity.
  - intros name. apply ListSnapshots_elem. unfold Emu.CreateSnapshot. simpl.
    rewrite lookup_insert_eq. eauto.
Qed.

Lemma step_keeps_handle (b : Emulator) g c :
  Emu.GetEmulator (Emu.backend g) = b ->
  (forall name e, Emu.snapshots g !! name = Some e -> e = b) ->
  Emu.GetEmulator (Emu.backend (Snapshots.step g c)) = b
  /\ (forall name e, Emu.snapshots (Snapshots.step g c) !! name = Some e -> e = b).
Proof.
  intros Hb Hs. destruct c as [n | n]; simpl.
  - split; [exact Hb |]. intros name e.
    destruct (decide (n = name)) as [-> | Hne].
    + rewrite lookup_insert_eq. intros H. injection H as <-. exact Hb.
    + rewrite lookup_insert_ne by exact Hne. apply Hs.
  - unfold Emu.LoadSnapshot.
    destruct (Emu.snapshots g !! n) as [e|] eqn:En; simpl.
    + split; [apply (Hs n e En) | exact Hs].
    + split; [exact Hb | exact Hs].
Qed.

(** X13: over any sequence of [CreateSnapshot] and [LoadSnapshot] calls on
    a new gateway the backend drives the emulator the gateway was built
    with, and every snapshot stored is that same emulator: a snapshot holds
    the backend's emulator itself, so loading one installs the emulator
    already in place. *)
Theorem snapshots_hold_the_live_emulator (b : Emulator) (calls : list Snapshots.call) :
  Emu.GetEmulator (Emu.backend (Snapshots.run calls (Emu.NewEmulatorGateway b))) = b
  /\ (forall name e,
        Emu.snapshots (Snapshots.run calls (Emu.NewEmulatorGateway b)) !! name = Some e ->
        e = b).
Proof.
  unfold Snapshots.run.
  assert (Hgen : forall g,
             Emu.GetEmulator (Emu.backend g) = b ->
             (forall name e, Emu.snapshots g !! name = Some e -> e = b) ->
             Emu.GetEmulator (Emu.backend (fold_left Snapshots.step calls g)) = b
             /\ (forall name e,
                   Emu.snapshots (fold_left Snapshots.step calls g) !! name = Some e -> e = b)).
  { induction calls as [|c calls IH]; intros g Hb Hs; simpl; [auto |].
    destruct (step_keeps_handle b g c Hb Hs) as [Hb' Hs']. apply IH; assumption. }
  apply Hgen; [reflexivity |].
  intros name e H. simpl in H. rewrite lookup_empty in H. discriminate H.
Qed.

End Snapshot.

Section Scripts.
Context {Emulator : Type}.
Variable ops : Emu.BackendOps Emulator.
Variable Sprintf : string -> string.
Variable jsoncdc_Encode : Value -> reply string.
Variable jsoncdc_Decode : string -> reply Value.

#[local] Abbreviation encodes := (fun (v : Value) (m : string) => jsoncdc_Encode v = inl m).

Lemma cadenceValuesToMessages_inl values : forall msgs,
  Emu.cadenceValuesToMessages jsoncdc_Encode values = inl msgs
  <-> Forall2 encodes values msgs.
Proof.
  induction values as [|v values IH]; intros msgs; simpl.
  - split.
    + intros H. injection H as <-. constructor.
    + intros H. inversion H. reflexivity.
  - destruct (jsoncdc_Encode v) as [m | err] eqn:Ev.
    + destruct (Emu.cadenceValuesToMessages jsoncdc_Encode values) as [ms | err] eqn:Er.
      * split.
        -- intros H. injection H as <-. constructor; [exact Ev |]. apply IH. reflexivity.
        -- intros H. inversion H as [|? m' ? ms' Hm Hms]; subst.
           apply IH in Hms. rewrite Ev in Hm. congruence.
      * split; [discriminate |].
        intros H. inversion H as [|? m' ? ms' Hm Hms]; subst.
        apply IH in Hms. discriminate Hms.
    + split; [discriminate |].
      intros H. inversion H as [|? m' ? ms' Hm Hms]; subst. rewrite Ev in Hm. discriminate Hm.
Qed.

Lemma cadenceValuesToMessages_inr values : forall e,
  Emu.cadenceValuesToMessages jsoncdc_Encode values = inr e
  <-> exists pre v post err,
      values = pre ++ v :: post
      /\ Forall (fun u => replied (jsoncdc_Encode u) = true) pre
      /\ jsoncdc_Encode v = inr err
      /\ e = WrapError ("convert: " +:+ Error err) err.
Proof.
  induction values as [|v values IH]; intros e; simpl.
  - split; [discriminate |].
    intros (pre & u & post & err & H & _). destruct pre; discriminate H.
  - destruct (jsoncdc_Encode v) as [m | err] eqn:Ev.
    + destruct (Emu.cadenceValuesToMessages jsoncdc_Encode values) as [ms | err] eqn:Er.
      * split; [discriminate |].
        intros (pre & u & post & err & H & Hpre & Hu & He).
        destruct pre as [|w pre]; simpl in H; injection H as -> ->.
        -- rewrite Ev in Hu. discriminate Hu.
        -- apply Forall_cons in Hpre as [_ Hpre].
           assert (Hex : inl ms = inr e :> reply (list string)); [| discriminate Hex].
           apply IH. exists pre, u, post, err. auto.
      * split.
        -- intros H. injection H as <-.
           destruct (proj1 (IH err) eq_refl) as (pre & u & post & err' & -> & Hpre & Hu & He).
           exists (v :: pre), u, post, err'. repeat split; try assumption.
           constructor; [rewrite Ev; reflexivity | exact Hpre].
        -- intros (pre & u & post & err' & H & Hpre & Hu & He).
           destruct pre as [|w pre]; simpl in H; injection H as -> ->.
           ++ rewrite Ev in Hu. discriminate Hu.
           ++ apply Forall_cons in Hpre as [_ Hpre].
              apply IH. exists pre, u, post, err'. auto.
    + split.
      * intros H. injection H as <-. exists [], v, values, err. repeat split.
        -- constructor.
        -- exact Ev.
      * intros (pre & u & post & err' & H & Hpre & Hu & He).
        destruct pre as [|w pre]; simpl in H; injection H as -> ->.
        -- rewrite Ev in Hu. injection Hu as <-. rewrite He. reflexivity.
        -- apply Forall_cons in Hpre as [Hw _]. rewrite Ev in Hw. discriminate Hw.
Qed.

(** X14: [cadenceValuesToMessages] returns the encodings of the values, one
    per value and in their order, exactly when every value encodes; it
    fails exactly with the error of the first value that does not encode,
    wrapped behind [convert: ]. *)
Theorem cadenceValuesToMessages_all_or_first_error values :
  (forall msgs,
      Emu.cadenceValuesToMessages jsoncdc_Encode values = inl msgs
      <-> Forall2 encodes values msgs)
  /\ (forall e,
        Emu.cadenceValuesToMessages jsoncdc_Encode values = inr e
        <-> exists pre v post err,
            values = pre ++ v :: post
            /\ Forall (fun u => replied (jsoncdc_Encode u) = true) pre
            /\ jsoncdc_Encode v = inr err
            /\ e = WrapError ("convert: " +:+ Error err) err).
Proof.
  split; [apply cadenceValuesToMessages_inl | apply cadenceValuesToMessages_inr].
Qed.

(** X15: [ExecuteScript] returns a value exactly when every argument
    encodes, the backend executes the script on those encodings, in the
    order of the arguments, and its reply decodes; the value is the decoded
    reply. *)
Theorem ExecuteScript_Ok_iff (g : Emu.EmulatorGateway Emulator) script arguments v :
  Emu.ExecuteScript ops Sprintf jsoncdc_Encode jsoncdc_Decode g script arguments = Ok v
  <-> exists args result,
      Forall2 encodes arguments args
      /\ Emu.be_ExecuteScriptAtLatestBlock ops (Emu.backend_emulator (Emu.backend g))
           script args = inl result
      /\ jsoncdc_Decode result = inl v.
Proof.
  unfold Emu.ExecuteScript, Emu.messageToCadenceValue. split.
  - intros H.
    destruct (Emu.cadenceValuesToMessages jsoncdc_Encode arguments) as [args | e] eqn:Ea;
      simpl in H; [| discriminate H].
    destruct (Emu.be_ExecuteScriptAtLatestBlock ops _ script args) as [result | e] eqn:Er;
      simpl in H; [| discriminate H].
    destruct (jsoncdc_Decode result) as [v' | e] eqn:Ed; simpl in H; [| discriminate H].
    injection H as <-. exists args, result.
    split; [apply cadenceValuesToMessages_inl, Ea | auto].
  - intros (args & result & Ha & Hr & Hd).
    apply cadenceValuesToMessages_inl in Ha. rewrite Ha. simpl.
    rewrite Hr. simpl. rewrite Hd. reflexivity.
Qed.

End Scripts.

Section MoreEvents.
Context {Emulator : Type}.
Variable ops : Emu.BackendOps Emulator.
Variable FlowEventsToSDK : list Emu.GoEvent -> reply (list Event).
Variable g : Emu.EmulatorGateway Emulator.
Variable eventType : string.

#[local] Abbreviation engine := (Emu.backend_emulator (Emu.backend g)).

Lemma getBlockEvent_never_Err height e :
  Emu.getBlockEvent ops FlowEventsToSDK g height eventType <> Err e.
Proof.
  unfold Emu.getBlockEvent.
  destruct (Emu.be_GetBlockByHeight ops engine height); discriminate.
Qed.

Lemma GetEvents_loop_never_Err fuel : forall height endHeight events e,
  Emu.GetEvents_loop ops FlowEventsToSDK fuel g eventType height endHeight events
  <> Some (Err e).
Proof.
  induction fuel as [|fuel IH]; intros height endHeight events e; simpl; [discriminate |].
  destruct (height <=? endHeight)%Z; [| discriminate].
  destruct (Emu.getBlockEvent ops FlowEventsToSDK g height eventType) as [be | e' |] eqn:Eb.
  - apply IH.
  - exfalso. exact (getBlockEvent_never_Err _ _ Eb).
  - discriminate.
Qed.

(** X16: [GetEvents] never returns an error, and with [startHeight] above
    [endHeight] it returns the empty list, whatever the backend holds. *)
Theorem GetEvents_no_error_and_empty_range (startHeight endHeight : Z) :
  (forall fuel e,
      Emu.GetEvents ops FlowEventsToSDK fuel g eventType startHeight endHeight
      <> Some (Err e))
  /\ ((endHeight < startHeight)%Z ->
      forall fuel,
        Emu.GetEvents ops FlowEventsToSDK (S fuel) g eventType startHeight endHeight
        = Some (Ok [])).
Proof.
  split.
  - intros fuel e. apply GetEvents_loop_never_Err.
  - intros Hrange fuel. unfold Emu.GetEvents. simpl.
    destruct (Z.leb_spec startHeight endHeight); [lia | reflexivity].
Qed.

Lemma GetEvents_loop_panics (h endHeight : Z) (extra n : nat) : forall height events,
  (0 <= height)%Z ->
  (height + Z.of_nat n = h)%Z ->
  (h <= endHeight <= MaxUint64)%Z ->
  (forall k, (height <= k < h)%Z -> replied (Emu.be_GetBlockByHeight ops engine k) = true) ->
  replied (Emu.be_GetBlockByHeight ops engine h) = false ->
  Emu.GetEvents_loop ops FlowEventsToSDK (S n + extra) g eventType height endHeight events
  = Some Panic.
Proof.
  induction n as [|n IH]; intros height events H0 Hn Hend Hblocks Hmissing.
  - assert (height = h) as -> by lia. simpl.
    destruct (Z.leb_spec h endHeight); [| lia].
    rewrite (EmuFacts.getBlockEvent_no_block ops FlowEventsToSDK g eventType h Hmissing).
    reflexivity.
  - change (S (S n) + extra) with (S (S n + extra)).
    cbn [Emu.GetEvents_loop].
    destruct (Z.leb_spec height endHeight); [| lia].
    destruct (EmuFacts.getBlockEvent_entry ops FlowEventsToSDK g eventType height)
      as (be & -> & _); [apply Hblocks; lia |].
    rewrite EmuFacts.wrap64_succ by (unfold MaxUint64 in *; lia).
    apply IH; try assumption; try lia.
    intros k Hk. apply Hblocks. lia.
Qed.

(** X17: when the heights from [startHeight] up to a height of the range
    hold blocks and that height holds none, [GetEvents] panics, given fuel
    to reach it: no entry of the heights before is returned. *)
Theorem GetEvents_panics_at_first_missing_block (startHeight h endHeight : Z) (extra : nat) :
  (0 <= startHeight <= h)%Z ->
  (h <= endHeight <= MaxUint64)%Z ->
  (forall k, (startHeight <= k < h)%Z ->
             replied (Emu.be_GetBlockByHeight ops engine k) = true) ->
  replied (Emu.be_GetBlockByHeight ops engine h) = false ->
  Emu.GetEvents ops FlowEventsToSDK (S (Z.to_nat (h - startHeight)) + extra) g eventType
    startHeight endHeight
  = Some Panic.
Proof.
  intros Hstart Hend Hblocks Hmissing. unfold Emu.GetEvents.
  apply (GetEvents_loop_panics h); try assumption; lia.
Qed.

End MoreEvents.

(** On the sample chain the range from 3 down to 1 is empty. *)
Lemma GetEvents_no_error_and_empty_range_witness :
  Emu.GetEvents Sample.chainOps Sample.toSDK 1 Sample.embedded "A.Deposit" 3 1
  = Some (Ok []).
Proof.
  apply (proj2 (GetEvents_no_error_and_empty_range Sample.chainOps Sample.toSDK
                  Sample.embedded "A.Deposit" 3 1)).
  lia.
Defined.

(** The sample chain holds heights 0 to 3: the events of heights 2 to 7. *)
Lemma GetEvents_panics_at_first_missing_block_witness :
  Emu.GetEvents Sample.chainOps Sample.toSDK (S (Z.to_nat (4 - 2)) + 0) Sample.embedded
    "A.Deposit" 2 7
  = Some Panic.
Proof.
  apply (GetEvents_panics_at_first_missing_block Sample.chainOps Sample.toSDK Sample.embedded
           "A.Deposit" 2 4 7 0).
  - lia.
  - unfold MaxUint64. lia.
  - intros k Hk. assert (k = 2 \/ k = 3)%Z as [-> | ->] by lia; reflexivity.
  - reflexivity.
Defined.

End EmuMore.

(* ------------------------------------------------------------------ *)
(** ** The signing pipeline of the gRPC gateway *)
(* ------------------------------------------------------------------ *)
Module GrpcMore.
Import Go Flow Props.

Section Pipeline.
Variable Sign : Project.Transaction -> reply Project.Transaction.
Variable g : Grpc.GrpcGateway.

#[local] Abbreviation fetched a :=
  (Grpc.GetAccountAtLatestBlock (Grpc.client g) (Grpc.ctx g) a).
#[local] Abbreviation header :=
  (Grpc.GetLatestBlockHeader (Grpc.client g) (Grpc.ctx g) true).

(** The preparation, case by case, for a transaction with a signer. *)
Lemma Prepare_cases tx s :
  Project.Signer tx = Some s ->
  Grpc.PrepareTransactionPayload g tx
  = match fetched (proposalAddress tx s) with
    | inr err =>
        Err (WrapError ("failed to get account with address "
                          +:+ Address_String (proposalAddress tx s) +:+ ": " +:+ Error err)
               err)
    | inl proposer =>
        match index (Keys proposer) (Project.Index (Project.DefaultKey s)) with
        | Ok proposerKey =>
            match header with
            | inr err =>
                Err (WrapError ("failed to get latest sealed block: " +:+ Error err) err)
            | inl sealed =>
                Ok (Project.with_FlowTransaction
                      (SetProposalKey (proposalAddress tx s) (KeyIndex proposerKey)
                         (SequenceNumber proposerKey)
                         (SetGasLimit Grpc.defaultGasLimit
                            (SetReferenceBlockID (ID sealed) (Project.FlowTransaction tx))))
                      tx)
            end
        | _ => Panic
        end
    end.
Proof.
  intros Hs. unfold Grpc.PrepareTransactionPayload, Grpc.GetAccount, proposalAddress.
  rewrite Hs. destruct (fetched _) as [proposer | err]; simpl; [| reflexivity].
  destruct (index _ _) as [k | e |] eqn:Ek; simpl; try reflexivity.
  exfalso. exact (GrpcFacts.index_never_Err _ _ _ Ek).
Qed.

(** X18: a preparation that succeeds changes of the transaction only the
    reference block, the gas limit and the proposal key: signer, proposer,
    script, payer and authorizers are as before, and the proposal key
    names the proposer's address, or the signer's without a proposer. *)
Theorem PrepareTransactionPayload_frame tx tx' :
  Grpc.PrepareTransactionPayload g tx = Ok tx' ->
  Project.Signer tx' = Project.Signer tx
  /\ Project.Proposer tx' = Project.Proposer tx
  /\ Script (Project.FlowTransaction tx') = Script (Project.FlowTransaction tx)
  /\ TxPayer (Project.FlowTransaction tx') = TxPayer (Project.FlowTransaction tx)
  /\ Authorizers (Project.FlowTransaction tx') = Authorizers (Project.FlowTransaction tx)
  /\ exists s, Project.Signer tx = Some s
               /\ PKAddress (TxProposalKey (Project.FlowTransaction tx'))
                  = match Project.Proposer tx with
                    | Some p => Project.address p
                    | None => Project.address s
                    end.
Proof.
  intros H. apply GrpcFacts.Prepare_Ok_inv in H.
  destruct H as (s & proposer & proposerKey & sealed & Hs & _ & _ & _ & ->).
  repeat (split; [reflexivity |]). exists s. split; [exact Hs | reflexivity].
Qed.

(** X19: the preparation returns an error in two cases only, both for a
    transaction with a signer: the proposer's account is not fetched, and
    the error wraps the client's behind the address; or the account is
    fetched, the signer's key index is a position of its key list and the
    sealed header is not fetched, and the error wraps the client's.  It
    panics exactly without a signer, or when the account is fetched and
    the index is no position of its key list, whatever the header query
    would answer. *)
Theorem PrepareTransactionPayload_failures tx :
  (forall e,
      Grpc.PrepareTransactionPayload g tx = Err e
      <-> exists s, Project.Signer tx = Some s
          /\ ((exists err,
                  fetched (proposalAddress tx s) = inr err
                  /\ e = WrapError ("failed to get account with address "
                                      +:+ Address_String (proposalAddress tx s)
                                      +:+ ": " +:+ Error err) err)
              \/ (exists proposer err,
                     fetched (proposalAddress tx s) = inl proposer
                     /\ (0 <= Project.Index (Project.DefaultKey s)
                         < Z.of_nat (length (Keys proposer)))%Z
                     /\ header = inr err
                     /\ e = WrapError ("failed to get latest sealed block: " +:+ Error err)
                              err)))
  /\ (Grpc.PrepareTransactionPayload g tx = Panic
      <-> Project.Signer tx = None
          \/ exists s proposer,
               Project.Signer tx = Some s
               /\ fetched (proposalAddress tx s) = inl proposer
               /\ ~ (0 <= Project.Index (Project.DefaultKey s)
                     < Z.of_nat (length (Keys proposer)))%Z).
Proof.
  destruct (Project.Signer tx) as [s|] eqn:Hs.
  2: { split.
       - intros e. split.
         + unfold Grpc.PrepareTransactionPayload. rewrite Hs. discriminate.
         + intros (s & Hs' & _). discriminate Hs'.
       - split; [auto |]. intros _.
         unfold Grpc.PrepareTransactionPayload. rewrite Hs. reflexivity. }
  rewrite (Prepare_cases tx s Hs).
  destruct (fetched (proposalAddress tx s)) as [proposer | err] eqn:Ef.
  - destruct (Z_lt_dec (Project.Index (Project.DefaultKey s)) 0) as [Hneg | Hpos].
    + rewrite GrpcFacts.index_out_of_range by lia. split.
      * intros e. split; [discriminate |].
        intros (s' & Hs' & [(err & Hf & _) | (p & err & Hf & Hi & _)]);
          injection Hs' as <-; [rewrite Ef in Hf; discriminate Hf |].
        rewrite Ef in Hf. injection Hf as <-. lia.
      * split; [| reflexivity]. intros _. right. exists s, proposer.
        repeat split; try assumption; try reflexivity. lia.
    + destruct (Z_lt_dec (Project.Index (Project.DefaultKey s))
                         (Z.of_nat (length (Keys proposer)))) as [Hin | Hout].
      * destruct (GrpcFacts.index_in_range (Keys proposer)
                    (Project.Index (Project.DefaultKey s))) as (k & _ & ->); [lia |].
        destruct header as [sealed | err] eqn:Eh.
        -- split.
           ++ intros e. split; [discriminate |].
              intros (s' & Hs' & [(err & Hf & _) | (p & err & _ & _ & Hh & _)]);
                injection Hs' as <-; [rewrite Ef in Hf; discriminate Hf | discriminate Hh].
           ++ split; [discriminate |].
              intros [Hn | (s' & p & Hs' & Hf & Hi)]; [discriminate Hn |].
              injection Hs' as <-. rewrite Ef in Hf. injection Hf as <-. lia.
        -- split.
           ++ intros e. split.
              ** intros H. injection H as <-. exists s. split; [reflexivity |].
                 right. exists proposer, err. repeat split; try assumption; try reflexivity; lia.
              ** intros (s' & Hs' & [(err' & Hf & _) | (p & err' & _ & _ & Hh & ->)]);
                   injection Hs' as <-; [rewrite Ef in Hf; discriminate Hf |].
                 injection Hh as <-. reflexivity.
           ++ split; [discriminate |].
              intros [Hn | (s' & p & Hs' & Hf & Hi)]; [discriminate Hn |].
              injection Hs' as <-. rewrite Ef in Hf. injection Hf as <-. lia.
      * rewrite GrpcFacts.index_out_of_range by lia. split.
        -- intros e. split; [discriminate |].
           intros (s' & Hs' & [(err & Hf & _) | (p & err & Hf & Hi & _)]);
             injection Hs' as <-; [rewrite Ef in Hf; discriminate Hf |].
           rewrite Ef in Hf. injection Hf as <-. lia.
        -- split; [| reflexivity]. intros _. right. exists s, proposer.
           repeat split; try assumption; try reflexivity; lia.
  - split.
    + intros e. split.
      * intros H. injection H as <-. exists s. split; [reflexivity |]. left. exists err. auto.
      * intros (s' & Hs' & [(err' & Hf & ->) | (p & err' & Hf & _)]);
          injection Hs' as <-; [| rewrite Ef in Hf; discriminate Hf].
        rewrite Ef in Hf. injection Hf as <-. reflexivity.
    + split; [discriminate |].
      intros [Hn | (s' & p & Hs' & Hf & _)]; [discriminate Hn |].
      injection Hs' as <-. rewrite Ef in Hf. discriminate Hf.
Qed.

(** X20: [SendTransaction] prepares, signs and submits, in that order.  It
    returns a transaction exactly when the preparation succeeds, the
    prepared transaction is signed and the client accepts the signed one,
    and it returns the signed one.  It returns an error exactly when the
    preparation does, with that error; or the signing fails, with the
    signing error wrapped; or the client rejects the signed transaction,
    with the client's error wrapped. *)
Theorem SendTransaction_pipeline tx :
  (forall sent,
      Grpc.SendTransaction Sign g tx = Ok sent
      <-> exists prepared signed,
          Grpc.PrepareTransactionPayload g tx = Ok prepared
          /\ Sign prepared = inl signed
          /\ Grpc.client_SendTransaction (Grpc.client g) (Grpc.ctx g)
               (Project.FlowTransaction signed) = None
          /\ sent = Project.FlowTransaction signed)
  /\ (forall e,
        Grpc.SendTransaction Sign g tx = Err e
        <-> Grpc.PrepareTransactionPayload g tx = Err e
            \/ (exists prepared err,
                   Grpc.PrepareTransactionPayload g tx = Ok prepared
                   /\ Sign prepared = inr err
                   /\ e = WrapError ("failed to sign transaction: " +:+ Error err) err)
            \/ (exists prepared signed err,
                   Grpc.PrepareTransactionPayload g tx = Ok prepared
                   /\ Sign prepared = inl signed
                   /\ Grpc.client_SendTransaction (Grpc.client g) (Grpc.ctx g)
                        (Project.FlowTransaction signed) = Some err
                   /\ e = WrapError ("failed to submit transaction: " +:+ Error err) err)).
Proof.
  unfold Grpc.SendTransaction, Grpc.SendSignedTransaction.
  destruct (Grpc.PrepareTransactionPayload g tx) as [prepared | e0 |]; simpl.
  - destruct (Sign prepared) as [signed | err] eqn:Es.
    + destruct (Grpc.client_SendTransaction _ _ _) as [err|] eqn:Ec.
      * split.
        -- intros sent. split; [discriminate |].
           intros (p & sg & Hp & Hs & Hc & _). injection Hp as <-.
           rewrite Es in Hs. injection Hs as <-. rewrite Ec in Hc. discriminate Hc.
        -- intros e. split.
           ++ intros H. injection H as <-. right. right.
              exists prepared, signed, err. auto.
           ++ intros [H | [(p & err' & Hp & Hs & _) | (p & sg & err' & Hp & Hs & Hc & ->)]].
              ** discriminate H.
              ** injection Hp as <-. rewrite Es in Hs. discriminate Hs.
              ** injection Hp as <-. rewrite Es in Hs. injection Hs as <-.
                 rewrite Ec in Hc. injection Hc as <-. reflexivity.
      * split.
        -- intros sent. split.
           ++ intros H. injection H as <-. exists prepared, signed. auto.
           ++ intros (p & sg & Hp & Hs & _ & ->). injection Hp as <-.
              rewrite Es in Hs. injection Hs as <-. reflexivity.
        -- intros e. split; [discriminate |].
           intros [H | [(p & err' & Hp & Hs & _) | (p & sg & err' & Hp & Hs & Hc & _)]].
           ++ discriminate H.
           ++ injection Hp as <-. rewrite Es in Hs. discriminate Hs.
           ++ injection Hp as <-. rewrite Es in Hs. injection Hs as <-.
              rewrite Ec in Hc. discriminate Hc.
    + split.
      * intros sent. split; [discriminate |].
        intros (p & sg & Hp & Hs & _). injection Hp as <-. rewrite Es in Hs. discriminate Hs.
      * intros e. split.
        -- intros H. injection H as <-. right. left. exists prepared, err. auto.
        -- intros [H | [(p & err' & Hp & Hs & ->) | (p & sg & err' & Hp & Hs & _)]].
           ++ discriminate H.
           ++ injection Hp as <-. rewrite Es in Hs. injection Hs as <-. reflexivity.
           ++ injection Hp as <-. rewrite Es in Hs. discriminate Hs.
  - split.
    + intros sent. split; [discriminate |]. intros (p & sg & Hp & _). discriminate Hp.
    + intros e. split.
      * intros H. injection H as <-. left. reflexivity.
      * intros [H | [(p & err' & Hp & _) | (p & sg & err' & Hp & _)]];
          [injection H as <-; reflexivity | discriminate Hp | discriminate Hp].
  - split.
    + intros sent. split; [discriminate |]. intros (p & sg & Hp & _). discriminate Hp.
    + intros e. split; [discriminate |].
      intros [H | [(p & err' & Hp & _) | (p & sg & err' & Hp & _)]]; discriminate.
Qed.

End Pipeline.

(** alice stages gas 9999 on the sample network: prepared, stamped by the
    signing step and accepted. *)
Example SendTransaction_sample :
  Grpc.SendTransaction SampleGrpc.stamp Sample.gateway (Sample.txOf Sample.alice None 9999)
  = Ok {| Script := "transaction {}"; ReferenceBlockID := 777; GasLimit := 1000;
          TxProposalKey := {| PKAddress := 1; PKKeyIndex := 0; PKSequenceNumber := 40 |};
          TxPayer := 9; Authorizers := [1%N] |}.
Proof. reflexivity. Qed.

(** With the sealed header out of reach the preparation fails, and with it
    the pipeline. *)
Example SendTransaction_without_header :
  Grpc.SendTransaction SampleGrpc.stamp (Grpc.NewGrpcGateway SampleGrpc.noHeader)
    (Sample.txOf Sample.alice None 9999)
  = Err (WrapError "failed to get latest sealed block: rpc error: code = Unavailable desc = no header"
           (StatusError Unavailable "no header")).
Proof. reflexivity. Qed.

Lemma PrepareTransactionPayload_frame_witness :
  Project.Signer
    (Project.with_FlowTransaction
       {| Script := "transaction {}"; ReferenceBlockID := 777; GasLimit := 1000;
          TxProposalKey := {| PKAddress := 1; PKKeyIndex := 0; PKSequenceNumber := 40 |};
          TxPayer := 1; Authorizers := [1%N] |}
       (Sample.txOf Sample.alice None 9999))
  = Some Sample.alice.
Proof.
  exact (proj1 (PrepareTransactionPayload_frame Sample.gateway
                  (Sample.txOf Sample.alice None 9999) _ eq_refl)).
Defined.

End GrpcMore.

(* ------------------------------------------------------------------ *)
(** ** The [send] command without a signer, and what it submits *)
(* ------------------------------------------------------------------ *)
Module SendMore.
Import Go Props SendProps.

Section Resolution.
Context {State Roles : Type}.
Variable ByName : State -> string -> option Send.Account.
Variable state : State.

#[local] Abbreviation found := (fun (n : string) (a : Send.Account) => ByName state n = Some a).

Lemma lookupAuthorizers_Ok_iff names : forall acc (log : list (Send.effect Roles)) l log',
  Send.lookupAuthorizers ByName state names acc log = (Ok l, log')
  <-> log' = log /\ exists accounts, l = acc ++ accounts /\ Forall2 found names accounts.
Proof.
  induction names as [|n names IH]; intros acc log l log'; simpl.
  - split.
    + intros H. injection H as <- <-. split; [reflexivity |].
      exists []. rewrite app_nil_r. split; [reflexivity | constructor].
    + intros (-> & accounts & -> & H). inversion H. rewrite app_nil_r. reflexivity.
  - destruct (ByName state n) as [a|] eqn:En.
    + rewrite IH. split.
      * intros (-> & accounts & -> & H). split; [reflexivity |].
        exists (a :: accounts). rewrite <- app_assoc. split; [reflexivity |].
        constructor; assumption.
      * intros (-> & accounts & -> & H). split; [reflexivity |].
        inversion H as [|? a' ? accounts' Ha Hrest]; subst.
        rewrite En in Ha. injection Ha as <-.
        exists accounts'. rewrite <- app_assoc. split; [reflexivity | assumption].
    + split; [discriminate |].
      intros (_ & accounts & _ & H). inversion H as [|? a' ? accounts' Ha Hrest]; subst.
      rewrite En in Ha. discriminate Ha.
Qed.

Lemma lookupAuthorizers_log names : forall acc (log : list (Send.effect Roles)),
  snd (Send.lookupAuthorizers ByName state names acc log) = log.
Proof.
  induction names as [|n names IH]; intros acc log; simpl; [reflexivity |].
  destruct (ByName state n); [apply IH | reflexivity].
Qed.

(** The resolution looks accounts up and does nothing to the world. *)
Lemma resolveRoles_log sendFlags buildFlags (log : list (Send.effect Roles)) :
  snd (Send.resolveRoles ByName sendFlags buildFlags state log) = log.
Proof.
  unfold Send.resolveRoles, mbind, Send.M_bind.
  rewrite SendFacts.lookupOptional_eq.
  destruct (String.eqb (Send.Proposer sendFlags) "");
    [| destruct (ByName state (Send.Proposer sendFlags)); [| reflexivity]].
  all: rewrite SendFacts.lookupOptional_eq.
  all: destruct (String.eqb (Send.build_Payer buildFlags) "");
    [| destruct (ByName state (Send.build_Payer buildFlags)); [| reflexivity]].
  all: pose proof (lookupAuthorizers_log (Send.Autorizer sendFlags) [] log) as Hlog.
  all: destruct (Send.lookupAuthorizers ByName state (Send.Autorizer sendFlags) [] log)
         as [[l | e |] log'];
    simpl in Hlog; subst log'; try reflexivity.
  all: destruct (negb (String.eqb (Send.Signer sendFlags) "")); try reflexivity.
  all: simpl;
    try (destruct (0 <? length l)%nat);
    try destruct (ByName state (Send.Signer sendFlags)); reflexivity.
Qed.

(** X21: without the signer name, the roles are resolved one by one.  The
    resolution succeeds exactly when the proposer name and the payer name
    the command reads are each empty or held by the configuration and every
    authorizer name is held by it; the proposer and the payer are then nil
    for an empty name and the named account otherwise, and the authorizers
    are the accounts of the authorizer names, one per name in the order of
    the names, repeated where a name is. *)
Theorem resolveRoles_without_signer sendFlags buildFlags (log : list (Send.effect Roles))
    proposer payer authorizers log' :
  Send.Signer sendFlags = "" ->
  Send.resolveRoles ByName sendFlags buildFlags state log
  = (Ok (proposer, payer, authorizers), log')
  <-> log' = log
      /\ optionalRole ByName state (Send.Proposer sendFlags) proposer
      /\ optionalRole ByName state (Send.build_Payer buildFlags) payer
      /\ Forall2 found (Send.Autorizer sendFlags) authorizers.
Proof.
  intros Hsigner.
  unfold Send.resolveRoles, optionalRole, mbind, Send.M_bind.
  rewrite Hsigner. simpl negb. cbv iota.
  rewrite SendFacts.lookupOptional_eq.
  destruct (String.eqb (Send.Proposer sendFlags) "");
    [| destruct (ByName state (Send.Proposer sendFlags)) as [p|]].
  3: { split; [discriminate |]. intros (_ & (a & Ha & _) & _). discriminate Ha. }
  all: rewrite SendFacts.lookupOptional_eq.
  all: destruct (String.eqb (Send.build_Payer buildFlags) "");
    [| destruct (ByName state (Send.build_Payer buildFlags)) as [pa|]].
  3, 6: (split; [discriminate |]; intros (_ & _ & (a & Ha & _) & _); discriminate Ha).
  all: destruct (Send.lookupAuthorizers ByName state (Send.Autorizer sendFlags) [] log)
         as [[l | e |] log1] eqn:El.
  all: try (split; [discriminate |];
            intros (-> & _ & _ & H);
            assert (Hok : Send.lookupAuthorizers ByName state (Send.Autorizer sendFlags) [] log
                          = (Ok authorizers, log));
            [apply lookupAuthorizers_Ok_iff; split; [reflexivity |];
             exists authorizers; split; [reflexivity | exact H]
            | rewrite El in Hok; discriminate Hok]).
  all: apply lookupAuthorizers_Ok_iff in El as (-> & accounts & -> & Hacc); simpl.
  all: split;
    [ intros H; injection H as <- <- <- <-; split; [reflexivity |];
      repeat split; eauto
    | intros (-> & Hp & Hpa & H) ].
  all: assert (accounts = authorizers) as ->
      by (clear - Hacc H; revert authorizers H;
          induction Hacc as [|n a names accounts Hn _ IH]; intros authorizers H;
          inversion H as [|? a' ? rest Ha Hrest]; subst;
          [reflexivity | rewrite Hn in Ha; injection Ha as <-; f_equal; apply IH, Hrest]).
  all: repeat match goal with
       | H : exists _, _ |- _ => destruct H as (? & ? & ?)
       | H : Some _ = Some _ |- _ => injection H as <-
       end; subst; reflexivity.
Qed.

End Resolution.

Section Command.
Context {State Roles Value Tx TxResult : Type}.
Variable ByName : State -> string -> option Send.Account.
Variable readFile : string -> reply string.
Variable ParseArgumentsJSON : string -> reply (list Value).
Variable ParseArgumentsWithoutType : string -> string -> list string -> reply (list Value).
Variable NewTransactionAccountRoles :
  option Send.Account -> option Send.Account -> list Send.Account -> reply Roles.
Variable Transactions_Send :
  Roles -> Send.Script Value -> Z -> string -> reply (Tx * TxResult).
Variable DefaultTransactionGasLimit : Z.

#[local] Abbreviation send :=
  (Send.send ByName readFile ParseArgumentsJSON ParseArgumentsWithoutType
     NewTransactionAccountRoles Transactions_Send DefaultTransactionGasLimit).

(** X22: whatever [send] hands to the transaction service, it has resolved
    the roles, read the file named by its first argument, parsed the
    arguments and built the roles before, all without error: the service
    gets the roles built from the resolved accounts, the code read from
    that file, the file name, the default gas limit and the network of the
    global flags. *)
Theorem send_submits_after_every_step codeFilename rest sendFlags buildFlags network state
    roles code filename gasLimit net :
  In (Send.TransactionsSend roles code filename gasLimit net)
     (snd (send (codeFilename :: rest) sendFlags buildFlags network state [])) ->
  filename = codeFilename
  /\ gasLimit = DefaultTransactionGasLimit
  /\ net = network
  /\ readFile codeFilename = inl code
  /\ exists proposer payer authorizers transactionArgs,
       Send.resolveRoles ByName sendFlags buildFlags state ([] : list (Send.effect Roles))
       = (Ok (proposer, payer, authorizers), [])
       /\ (if negb (String.eqb (Send.ArgsJSON sendFlags) "")
           then ParseArgumentsJSON (Send.ArgsJSON sendFlags)
           else ParseArgumentsWithoutType codeFilename code rest) = inl transactionArgs
       /\ NewTransactionAccountRoles proposer payer authorizers = inl roles.
Proof.
  unfold Send.send, mbind, Send.M_bind. simpl.
  pose proof (resolveRoles_log ByName state sendFlags buildFlags
                ([] : list (Send.effect Roles))) as Hlog.
  destruct (Send.resolveRoles ByName sendFlags buildFlags state
              ([] : list (Send.effect Roles)))
    as [[[[proposer payer] authorizers] | e |] log'];
    simpl in Hlog; subst log'; simpl; try contradiction.
  destruct (readFile codeFilename) as [code' | err]; simpl;
    [| intros [H | []]; discriminate H].
  destruct (negb (length (Send.Arg sendFlags) =? 0)%nat); simpl.
  all: destruct (if negb (String.eqb (Send.ArgsJSON sendFlags) "")
                 then ParseArgumentsJSON (Send.ArgsJSON sendFlags)
                 else ParseArgumentsWithoutType codeFilename code' rest)
         as [transactionArgs | err] eqn:Ea; simpl.
  all: try (intros H; repeat (destruct H as [H | H]; try discriminate H); contradiction).
  all: destruct (NewTransactionAccountRoles proposer payer authorizers)
         as [roles' | err] eqn:Er; simpl.
  all: try (intros H; repeat (destruct H as [H | H]; try discriminate H); contradiction).
  all: destruct (Transactions_Send _ _ _ _) as [[t res] | err]; simpl.
  all: intros H; repeat (destruct H as [H | H]; try discriminate H); try contradiction.
  all: injection H as <- <- <- <- <-.
  all: repeat (split; [reflexivity |]).
  all: exists proposer, payer, authorizers, transactionArgs; auto.
Qed.

(** X23: the values of the deprecated [--arg] flag are never read, only
    whether there are any: two runs whose flags differ in those values
    alone end alike.  With [--args-json] set the command's arguments after
    the file name are not read either. *)
Theorem send_ignores_arg_values_and_shadowed_arguments
    codeFilename rest sendFlags buildFlags network state log :
  (forall values,
      Send.Arg sendFlags <> [] -> values <> [] ->
      send (codeFilename :: rest) (withArg values sendFlags) buildFlags network state log
      = send (codeFilename :: rest) sendFlags buildFlags network state log)
  /\ (Send.ArgsJSON sendFlags <> "" ->
      forall rest',
        send (codeFilename :: rest') sendFlags buildFlags network state log
        = send (codeFilename :: rest) sendFlags buildFlags network state log).
Proof.
  split.
  - intros values Harg Hvalues.
    unfold Send.send, mbind, Send.M_bind. simpl.
    change (Send.resolveRoles ByName (withArg values sendFlags) buildFlags state log)
      with (Send.resolveRoles ByName sendFlags buildFlags state log).
    destruct (Send.Arg sendFlags) as [|a l]; [contradiction |].
    destruct values as [|v values]; [contradiction |].
    reflexivity.
  - intros Hjson rest'.
    unfold Send.send, mbind, Send.M_bind. simpl.
    apply String.eqb_neq in Hjson. rewrite Hjson. reflexivity.
Qed.

End Command.

(** bob proposes, alice pays and authorizes twice. *)
Lemma resolveRoles_without_signer_witness :
  Sample.resolveRoles (Sample.flags "" "bob" "" ["alice"; "alice"]) (Sample.buildPayer "alice")
  = (Ok (Some Sample.bob, Some Sample.alice, [Sample.alice; Sample.alice]), []).
Proof.
  apply (proj2 (resolveRoles_without_signer Send.Accounts_ByName Sample.config
                  (Sample.flags "" "bob" "" ["alice"; "alice"]) (Sample.buildPayer "alice")
                  [] (Some Sample.bob) (Some Sample.alice) [Sample.alice; Sample.alice] []
                  eq_refl)).
  split; [reflexivity |].
  split; [exists Sample.bob; split; reflexivity |].
  split; [exists Sample.alice; split; reflexivity |].
  repeat constructor.
Defined.

Lemma send_submits_after_every_step_witness :
  "tx.cdc" = "tx.cdc"
  /\ 1000%Z = 1000%Z
  /\ "emulator" = "emulator"
  /\ (inl "transaction {}" : reply string) = inl "transaction {}"
  /\ exists proposer payer authorizers transactionArgs,
       Send.resolveRoles Send.Accounts_ByName (Sample.flags "alice" "" "" [])
         (Sample.buildPayer "") Sample.config ([] : list (Send.effect Sample.Roles))
       = (Ok (proposer, payer, authorizers), [])
       /\ (inl [] : reply (list Flow.Value)) = inl transactionArgs
       /\ (inl (proposer, payer, authorizers) : reply Sample.Roles)
          = inl (Some Sample.alice, Some Sample.alice, [Sample.alice]).
Proof.
  apply (send_submits_after_every_step Send.Accounts_ByName
           (fun _ => inl "transaction {}")
           (fun _ => inl ([] : list Flow.Value))
           (fun _ _ _ => inl [])
           (fun proposer payer authorizers => inl (proposer, payer, authorizers))
           (fun _ _ _ _ => inl (Sample.staged 1000, Sample.res Flow.TransactionStatusSealed))
           1000%Z "tx.cdc" [] (Sample.flags "alice" "" "" []) (Sample.buildPayer "")
           "emulator" Sample.config
           (Some Sample.alice, Some Sample.alice, [Sample.alice])
           "transaction {}" "tx.cdc" 1000%Z "emulator").
  simpl. auto.
Defined.

(** Two values of [--arg] in place of one, and other arguments behind
    [--args-json]: the sample run ends as before. *)
Lemma send_ignores_arg_values_and_shadowed_arguments_witness :
  Sample.send ["tx.cdc"] (withArg ["Int:1"; "Int:2"] (withArg ["String:a"] (Sample.flags "alice" "" "" [])))
    (Sample.buildPayer "")
  = Sample.send ["tx.cdc"] (withArg ["String:a"] (Sample.flags "alice" "" "" []))
      (Sample.buildPayer "").
Proof.
  apply (proj1 (send_ignores_arg_values_and_shadowed_arguments Send.Accounts_ByName
                  (fun _ => inl "transaction {}")
                  (fun _ => inl ([] : list Flow.Value))
                  (fun _ _ _ => inl [])
                  (fun proposer payer authorizers => inl (proposer, payer, authorizers))
                  (fun _ _ _ _ =>
                     inl (Sample.staged 1000, Sample.res Flow.TransactionStatusSealed))
                  1000%Z "tx.cdc" [] (withArg ["String:a"] (Sample.flags "alice" "" "" []))
                  (Sample.buildPayer "") "emulator" Sample.config [])
           ["Int:1"; "Int:2"]); discriminate.
Defined.

End SendMore.

(* ------------------------------------------------------------------ *)
(** ** The earlier [send] command: file name and JSON arguments *)
(* ------------------------------------------------------------------ *)
Module SendV1Facts.
Import Go SendProps.

Section Command.
Context {Tx TxResult : Type}.
Variable Transactions_Send :
  string -> string -> string -> list string -> string -> reply (Tx * TxResult).

#[local] Abbreviation Run := (SendV1.Run Transactions_Send).
#[local] Abbreviation outcome r := (fst (fst r)).
#[local] Abbreviation flagsAfter r := (snd (fst r)).
#[local] Abbreviation effects r := (snd r).

Lemma sentFilename_app_Println log line :
  SendV1.sentFilename (log ++ [SendV1.Println line]) = SendV1.sentFilename log.
Proof.
  unfold SendV1.sentFilename. rewrite List.filter_app. simpl. rewrite app_nil_r. reflexivity.
Qed.

Lemma sentArgsJSON_app_Println log line :
  SendV1.sentArgsJSON (log ++ [SendV1.Println line]) = SendV1.sentArgsJSON log.
Proof.
  unfold SendV1.sentArgsJSON. rewrite List.filter_app. simpl. rewrite app_nil_r. reflexivity.
Qed.

Lemma warnings_sent log filename payload signer args argsJSON :
  warnings log ->
  SendV1.sentFilename (log ++ [SendV1.TransactionsSend filename payload signer args argsJSON])
  = Some filename
  /\ SendV1.sentArgsJSON (log ++ [SendV1.TransactionsSend filename payload signer args argsJSON])
     = Some argsJSON.
Proof.
  intros H. unfold SendV1.sentFilename, SendV1.sentArgsJSON. rewrite List.filter_app.
  assert (List.filter
            (fun e => match e with SendV1.TransactionsSend _ _ _ _ _ => true | _ => false end)
            log = []) as ->.
  { induction H as [|e log He _ IH]; [reflexivity |].
    simpl. destruct e; [exact IH | contradiction]. }
  split; reflexivity.
Qed.

Lemma warnings_nothing_sent log :
  warnings log -> SendV1.sentFilename log = None /\ SendV1.sentArgsJSON log = None.
Proof.
  intros H. unfold SendV1.sentFilename, SendV1.sentArgsJSON.
  assert (List.filter
            (fun e => match e with SendV1.TransactionsSend _ _ _ _ _ => true | _ => false end)
            log = []) as ->.
  { induction H as [|e log He _ IH]; [reflexivity |].
    simpl. destruct e; [exact IH | contradiction]. }
  split; reflexivity.
Qed.

(** X24: the earlier [send] command sends the file named by its single
    argument, whatever the deprecated [--code] flag holds; without exactly
    one argument it sends the file of [--code] when that is set; and
    otherwise it sends nothing and fails with its file-name error. *)
Theorem Run_sends_argument_before_code args sendFlags :
  SendV1.sentFilename (effects (Run args sendFlags))
  = match args with
    | [filename] => Some filename
    | _ => if String.eqb (SendV1.Code sendFlags) "" then None
           else Some (SendV1.Code sendFlags)
    end
  /\ (SendV1.sentFilename (effects (Run args sendFlags)) = None ->
      outcome (Run args sendFlags)
      = Err (ErrorString "provide a valide filename command argument")).
Proof.
  unfold SendV1.Run.
  set (log1 := if SendV1.Results sendFlags then [SendV1.Println SendV1.warnResults] else []).
  assert (H1 : warnings log1).
  { unfold log1, warnings. destruct (SendV1.Results sendFlags); repeat constructor. }
  destruct (negb (String.eqb (SendV1.Args sendFlags) "")).
  - set (flags2 := if (length (SendV1.Arg sendFlags) =? 0)%nat
                         && String.eqb (SendV1.ArgsJSON sendFlags) ""
                   then SendV1.with_ArgsJSON (SendV1.Args sendFlags) sendFlags
                   else sendFlags).
    assert (Hcode : SendV1.Code flags2 = SendV1.Code sendFlags).
    { unfold flags2. destruct (_ && _); reflexivity. }
    assert (H2 : warnings (log1 ++ [SendV1.Println SendV1.warnArgs])).
    { apply Forall_app. split; [exact H1 | repeat constructor]. }
    generalize dependent (log1 ++ [SendV1.Println SendV1.warnArgs]). intros log2 H2.
    rewrite Hcode.
    destruct args as [|filename [|second rest]]; simpl.
    2: { destruct (Transactions_Send filename _ _ _ _) as [[t res] | err]; simpl;
           rewrite (proj1 (warnings_sent log2 _ _ _ _ _ H2)); split;
           [reflexivity | discriminate | reflexivity | discriminate]. }
    all: destruct (String.eqb (SendV1.Code sendFlags) ""); simpl.
    all: try (rewrite (proj1 (warnings_nothing_sent log2 H2)); split; reflexivity).
    all: assert (H3 : warnings (log2 ++ [SendV1.Println SendV1.warnCode]))
        by (apply Forall_app; split; [exact H2 | repeat constructor]).
    all: destruct (Transactions_Send (SendV1.Code sendFlags) _ _ _ _) as [[t res] | err];
      simpl; rewrite (proj1 (warnings_sent _ _ _ _ _ _ H3)); split;
      [reflexivity | discriminate | reflexivity | discriminate].
  - destruct args as [|filename [|second rest]]; simpl.
    2: { destruct (Transactions_Send filename _ _ _ _) as [[t res] | err]; simpl;
           rewrite (proj1 (warnings_sent log1 _ _ _ _ _ H1)); split;
           [reflexivity | discriminate | reflexivity | discriminate]. }
    all: destruct (String.eqb (SendV1.Code sendFlags) ""); simpl.
    all: try (rewrite (proj1 (warnings_nothing_sent log1 H1)); split; reflexivity).
    all: assert (H3 : warnings (log1 ++ [SendV1.Println SendV1.warnCode]))
        by (apply Forall_app; split; [exact H1 | repeat constructor]).
    all: destruct (Transactions_Send (SendV1.Code sendFlags) _ _ _ _) as [[t res] | err];
      simpl; rewrite (proj1 (warnings_sent _ _ _ _ _ _ H3)); split;
      [reflexivity | discriminate | reflexivity | discriminate].
Qed.

(** X25: the JSON arguments the earlier command forwards are those of
    [--args-json] when it is set; failing that those of the deprecated
    [--args] when no [--arg] value is given, and none when one is.  The
    command leaves them in the package flags, where a later run finds
    them, and changes no other flag. *)
Theorem Run_forwards_deprecated_args args sendFlags :
  flagsAfter (Run args sendFlags) = SendV1.with_ArgsJSON (forwardedJSON sendFlags) sendFlags
  /\ (forall argsJSON,
        SendV1.sentArgsJSON (effects (Run args sendFlags)) = Some argsJSON ->
        argsJSON = forwardedJSON sendFlags)
  /\ flagsAfter (Run args (flagsAfter (Run args sendFlags)))
     = flagsAfter (Run args sendFlags).
Proof.
  assert (Hflags : forall a f,
             flagsAfter (Run a f) = SendV1.with_ArgsJSON (forwardedJSON f) f).
  { intros a f. unfold SendV1.Run, forwardedJSON.
    destruct f as [argsJSON arg signer code results oldArgs payload]. simpl.
    destruct (String.eqb oldArgs "") eqn:Eo; simpl.
    - apply String.eqb_eq in Eo. subst oldArgs.
      destruct (String.eqb argsJSON "") eqn:Ej; simpl;
        [apply String.eqb_eq in Ej; subst argsJSON |];
        destruct (length arg =? 0)%nat; simpl;
        destruct a as [|filename [|second rest]]; simpl;
        try destruct (String.eqb code ""); simpl;
        try destruct (Transactions_Send _ _ _ _ _) as [[t res] | err]; reflexivity.
    - destruct (length arg =? 0)%nat; simpl;
        (destruct (String.eqb argsJSON "") eqn:Ej; simpl;
         [apply String.eqb_eq in Ej; subst argsJSON |]);
        destruct a as [|filename [|second rest]]; simpl;
        try destruct (String.eqb code ""); simpl;
        try destruct (Transactions_Send _ _ _ _ _) as [[t res] | err]; reflexivity. }
  split; [apply Hflags |]. split.
  - intros argsJSON.
    unfold SendV1.Run.
    set (log1 := if SendV1.Results sendFlags then [SendV1.Println SendV1.warnResults] else []).
    assert (H1 : warnings log1).
    { unfold log1, warnings. destruct (SendV1.Results sendFlags); repeat constructor. }
    assert (Hjson : SendV1.ArgsJSON
                      (if negb (String.eqb (SendV1.Args sendFlags) "")
                       then if (length (SendV1.Arg sendFlags) =? 0)%nat
                               && String.eqb (SendV1.ArgsJSON sendFlags) ""
                            then SendV1.with_ArgsJSON (SendV1.Args sendFlags) sendFlags
                            else sendFlags
                       else sendFlags)
                    = forwardedJSON sendFlags).
    { unfold forwardedJSON.
      destruct (String.eqb (SendV1.Args sendFlags) "") eqn:Eo; simpl.
      - apply String.eqb_eq in Eo.
        destruct (String.eqb (SendV1.ArgsJSON sendFlags) "") eqn:Ej; simpl; [| reflexivity].
        apply String.eqb_eq in Ej. rewrite Ej, Eo.
        destruct (length (SendV1.Arg sendFlags) =? 0)%nat; reflexivity.
      - destruct (length (SendV1.Arg sendFlags) =? 0)%nat; simpl.
        + destruct (String.eqb (SendV1.ArgsJSON sendFlags) "") eqn:Ej; reflexivity.
        + destruct (String.eqb (SendV1.ArgsJSON sendFlags) "") eqn:Ej; simpl;
            [apply String.eqb_eq in Ej; exact Ej | reflexivity]. }
    destruct (negb (String.eqb (SendV1.Args sendFlags) "")).
    + set (flags2 := if (length (SendV1.Arg sendFlags) =? 0)%nat
                           && String.eqb (SendV1.ArgsJSON sendFlags) ""
                     then SendV1.with_ArgsJSON (SendV1.Args sendFlags) sendFlags
                     else sendFlags) in *.
      assert (H2 : warnings (log1 ++ [SendV1.Println SendV1.warnArgs])).
      { apply Forall_app. split; [exact H1 | repeat constructor]. }
      generalize dependent (log1 ++ [SendV1.Println SendV1.warnArgs]). intros log2 H2.
      clearbody flags2.
      destruct args as [|filename [|second rest]]; simpl.
      2: { destruct (Transactions_Send filename _ _ _ _) as [[t res] | err]; simpl;
             rewrite (proj2 (warnings_sent log2 _ _ _ _ _ H2));
             intros H; injection H as <-; exact Hjson. }
      all: destruct (String.eqb (SendV1.Code flags2) ""); simpl.
      all: try (rewrite (proj2 (warnings_nothing_sent log2 H2)); discriminate).
      all: assert (H3 : warnings (log2 ++ [SendV1.Println SendV1.warnCode]))
          by (apply Forall_app; split; [exact H2 | repeat constructor]).
      all: destruct (Transactions_Send (SendV1.Code flags2) _ _ _ _) as [[t res] | err];
        simpl; rewrite (proj2 (warnings_sent _ _ _ _ _ _ H3));
        intros H; injection H as <-; exact Hjson.
    + destruct args as [|filename [|second rest]]; simpl.
      2: { destruct (Transactions_Send filename _ _ _ _) as [[t res] | err]; simpl;
             rewrite (proj2 (warnings_sent log1 _ _ _ _ _ H1));
             intros H; injection H as <-; exact Hjson. }
      all: destruct (String.eqb (SendV1.Code sendFlags) ""); simpl.
      all: try (rewrite (proj2 (warnings_nothing_sent log1 H1)); discriminate).
      all: assert (H3 : warnings (log1 ++ [SendV1.Println SendV1.warnCode]))
          by (apply Forall_app; split; [exact H1 | repeat constructor]).
      all: destruct (Transactions_Send (SendV1.Code sendFlags) _ _ _ _) as [[t res] | err];
        simpl; rewrite (proj2 (warnings_sent _ _ _ _ _ _ H3));
        intros H; injection H as <-; exact Hjson.
  - rewrite !Hflags.
    destruct sendFlags as [argsJSON arg signer code results oldArgs payload].
    unfold forwardedJSON, SendV1.with_ArgsJSON. simpl.
    destruct (String.eqb argsJSON "") eqn:Ej; simpl; [| rewrite Ej; reflexivity].
    destruct (length arg =? 0)%nat; simpl; [| reflexivity].
    destruct (String.eqb oldArgs "") eqn:Eo; simpl; reflexivity.
Qed.

End Command.

(** One argument and [--code]: the argument is sent, the old [--args] go
    as JSON arguments. *)
Example Run_sample :
  SendV1.Run (Tx := unit) (TxResult := unit) (fun _ _ _ _ _ => inl (tt, tt)) ["tx.cdc"]
    {| SendV1.ArgsJSON := ""; SendV1.Arg := []; SendV1.Signer := "alice";
       SendV1.Code := "old.cdc"; SendV1.Results := true; SendV1.Args := "[1]";
       SendV1.Payload := "" |}
  = (Ok {| SendV1.TR_result := tt; SendV1.TR_tx := tt |},
     {| SendV1.ArgsJSON := "[1]"; SendV1.Arg := []; SendV1.Signer := "alice";
        SendV1.Code := "old.cdc"; SendV1.Results := true; SendV1.Args := "[1]";
        SendV1.Payload := "" |},
     [SendV1.Println SendV1.warnResults; SendV1.Println SendV1.warnArgs;
      SendV1.TransactionsSend "tx.cdc" "" "alice" [] "[1]"]).
Proof. reflexivity. Qed.

(** No argument and no [--code]: nothing is sent. *)
Lemma Run_sends_argument_before_code_witness :
  fst (fst (SendV1.Run (Tx := unit) (TxResult := unit) (fun _ _ _ _ _ => inl (tt, tt)) []
              {| SendV1.ArgsJSON := ""; SendV1.Arg := []; SendV1.Signer := "alice";
                 SendV1.Code := ""; SendV1.Results := false; SendV1.Args := "";
                 SendV1.Payload := "" |}))
  = Err (ErrorString "provide a valide filename command argument").
Proof.
  apply (proj2 (Run_sends_argument_before_code (fun _ _ _ _ _ => inl (tt, tt)) []
                  {| SendV1.ArgsJSON := ""; SendV1.Arg := []; SendV1.Signer := "alice";
                     SendV1.Code := ""; SendV1.Results := false; SendV1.Args := "";
                     SendV1.Payload := "" |})).
  reflexivity.
Defined.

End SendV1Facts.

(* ------------------------------------------------------------------ *)
(** ** The construction of the emulator gateway *)
(* ------------------------------------------------------------------ *)
Module EmuNewFacts.
Import Go.

Section Construction.
Context {Emulator Option Logger Ctx ServiceAccount KeyType PrivateKey PublicKey
         SigAlgo HashAlgo : Type}.
Context `{EqDecision KeyType}.
Variable KeyTypeHex : KeyType.
Variable Key_Type : ServiceAccount -> KeyType.
Variable Key_PrivateKey : ServiceAccount -> option PrivateKey.
Variable PrivateKey_PublicKey : PrivateKey -> PublicKey.
Variable Key_SigAlgo : ServiceAccount -> SigAlgo.
Variable Key_HashAlgo : ServiceAccount -> HashAlgo.
Variable WithServicePublicKey : PublicKey -> SigAlgo -> HashAlgo -> Option.
Variable emulator_WithLogger : Logger -> Option.
Variable NewBlockchain : list Option -> reply Emulator.
Variable context_Background : Ctx.
Variable emptyLogger : Logger.

#[local] Abbreviation Gateway := (EmuNew.EmulatorGateway Emulator Option Logger Ctx).
#[local] Abbreviation newEmulator :=
  (EmuNew.newEmulator KeyTypeHex Key_Type Key_PrivateKey PrivateKey_PublicKey
     Key_SigAlgo Key_HashAlgo WithServicePublicKey NewBlockchain).
#[local] Abbreviation NewEmulatorGatewayWithOpts :=
  (EmuNew.NewEmulatorGatewayWithOpts KeyTypeHex Key_Type Key_PrivateKey PrivateKey_PublicKey
     Key_SigAlgo Key_HashAlgo WithServicePublicKey NewBlockchain context_Background
     emptyLogger).
#[local] Abbreviation hexKey := (EmuNew.hexKey KeyTypeHex Key_Type).
#[local] Abbreviation option_of := (EmuNew.option_of (Emulator := Emulator) emulator_WithLogger).
#[local] Abbreviation added := (EmuNew.added (Ctx := Ctx) emulator_WithLogger).
#[local] Abbreviation running b :=
  (Some {| Emu.backend_emulator := b; Emu.automine := true |}).

Lemma newEmulator_never_Err serviceAccount options e :
  newEmulator serviceAccount options <> Err e.
Proof.
  unfold EmuNew.newEmulator.
  destruct serviceAccount as [account|]; simpl.
  - destruct (bool_decide (Key_Type account = KeyTypeHex)); simpl.
    + destruct (Key_PrivateKey account); simpl; [| discriminate].
      destruct (NewBlockchain _); discriminate.
    + destruct (NewBlockchain _); discriminate.
  - destruct (NewBlockchain _); discriminate.
Qed.

Lemma newEmulator_without_hex_key serviceAccount options :
  hexKey serviceAccount = false ->
  newEmulator serviceAccount options
  = match NewBlockchain [] with inl b => Ok b | inr _ => Panic end.
Proof.
  unfold EmuNew.hexKey, EmuNew.newEmulator. intros Hhex.
  destruct serviceAccount as [account|]; simpl; [rewrite Hhex |]; reflexivity.
Qed.

(** What the offered options leave of a gateway under construction. *)
Lemma offered_options os : forall g : Gateway,
  let g' := fold_left (fun g opt => opt g) (map option_of os) g in
  EmuNew.emulatorOptions g' = EmuNew.emulatorOptions g ++ flat_map added os
  /\ EmuNew.snapshots g' = EmuNew.snapshots g.
Proof.
  induction os as [|o os IH]; intros g; simpl.
  - rewrite app_nil_r. split; reflexivity.
  - destruct (IH (option_of o g)) as [Hopts Hsnap].
    rewrite Hopts, Hsnap. destruct o; simpl; rewrite <- ?app_assoc, ?app_nil_r;
      split; reflexivity.
Qed.

(** X26: the constructor of the emulator gateway never returns an error:
    it panics when the blockchain cannot be built.  Without a service
    account, or with one whose key is not a hex key, the blockchain is
    built with no option at all, whatever options the caller passed: the
    emulator options collected by the gateway are dropped. *)
Theorem NewEmulatorGatewayWithOpts_drops_options_without_hex_key serviceAccount
    (opts : list (Gateway -> Gateway)) :
  (forall e, NewEmulatorGatewayWithOpts serviceAccount opts <> Err e)
  /\ (hexKey serviceAccount = false ->
      match NewBlockchain [] with
      | inl b => exists g, NewEmulatorGatewayWithOpts serviceAccount opts = Ok g
                           /\ EmuNew.emulator g = Some b
                           /\ EmuNew.backend g = running b
      | inr _ => NewEmulatorGatewayWithOpts serviceAccount opts = Panic
      end).
Proof.
  unfold EmuNew.NewEmulatorGatewayWithOpts. split.
  - intros e.
    destruct (newEmulator serviceAccount _) as [b | e' |] eqn:En; simpl; try discriminate.
    exfalso. exact (newEmulator_never_Err _ _ _ En).
  - intros Hhex. rewrite (newEmulator_without_hex_key _ _ Hhex).
    destruct (NewBlockchain []) as [b | err]; simpl; [| reflexivity].
    eexists. split; [reflexivity |]. split; reflexivity.
Qed.

(** X27: for a service account with a hex key and the options this package
    offers, the blockchain is built with the service public key first and
    then the emulator options in the order the options added them;
    [WithLogger] and [WithContext] add none.  The gateway that results
    drives that blockchain with auto-mine on and holds no snapshot.  A nil
    private key makes the constructor panic. *)
Theorem NewEmulatorGatewayWithOpts_hex_key_options account
    (os : list (EmuNew.offered Option Logger Ctx)) :
  Key_Type account = KeyTypeHex ->
  match Key_PrivateKey account with
  | None => NewEmulatorGatewayWithOpts (Some account) (map option_of os) = Panic
  | Some privKey =>
      match NewBlockchain
              (WithServicePublicKey (PrivateKey_PublicKey privKey)
                 (Key_SigAlgo account) (Key_HashAlgo account)
                 :: flat_map added os) with
      | inl b => exists g,
          NewEmulatorGatewayWithOpts (Some account) (map option_of os) = Ok g
          /\ EmuNew.emulator g = Some b
          /\ EmuNew.backend g = running b
          /\ EmuNew.emulatorOptions g = flat_map added os
          /\ EmuNew.snapshots g = ∅
      | inr _ => NewEmulatorGatewayWithOpts (Some account) (map option_of os) = Panic
      end
  end.
Proof.
  intros Hhex. unfold EmuNew.NewEmulatorGatewayWithOpts, EmuNew.newEmulator.
  rewrite (bool_decide_eq_true_2 _ Hhex).
  destruct (Key_PrivateKey account) as [privKey|]; simpl; [| reflexivity].
  match goal with
  | |- context [fold_left _ _ ?g0] =>
      destruct (offered_options os g0) as [Hopts Hsnap]
  end.
  simpl in Hopts, Hsnap. rewrite Hopts.
  destruct (NewBlockchain _) as [b | err]; simpl; [| reflexivity].
  eexists. split; [reflexivity |]. simpl. auto.
Qed.

End Construction.

(** Without a service account the sample options are dropped; with a hex
    key they follow the service key, in order. *)
Lemma NewEmulatorGatewayWithOpts_drops_options_without_hex_key_witness :
  exists g, SampleEmuNew.gateway None SampleEmuNew.offeredOptions = Ok g
            /\ EmuNew.emulator g = Some []
            /\ EmuNew.backend g = Some {| Emu.backend_emulator := []; Emu.automine := true |}.
Proof.
  apply (proj2 (NewEmulatorGatewayWithOpts_drops_options_without_hex_key
                  "hex" fst snd (fun k => "pub-" +:+ k)
                  (fun _ => "ECDSA_P256") (fun _ => "SHA3_256") SampleEmuNew.serviceKey
                  SampleEmuNew.NewBlockchain "background" "quiet" None
                  (map (EmuNew.option_of (fun l => "logger:" +:+ l))
                     SampleEmuNew.offeredOptions))).
  reflexivity.
Defined.

Lemma NewEmulatorGatewayWithOpts_hex_key_options_witness :
  exists g, SampleEmuNew.gateway (Some ("hex", Some "k1")) SampleEmuNew.offeredOptions = Ok g
            /\ EmuNew.emulator g
               = Some ["service-key:pub-k1"; "storage-limit"; "logger:loud"; "fees";
                       "simple-addresses"]
            /\ EmuNew.backend g
               = Some {| Emu.backend_emulator :=
                           ["service-key:pub-k1"; "storage-limit"; "logger:loud"; "fees";
                            "simple-addresses"];
                         Emu.automine := true |}
            /\ EmuNew.emulatorOptions g
               = ["storage-limit"; "logger:loud"; "fees"; "simple-addresses"]
            /\ EmuNew.snapshots g = ∅.
Proof.
  apply (NewEmulatorGatewayWithOpts_hex_key_options
           "hex" fst snd (fun k => "pub-" +:+ k)
           (fun _ => "ECDSA_P256") (fun _ => "SHA3_256") SampleEmuNew.serviceKey
           (fun l => "logger:" +:+ l) SampleEmuNew.NewBlockchain "background" "quiet"
           ("hex", Some "k1") SampleEmuNew.offeredOptions).
  reflexivity.
Defined.

(** A service account with another key type: no option reaches the
    blockchain, though the gateway has collected them. *)
Example gateway_with_other_key :
  (g ← SampleEmuNew.gateway (Some ("kms", None)) SampleEmuNew.offeredOptions;
   Ok (EmuNew.emulator g, EmuNew.emulatorOptions g, EmuNew.logger g))
  = Ok (Some [], ["storage-limit"; "logger:loud"; "fees"; "simple-addresses"], "loud").
Proof. reflexivity. Qed.

End EmuNewFacts.

(* ------------------------------------------------------------------ *)
(** ** Accounts by address *)
(* ------------------------------------------------------------------ *)
Module StateMore.
Import Go.

Section ByAddress.
Context {Config : Type}.
Variable HexToAddress : string -> Flow.Address.

#[local] Abbreviation printedAs address :=
  (fun b : State.Account =>
     Flow.Address_String (Project.address b)
     = Flow.Address_String (HexToAddress address)).

Lemma AccountByAddress_loop_None address (l : list State.Account) :
  State.AccountByAddress_loop HexToAddress address l = None
  <-> Forall (fun b => ~ printedAs address b) l.
Proof.
  induction l as [|b l IH]; cbn [State.AccountByAddress_loop].
  - split; [constructor | reflexivity].
  - destruct (String.eqb_spec (Flow.Address_String (Project.address b))
                (Flow.Address_String (HexToAddress address))) as [Hb | Hb].
    + split; [discriminate |]. intros H. apply Forall_cons in H as [H _]. contradiction.
    + rewrite IH. split.
      * intros H. constructor; assumption.
      * intros H. apply Forall_cons in H as [_ H]. exact H.
Qed.

Lemma AccountByAddress_loop_Some address (l : list State.Account) a :
  State.AccountByAddress_loop HexToAddress address l = Some a
  <-> exists pre post,
      l = pre ++ a :: post
      /\ printedAs address a
      /\ Forall (fun b => ~ printedAs address b) pre.
Proof.
  induction l as [|b l IH]; cbn [State.AccountByAddress_loop].
  - split; [discriminate |]. intros (pre & post & H & _). destruct pre; discriminate H.
  - destruct (String.eqb_spec (Flow.Address_String (Project.address b))
                (Flow.Address_String (HexToAddress address))) as [Hb | Hb].
    + split.
      * intros H. injection H as <-. exists [], l. repeat split; [exact Hb | constructor].
      * intros (pre & post & H & Ha & Hpre).
        destruct pre as [|c pre]; cbn [app] in H; injection H as -> ->; [reflexivity |].
        apply Forall_cons in Hpre as [Hc _]. contradiction.
    + rewrite IH. split.
      * intros (pre & post & -> & Ha & Hpre). exists (b :: pre), post.
        repeat split; [exact Ha | constructor; assumption].
      * intros (pre & post & H & Ha & Hpre).
        destruct pre as [|c pre]; cbn [app] in H; injection H as -> ->; [contradiction |].
        apply Forall_cons in Hpre as [_ Hpre]. exists pre, post. auto.
Qed.

(** X28: [AccountByAddress] compares printed addresses, after the address
    asked for has gone through [flow.HexToAddress]: it answers nil exactly
    when no account prints as that address, and otherwise the first account
    that does, where [AccountByName] answers the last. *)
Theorem AccountByAddress_first_match (p : State.State Config) address :
  (State.AccountByAddress HexToAddress p address = None
   <-> Forall (fun b => ~ printedAs address b) (State.accounts p))
  /\ (forall a,
        State.AccountByAddress HexToAddress p address = Some a
        <-> exists pre post,
            State.accounts p = pre ++ a :: post
            /\ printedAs address a
            /\ Forall (fun b => ~ printedAs address b) pre).
Proof.
  split; [apply AccountByAddress_loop_None | intros a; apply AccountByAddress_loop_Some].
Qed.

End ByAddress.

(** alice and carol share the address 1: by address alice is found, and
    were both named alike the name would find the later one. *)
Example AccountByAddress_sample :
  State.AccountByAddress (fun _ => 1%N)
    {| State.conf := tt; State.accounts := [Sample.alice; Sample.bob; Sample.carol] |}
    "0x01"
  = Some Sample.alice.
Proof. vm_compute. reflexivity. Qed.

End StateMore.
